(** * DiscoEditorPub: bitfield codec, field accessor, pointer resolution,
      table scanning and offsets restructuring

    A shallow embedding of the core of [2k25_player_patcher_gui_patched_homepage.py]
    and of [offsets_reader.py], with the properties of the design document
    stated over it. *)

From Stdlib Require Import ZArith Lia List Bool Ascii String.
From Stdlib.Strings Require Import Byte.
From Corelib Require Import SpecFloat.
From stdpp Require Import base tactics option list gmap strings pretty.

Local Open Scope Z_scope.

(** ** Python exceptions and results

    Only exceptions deriving from [Exception] occur in the modelled code, so a
    bare [except Exception] catches every one of them. *)

Inductive exn : Type :=
  | ValueError | OverflowError | ZeroDivisionError
  | RuntimeError | AttributeError | TypeError.

Inductive res (A : Type) : Type :=
  | Val (a : A)
  | Exc (e : exn).
Arguments Val {A} a.
Arguments Exc {A} e.

#[global] Instance res_ret : MRet res := fun A a => Val a.
#[global] Instance res_bind : MBind res := fun A B f m =>
  match m with
  | Val a => f a
  | Exc e => Exc e
  end.

(** [try: body / except Exception: handler] for pure code. *)
Definition try_except {A} (body : res A) (handler : res A) : res A :=
  match body with
  | Val a => Val a
  | Exc _ => handler
  end.

(** ** Python numbers: unbounded integers and binary64 floats *)

Module PyNum.

Definition prec : Z := 53.
Definition emax : Z := 1024.

Abbreviation float := spec_float.

Inductive num : Type :=
  | Int (z : Z)
  | Flt (f : float).

(** A finite float [(-1)^s * m * 2^e] as the dyadic number [n * 2^e]. *)
Definition dyadic : Type := (Z * Z)%type.

Definition finite_value (f : float) : option dyadic :=
  match f with
  | S754_zero _ => Some (0, 0)
  | S754_finite s m e => Some (cond_Zopp s (Zpos m), e)
  | S754_infinity _ | S754_nan => None
  end.

(** Exact comparison of two dyadic numbers, on a common exponent. *)
Definition dy_compare (x y : dyadic) : comparison :=
  let '(n1, e1) := x in
  let '(n2, e2) := y in
  let e := Z.min e1 e2 in
  Z.compare (n1 * 2 ^ (e1 - e)) (n2 * 2 ^ (e2 - e)).

(** Python compares ints with floats, and floats with floats, by their exact
    values; every comparison with a NaN is false. *)
Inductive ext : Type :=
  | NegInf | Fin (d : dyadic) | PosInf | NaN.

Definition ext_of (x : num) : ext :=
  match x with
  | Int z => Fin (z, 0)
  | Flt (S754_infinity true) => NegInf
  | Flt (S754_infinity false) => PosInf
  | Flt S754_nan => NaN
  | Flt (S754_zero _) => Fin (0, 0)
  | Flt (S754_finite s m e) => Fin (cond_Zopp s (Zpos m), e)
  end.

Definition ext_compare (x y : ext) : option comparison :=
  match x, y with
  | NaN, _ | _, NaN => None
  | NegInf, NegInf | PosInf, PosInf => Some Eq
  | NegInf, _ | _, PosInf => Some Lt
  | _, NegInf | PosInf, _ => Some Gt
  | Fin a, Fin b => Some (dy_compare a b)
  end.

Definition py_lt (x y : num) : bool :=
  match ext_compare (ext_of x) (ext_of y) with
  | Some Lt => true
  | _ => false
  end.

Definition py_gt (x y : num) : bool :=
  match ext_compare (ext_of x) (ext_of y) with
  | Some Gt => true
  | _ => false
  end.

(** [float(z)]: the nearest binary64, ties to even; [OverflowError] when the
    integer is too large. *)
Definition float_of_Z (z : Z) : res float :=
  match binary_normalize prec emax z 0 false with
  | S754_infinity _ => Exc OverflowError
  | f => Val f
  end.

Definition to_float (x : num) : res float :=
  match x with
  | Int z => float_of_Z z
  | Flt f => Val f
  end.

Definition is_zero (f : float) : bool :=
  match f with
  | S754_zero _ => true
  | _ => false
  end.

(** The integer [z <> 0] as an unrounded mantissa with exponent 0. *)
Definition unrounded (z : Z) : float :=
  match z with
  | Z0 => S754_zero false
  | Zpos p => S754_finite false p 0
  | Zneg p => S754_finite true p 0
  end.

(** [a / b] on two ints is the correctly rounded quotient of the exact
    integers (CPython's [long_true_divide]); on floats it is IEEE division,
    except that a zero divisor raises. *)
Definition py_truediv (x y : num) : res num :=
  match x, y with
  | Int a, Int b =>
      if b =? 0 then Exc ZeroDivisionError
      else if a =? 0 then Val (Flt (S754_zero (b <? 0)))
      else match SFdiv prec emax (unrounded a) (unrounded b) with
           | S754_infinity _ => Exc OverflowError
           | q => Val (Flt q)
           end
  | _, _ =>
      fx ← to_float x;
      fy ← to_float y;
      if is_zero fy then Exc ZeroDivisionError
      else Val (Flt (SFdiv prec emax fx fy))
  end.

Definition py_mul (x y : num) : res num :=
  match x, y with
  | Int a, Int b => Val (Int (a * b))
  | _, _ => fx ← to_float x; fy ← to_float y; Val (Flt (SFmul prec emax fx fy))
  end.

Definition py_add (x y : num) : res num :=
  match x, y with
  | Int a, Int b => Val (Int (a + b))
  | _, _ => fx ← to_float x; fy ← to_float y; Val (Flt (SFadd prec emax fx fy))
  end.

Definition py_sub (x y : num) : res num :=
  match x, y with
  | Int a, Int b => Val (Int (a - b))
  | _, _ => fx ← to_float x; fy ← to_float y; Val (Flt (SFsub prec emax fx fy))
  end.

(** Nearest integer to [n * 2^e], ties going to the even neighbour. *)
Definition round_half_even (d : dyadic) : Z :=
  let '(n, e) := d in
  if 0 <=? e then n * 2 ^ e
  else
    let q := n / 2 ^ (- e) in
    let r := n mod 2 ^ (- e) in
    match Z.compare (2 * r) (2 ^ (- e)) with
    | Lt => q
    | Gt => q + 1
    | Eq => if Z.even q then q else q + 1
    end.

(** Nearest integer to [n * 2^e], ties going up: [floor (x + 1/2)]. *)
Definition round_half_up (d : dyadic) : Z :=
  let '(n, e) := d in
  if 0 <=? e then n * 2 ^ e
  else (2 * n + 2 ^ (- e)) / (2 * 2 ^ (- e)).

(** The builtin [round(x)] with one argument: an int is returned as it is, a
    float is rounded half to even; infinities and NaN raise. *)
Definition py_round (x : num) : res Z :=
  match x with
  | Int z => Val z
  | Flt (S754_infinity _) => Exc OverflowError
  | Flt S754_nan => Exc ValueError
  | Flt f => match finite_value f with
           | Some d => Val (round_half_even d)
           | None => Exc ValueError
           end
  end.

(** [a << n] raises [ValueError] on a negative shift count. *)
Definition py_lshift (a n : Z) : res Z :=
  if n <? 0 then Exc ValueError else Val (Z.shiftl a n).

Definition py_rshift (a n : Z) : res Z :=
  if n <? 0 then Exc ValueError else Val (Z.shiftr a n).

End PyNum.
Import PyNum.

(** ** Rating conversion helpers *)

Definition RATING_MIN : Z := 25.
Definition RATING_MAX_DISPLAY : Z := 99.
Definition RATING_MAX_TRUE : Z := 110.

Inductive storage_mode : Type := direct | scale.

Definition storage_mode_eqb (a b : storage_mode) : bool :=
  match a, b with
  | direct, direct | scale, scale => true
  | _, _ => false
  end.

Definition ATTR_STORAGE_MODE : storage_mode := scale.

(** The value of the variable [rating] when [convert_raw_to_rating] reaches
    its [return int(round(rating))]. *)
Definition convert_raw_to_rating_value (raw length : Z) : res num :=
  p ← py_lshift 1 length;
  let max_raw := p - 1 in
  if max_raw <=? 0 then Val (Int RATING_MIN)
  else
    rating ←
      (if storage_mode_eqb ATTR_STORAGE_MODE direct && (RATING_MAX_TRUE <=? max_raw)
       then Val (Int raw)
       else
         q ← py_truediv (Int raw) (Int max_raw);
         s ← py_mul q (Int (RATING_MAX_TRUE - RATING_MIN));
         py_add (Int RATING_MIN) s);
    Val (if py_lt rating (Int RATING_MIN) then Int RATING_MIN
         else if py_gt rating (Int RATING_MAX_TRUE) then Int RATING_MAX_TRUE
         else rating).

Definition convert_raw_to_rating (raw length : Z) : res Z :=
  try_except
    (p ← py_lshift 1 length;
     let max_raw := p - 1 in
     if max_raw <=? 0 then Val RATING_MIN
     else
       rating ←
         (if storage_mode_eqb ATTR_STORAGE_MODE direct && (RATING_MAX_TRUE <=? max_raw)
          then Val (Int raw)
          else
            q ← py_truediv (Int raw) (Int max_raw);
            s ← py_mul q (Int (RATING_MAX_TRUE - RATING_MIN));
            py_add (Int RATING_MIN) s);
       let rating :=
         if py_lt rating (Int RATING_MIN) then Int RATING_MIN
         else if py_gt rating (Int RATING_MAX_TRUE) then Int RATING_MAX_TRUE
         else rating in
       py_round rating)
    (Val RATING_MIN).

Definition convert_rating_to_raw (rating : num) (length : Z) : res Z :=
  try_except
    (p ← py_lshift 1 length;
     let max_raw := p - 1 in
     if max_raw <=? 0 then Val 0
     else
       r ← to_float rating;
       let r :=
         if py_lt (Flt r) (Int RATING_MIN) then Int RATING_MIN
         else if py_gt (Flt r) (Int RATING_MAX_TRUE) then Int RATING_MAX_TRUE
         else Flt r in
       raw_val ←
         (if storage_mode_eqb ATTR_STORAGE_MODE direct && (RATING_MAX_TRUE <=? max_raw)
          then py_round r
          else
            fraction ← (d ← py_sub r (Int RATING_MIN);
                        py_truediv d (Int (RATING_MAX_TRUE - RATING_MIN)));
            let fraction :=
              if py_lt fraction (Flt (S754_zero false)) then Flt (S754_zero false)
              else if py_gt fraction (Flt (SFone prec emax)) then Flt (SFone prec emax)
              else fraction in
            m ← py_mul fraction (Int max_raw);
            py_round m);
       Val (if raw_val <? 0 then 0
            else if max_raw <? raw_val then max_raw
            else raw_val))
    (Val 0).

(** The binary64 constant [100.0]. *)
Definition f100 : float := binary_normalize prec emax 100 0 false.

(** The value of [rating] when [convert_tendency_raw_to_rating] reaches its
    [return int(round(rating))]. *)
Definition convert_tendency_raw_to_rating_value (raw length : Z) : res num :=
  p ← py_lshift 1 length;
  let max_raw := p - 1 in
  if max_raw <=? 0 then Val (Int 0)
  else
    q ← py_truediv (Int raw) (Int max_raw);
    rating ← py_mul q (Flt f100);
    Val (if py_lt rating (Flt (S754_zero false)) then Flt (S754_zero false)
         else if py_gt rating (Flt f100) then Flt f100
         else rating).

Definition convert_tendency_raw_to_rating (raw length : Z) : res Z :=
  try_except
    (p ← py_lshift 1 length;
     let max_raw := p - 1 in
     if max_raw <=? 0 then Val 0
     else
       q ← py_truediv (Int raw) (Int max_raw);
       rating ← py_mul q (Flt f100);
       let rating :=
         if py_lt rating (Flt (S754_zero false)) then Flt (S754_zero false)
         else if py_gt rating (Flt f100) then Flt f100
         else rating in
       py_round rating)
    (Val 0).


(** ** Python strings

    A [str] is a sequence of Unicode code points. *)

Definition pystr : Type := list N.

(** An ASCII literal as a [str]. *)
Definition lit (s : string) : pystr :=
  map N_of_ascii (list_ascii_of_string s).

(** [str(z)] for an integer. *)
Definition str_of_int (z : Z) : pystr := lit (pretty z).

(** The predicates of the Unicode database on ASCII input; the editor is
    stated over arbitrary predicates and run with these. *)
Definition ascii_isspace (c : N) : bool :=
  ((9 <=? c) && (c <=? 13) || (28 <=? c) && (c <=? 32))%N.

Definition ascii_isprintable (c : N) : bool :=
  ((32 <=? c) && (c <=? 126))%N.

Definition ascii_isalpha (c : N) : bool :=
  ((65 <=? c) && (c <=? 90) || (97 <=? c) && (c <=? 122))%N.

(** ** Bytes and little-endian integers *)

Definition byte_val (b : byte) : Z := Z.of_N (Byte.to_N b).

Definition byte_of_Z (z : Z) : byte :=
  match Byte.of_N (Z.to_N (z mod 256)) with
  | Some b => b
  | None => Byte.x00
  end.

(** [int.from_bytes(raw, "little")] *)
Fixpoint from_bytes_little (raw : list byte) : Z :=
  match raw with
  | [] => 0
  | b :: rest => byte_val b + 256 * from_bytes_little rest
  end.

Fixpoint bytes_little (n : Z) (len : nat) : list byte :=
  match len with
  | O => []
  | S len' => byte_of_Z n :: bytes_little (n / 256) len'
  end.

(** [n.to_bytes(len, "little")]: unsigned, [OverflowError] when [n] is
    negative or does not fit, [ValueError] on a negative length. *)
Definition to_bytes_little (n len : Z) : res (list byte) :=
  if len <? 0 then Exc ValueError
  else if n <? 0 then Exc OverflowError
  else if 256 ^ len <=? n then Exc OverflowError
  else Val (bytes_little n (Z.to_nat len)).

(** ** UTF-16LE decoding with [errors="ignore"] *)

Fixpoint code_units (raw : list byte) : list Z :=
  match raw with
  | lo :: hi :: rest => (byte_val lo + 256 * byte_val hi) :: code_units rest
  | _ => []
  end.

Definition is_high_surrogate (u : Z) : bool := (0xD800 <=? u) && (u <=? 0xDBFF).
Definition is_low_surrogate (u : Z) : bool := (0xDC00 <=? u) && (u <=? 0xDFFF).

(** A surrogate pair gives one code point; a lone surrogate is dropped and
    decoding resumes at the next code unit. *)
Fixpoint decode_units (us : list Z) : pystr :=
  match us with
  | [] => []
  | u :: rest =>
      if is_high_surrogate u then
        match rest with
        | u2 :: rest' =>
            if is_low_surrogate u2
            then Z.to_N (0x10000 + Z.shiftl (u - 0xD800) 10 + (u2 - 0xDC00))
                   :: decode_units rest'
            else decode_units rest
        | [] => []
        end
      else if is_low_surrogate u then decode_units rest
      else Z.to_N u :: decode_units rest
  end.

Definition decode_utf16le (raw : list byte) : pystr :=
  decode_units (code_units raw).

(** [s[:s.find("\x00")]] when a NUL is found, [s] otherwise. *)
Fixpoint until_nul (s : pystr) : pystr :=
  match s with
  | [] => []
  | c :: rest => if (c =? 0)%N then [] else c :: until_nul rest
  end.

(** ** The foreign process, the memory port and the model's caches

    [os_*] is what the operating system answers: whether the platform is
    Windows, the process id found for the module name, the handle that
    [OpenProcess] returns, the module's load address, and the bytes of the
    process ([os_mem] holds the readable addresses, [os_writable] says which
    of them accept a write).  [os_reads] records every [ReadProcessMemory]
    call as (address, length), oldest first.  [gm_*] are the attributes of
    [GameMemory]; the remaining fields are attributes of [PlayerDataModel]. *)

Record State : Type := mkState {
  os_win32 : bool;
  os_pid : option Z;
  os_handle : option Z;
  os_module_base : option Z;
  os_mem : gmap Z byte;
  os_writable : Z -> bool;
  os_reads : list (Z * Z);
  gm_pid : option Z;
  gm_hproc : option Z;
  gm_base_addr : option Z;
  resolved_player_base : option Z;
  resolved_team_base : option Z;
  team_types : gmap Z Z;
  team_list : list (Z * pystr)
}.

Definition set_gm (pid hproc base : option Z) (st : State) : State :=
  mkState (os_win32 st) (os_pid st) (os_handle st) (os_module_base st)
          (os_mem st) (os_writable st) (os_reads st)
          pid hproc base
          (resolved_player_base st) (resolved_team_base st)
          (team_types st) (team_list st).

Definition set_mem (m : gmap Z byte) (st : State) : State :=
  mkState (os_win32 st) (os_pid st) (os_handle st) (os_module_base st)
          m (os_writable st) (os_reads st)
          (gm_pid st) (gm_hproc st) (gm_base_addr st)
          (resolved_player_base st) (resolved_team_base st)
          (team_types st) (team_list st).

Definition log_read (addr len : Z) (st : State) : State :=
  mkState (os_win32 st) (os_pid st) (os_handle st) (os_module_base st)
          (os_mem st) (os_writable st) (os_reads st ++ [(addr, len)])
          (gm_pid st) (gm_hproc st) (gm_base_addr st)
          (resolved_player_base st) (resolved_team_base st)
          (team_types st) (team_list st).

Definition set_resolved_player_base (b : option Z) (st : State) : State :=
  mkState (os_win32 st) (os_pid st) (os_handle st) (os_module_base st)
          (os_mem st) (os_writable st) (os_reads st)
          (gm_pid st) (gm_hproc st) (gm_base_addr st)
          b (resolved_team_base st)
          (team_types st) (team_list st).

Definition set_resolved_team_base (b : option Z) (st : State) : State :=
  mkState (os_win32 st) (os_pid st) (os_handle st) (os_module_base st)
          (os_mem st) (os_writable st) (os_reads st)
          (gm_pid st) (gm_hproc st) (gm_base_addr st)
          (resolved_player_base st) b
          (team_types st) (team_list st).

Definition set_team_types (t : gmap Z Z) (st : State) : State :=
  mkState (os_win32 st) (os_pid st) (os_handle st) (os_module_base st)
          (os_mem st) (os_writable st) (os_reads st)
          (gm_pid st) (gm_hproc st) (gm_base_addr st)
          (resolved_player_base st) (resolved_team_base st)
          t (team_list st).

Definition set_team_list (l : list (Z * pystr)) (st : State) : State :=
  mkState (os_win32 st) (os_pid st) (os_handle st) (os_module_base st)
          (os_mem st) (os_writable st) (os_reads st)
          (gm_pid st) (gm_hproc st) (gm_base_addr st)
          (resolved_player_base st) (resolved_team_base st)
          (team_types st) l.

(** Stateful code that may raise: the state reached is kept when it does. *)
Definition M (A : Type) : Type := State -> res A * State.

#[global] Instance M_ret : MRet M := fun A a st => (Val a, st).
#[global] Instance M_bind : MBind M := fun A B f m st =>
  match m st with
  | (Val a, st') => f a st'
  | (Exc e, st') => (Exc e, st')
  end.

Definition raise {A} (e : exn) : M A := fun st => (Exc e, st).
Definition get_state : M State := fun st => (Val st, st).
Definition modify (f : State -> State) : M unit := fun st => (Val tt, f st).
Definition lift {A} (r : res A) : M A := fun st => (r, st).

(** [try: body / except Exception: handler] *)
Definition try_catch {A} (body handler : M A) : M A := fun st =>
  match body st with
  | (Val a, st') => (Val a, st')
  | (Exc _, st') => handler st'
  end.

(** Truth value of a handle or pid: [None] and [0] are false. *)
Definition truthy (h : option Z) : bool :=
  match h with
  | Some z => negb (z =? 0)
  | None => false
  end.

(** *** GameMemory *)

Definition close : M unit :=
  modify (set_gm None None None).

Definition find_pid : M (option Z) := fun st => (Val (os_pid st), st).

Definition open_process : M bool :=
  st ← get_state;
  if negb (os_win32 st) then close;; mret false
  else
    pid ← find_pid;
    match pid with
    | None => close;; mret false
    | Some p =>
        if bool_decide (gm_pid st = Some p) && truthy (gm_hproc st) then mret true
        else
          close;;
          let handle := os_handle st in
          if negb (truthy handle) then close;; mret false
          else
            match os_module_base st with
            | None => close;; mret false
            | Some base =>
                modify (set_gm (Some p) handle (Some base));; mret true
            end
    end.

Definition _check_open : M unit :=
  st ← get_state;
  match gm_hproc st, gm_base_addr st with
  | Some _, Some _ => mret tt
  | _, _ => raise RuntimeError
  end.

(** A pointer argument keeps the low 64 bits of the Python integer. *)
Definition c_void_p (addr : Z) : Z := addr mod 2 ^ 64.

Fixpoint read_cells (m : gmap Z byte) (a : Z) (n : nat) : option (list byte) :=
  match n with
  | O => Some []
  | S n' =>
      match m !! a, read_cells m (a + 1) n' with
      | Some b, Some bs => Some (b :: bs)
      | _, _ => None
      end
  end.

Fixpoint write_cells (m : gmap Z byte) (a : Z) (bs : list byte) : gmap Z byte :=
  match bs with
  | [] => m
  | b :: bs' => write_cells (<[a := b]> m) (a + 1) bs'
  end.

Fixpoint cells_writable (st : State) (a : Z) (n : nat) : bool :=
  match n with
  | O => true
  | S n' =>
      bool_decide (is_Some (os_mem st !! a)) && os_writable st a
      && cells_writable st (a + 1) n'
  end.

Definition read_bytes (addr length : Z) : M (list byte) :=
  _check_open;;
  if length <? 0 then raise ValueError
  else
    modify (log_read addr length);;
    st ← get_state;
    match read_cells (os_mem st) (c_void_p addr) (Z.to_nat length) with
    | Some bs => mret bs
    | None => raise RuntimeError
    end.

Definition write_bytes (addr : Z) (data : list byte) : M unit :=
  _check_open;;
  st ← get_state;
  if cells_writable st (c_void_p addr) (length data)
  then modify (set_mem (write_cells (os_mem st) (c_void_p addr) data))
  else raise RuntimeError.

Definition read_uint32 (addr : Z) : M Z :=
  data ← read_bytes addr 4;
  mret (from_bytes_little data).

Definition read_uint64 (addr : Z) : M Z :=
  data ← read_bytes addr 8;
  mret (from_bytes_little data).

(** [GameMemory] defines no [read_uint8] and no [read_uint16]: looking the
    attribute up raises [AttributeError] before any memory is touched. *)
Definition read_uint8 (addr : Z) : M Z := raise AttributeError.
Definition read_uint16 (addr : Z) : M Z := raise AttributeError.

Definition read_wstring (addr max_chars : Z) : M pystr :=
  raw ← read_bytes addr (max_chars * 2);
  mret (until_nul (decode_utf16le raw)).

(** ** Configuration constants

    The constants of [Offsets] may be overridden when the module is loaded
    (from the [Base] section of a unified offsets file); the others are
    fixed.  [PLAYER_PTR_CHAINS] is built before the overrides are applied, so
    its third entry keeps the built-in table address. *)

Record Offsets : Type := mkOffsets {
  PLAYER_TABLE_RVA : Z;
  PLAYER_STRIDE : Z;
  OFF_LAST_NAME : Z;
  OFF_FIRST_NAME : Z;
  OFF_FACE_ID : Z;
  OFF_TEAM_PTR : Z;
  OFF_TEAM_NAME : Z;
  NAME_MAX_CHARS : Z
}.

Definition default_offsets : Offsets :=
  mkOffsets 0x07E52998 0x448 0x000 0x028 0x114 0x060 0x2D4 20.

Definition PLAYER_PTR_CHAINS : list (Z * Z * bool) :=
  [ (0x07E39430, 0x18, true);
    (0x06E14E48, 0x148, false);
    (0x07E52998, 0x0, false);
    (0x07E5DD88, 0x0, false) ].

Definition TEAM_STRIDE : Z := 0x1620.
Definition TEAM_NAME_OFFSET : Z := 0x2D4.
Definition TEAM_NAME_LENGTH : Z := 24.
Definition TEAM_TYPE_OFFSET : Z := 0x12F7.
Definition TEAM_YEAR_OFFSET : Z := 0x161A.
Definition MAX_TEAMS_SCAN : Z := 300.

Definition TEAM_PTR_CHAINS : list (Z * Z * bool) :=
  [ (0x07E39430, 0x88, true);
    (0x07E39430, 0x0, false);
    (0x07DFFAC0, 0x0, false) ].

Record Player : Type := mkPlayer {
  index : Z;
  first_name : pystr;
  last_name : pystr;
  team : pystr;
  face_id : Z
}.

(** ** String and label helpers that need no Unicode table *)

(** [Counter(names)] *)
Definition Counter (names : list pystr) : gmap pystr nat :=
  foldl (fun c name => <[name := S (default O (c !! name))]> c) ∅ names.

(** [counts[name]]: a missing key counts as zero. *)
Definition counter_get (c : gmap pystr nat) (name : pystr) : nat :=
  default O (c !! name).

(** [f"{name} [{idx}]"] *)
Definition label (name : pystr) (idx : Z) : pystr :=
  name ++ lit " [" ++ str_of_int idx ++ lit "]".

Definition _dedupe_team_names (pairs : list (Z * pystr)) : list (Z * pystr) :=
  let counts := Counter (map snd pairs) in
  map (fun '(idx, name) =>
         if (1 <? counter_get counts name)%nat
         then (idx, label name idx)
         else (idx, name))
      pairs.

(** [f"{n:02d}"] for [0 <= n < 100]; wider or negative numbers print as
    [str] does. *)
Definition fmt_02d (n : Z) : pystr :=
  if (0 <=? n) && (n <? 10) then lit "0" ++ str_of_int n else str_of_int n.

Definition _format_historic_year (val : Z) : pystr :=
  if val <=? 0 then []
  else
    let start_year := 1899 + val in
    let end_year := start_year + 1 in
    fmt_02d (start_year mod 100) ++ lit "-" ++ fmt_02d (end_year mod 100).

(** The baseline character set of the scan's sanity heuristic. *)
Definition allowed : pystr :=
  lit "abcdefghijklmnopqrstuvwxyzABCDEFGHIJKLMNOPQRSTUVWXYZ -'".

Definition in_allowed (ch : N) : bool := existsb (N.eqb ch) allowed.

(** The heuristic closing [_scan_all_players]: [junk] counts the players whose
    name has a character outside [allowed]; [len(players) * 0.5] is compared
    exactly. *)
Definition sanity_filter (players : list Player) : list Player :=
  match players with
  | [] => players
  | _ =>
      let junk :=
        length (List.filter (fun p => existsb (fun ch => negb (in_allowed ch))
                                              (first_name p ++ last_name p))
                            players) in
      if (Z.of_nat (length players) <? 2 * Z.of_nat junk) then [] else players
  end.


(** ** Values of parsed JSON (offsets_reader)

    A [dict] is the list of its items in insertion order; keys are hashable
    values, pairwise different. *)

#[local] Unset Elimination Schemes.
Inductive pyval : Type :=
  | PNone
  | PBool (b : bool)
  | PInt (z : Z)
  | PFloat (f : float)
  | PStr (s : pystr)
  | PList (l : list pyval)
  | PDict (d : list (pyval * pyval)).
#[local] Set Elimination Schemes.

(** Truth value of an object, as [not x] tests it. *)
Definition py_truthy (v : pyval) : bool :=
  match v with
  | PNone => false
  | PBool b => b
  | PInt z => negb (z =? 0)
  | PFloat f => negb (is_zero f)
  | PStr s => match s with [] => false | _ => true end
  | PList l => match l with [] => false | _ => true end
  | PDict d => match d with [] => false | _ => true end
  end.

(** Lists and dicts cannot be dictionary keys. *)
Definition hashable (v : pyval) : bool :=
  match v with
  | PList _ | PDict _ => false
  | _ => true
  end.

Definition key_num (v : pyval) : option num :=
  match v with
  | PBool b => Some (Int (if b then 1 else 0))
  | PInt z => Some (Int z)
  | PFloat f => Some (Flt f)
  | _ => None
  end.

(** Equality of two keys: strings by content, numbers and booleans by value
    ([True == 1 == 1.0]); the NaN constant of the JSON decoder is one object
    and so finds itself. *)
Definition key_eqb (a b : pyval) : bool :=
  match a, b with
  | PNone, PNone => true
  | PStr s, PStr t => bool_decide (s = t)
  | _, _ =>
      match key_num a, key_num b with
      | Some x, Some y =>
          match ext_compare (ext_of x) (ext_of y) with
          | Some Eq => true
          | Some _ => false
          | None => match ext_of x, ext_of y with
                    | NaN, NaN => true
                    | _, _ => false
                    end
          end
      | _, _ => false
      end
  end.

Fixpoint dict_lookup (d : list (pyval * pyval)) (k : pyval) : option pyval :=
  match d with
  | [] => None
  | (k', v) :: rest => if key_eqb k' k then Some v else dict_lookup rest k
  end.

(** [obj.get(key, default)]: only a dict has the method. *)
Definition py_get (obj : pyval) (key : pystr) (default : pyval) : res pyval :=
  match obj with
  | PDict d => Val (match dict_lookup d (PStr key) with
                    | Some v => v
                    | None => default
                    end)
  | _ => Exc AttributeError
  end.

(** [cat_map.setdefault(key, []).append(entry)] on a dict of lists. *)
Fixpoint setdefault_append (cat_map : list (pyval * list pyval))
                           (key entry : pyval) : list (pyval * list pyval) :=
  match cat_map with
  | [] => [(key, [entry])]
  | (k, entries) :: rest =>
      if key_eqb k key then (k, entries ++ [entry]) :: rest
      else (k, entries) :: setdefault_append rest key entry
  end.

(** [d[key] = value] on a dict with string keys. *)
Fixpoint dict_set (d : list (pystr * pyval)) (key : pystr) (value : pyval)
  : list (pystr * pyval) :=
  match d with
  | [] => [(key, value)]
  | (k, v) :: rest =>
      if bool_decide (k = key) then (k, value) :: rest
      else (k, v) :: dict_set rest key value
  end.

(** [str.lower] on ASCII input. *)
Definition ascii_lower (s : pystr) : pystr :=
  map (fun c => if ((65 <=? c) && (c <=? 90))%N then (c + 32)%N else c) s.

(** ** Sample processes

    Small memories on which the editor is run below. *)

(** An ASCII string as UTF-16LE bytes. *)
Definition utf16 (s : string) : list byte :=
  flat_map (fun a => [byte_of_Z (Z.of_N (N_of_ascii a)); Byte.x00])
           (list_ascii_of_string s).

(** A fixed-width text field: the string, then NULs up to [chars] code units. *)
Definition text_field (s : string) (chars : nat) : list byte :=
  utf16 s ++ repeat Byte.x00 (2 * chars - 2 * String.length s).

(** An attached editor: Windows, the game found under pid 4242 and opened,
    module loaded at [0x140000000], every mapped byte writable. *)
Definition MODULE_BASE : Z := 0x140000000.

Definition attached (mem : gmap Z byte) (player_base team_base : option Z) : State :=
  mkState true (Some 4242) (Some 77) (Some MODULE_BASE) mem (fun _ => true) []
          (Some 4242) (Some 77) (Some MODULE_BASE)
          player_base team_base ∅ [].

(** A player record at [addr] in the default layout: the two names, the
    face id, the team pointer and eight zeroed bytes of attributes at
    [0x120]; the other bytes of the record are not mapped. *)
Definition player_record (addr : Z) (first last : string) (face team_ptr : Z)
           (m : gmap Z byte) : gmap Z byte :=
  write_cells
    (write_cells
       (write_cells
          (write_cells
             (write_cells m (addr + 0x120) (repeat Byte.x00 8))
             (addr + 0x000) (text_field last 20))
          (addr + 0x028) (text_field first 20))
       (addr + 0x114) (bytes_little face 4))
    (addr + 0x060) (bytes_little team_ptr 8).

(** A team record at [addr]: its name and its era word. *)
Definition team_record (addr : Z) (name : string) (era : Z)
           (m : gmap Z byte) : gmap Z byte :=
  write_cells
    (write_cells m (addr + 0x2D4) (text_field name 24))
    (addr + 0x161A) (bytes_little (Z.shiftl era 3) 2).

(** Three players at [0x10000], one team at [0x30000]; only the third player
    chain and the third team chain lead to them. *)
Definition sample_mem : gmap Z byte :=
  write_cells
    (write_cells
       (team_record 0x30000 "Bulls" 97
          (player_record (0x10000 + 2 * 0x448) "Bob" "Brown" 44 0
             (player_record (0x10000 + 1 * 0x448) "Al2" "Jones" 43 0x30000
                (player_record 0x10000 "Jo1" "Smith" 42 0 ∅))))
       (MODULE_BASE + 0x07E52998) (bytes_little 0x10000 8))
    (MODULE_BASE + 0x07DFFAC0) (bytes_little 0x30000 8).

Definition sample_state : State := attached sample_mem None None.

(** The same process once the player table has been resolved. *)
Definition sample_state_resolved : State := attached sample_mem (Some 0x10000) None.

(** A process none of whose addresses can be read. *)
Definition unreadable_state : State := attached ∅ None None.

(** A process whose only mapped bytes are a team record placed at the module
    base plus [0x07DFFAC0] itself: no pointer leads to it. *)
Definition static_team_state : State :=
  attached (team_record (MODULE_BASE + 0x07DFFAC0) "Bulls" 0 ∅) None None.

(** An editor that found no process. *)
Definition detached_state : State :=
  mkState true None None None ∅ (fun _ => true) [] None None None None None ∅ [].

(** Candidates that fail one after the other: the state they leave, if each
    of them is rejected. *)
Fixpoint after_failed (attempt : Z * Z * bool -> M (option Z))
                      (chains : list (Z * Z * bool)) (st : State) : option State :=
  match chains with
  | [] => Some st
  | c :: rest =>
      match try_catch (attempt c) (mret None) st with
      | (Val None, st1) => after_failed attempt rest st1
      | _ => None
      end
  end.

From Stdlib Require Import Sorted.
From Stdlib Require Import QArith Qpower Lqa Qabs.
Close Scope Q_scope.
Local Open Scope Z_scope.
Import PyNum.

(** ** More of the rating codec *)

Definition convert_rating_to_tendency_raw (rating : num) (length : Z) : res Z :=
  try_except
    (p ← py_lshift 1 length;
     let max_raw := p - 1 in
     if max_raw <=? 0 then Val 0
     else
       r ← to_float rating;
       let r :=
         if py_lt (Flt r) (Flt (S754_zero false)) then S754_zero false
         else if py_gt (Flt r) (Flt f100) then f100
         else r in
       fraction ← py_truediv (Flt r) (Flt f100);
       let fraction :=
         if py_lt fraction (Flt (S754_zero false)) then Flt (S754_zero false)
         else if py_gt fraction (Flt (SFone prec emax)) then Flt (SFone prec emax)
         else fraction in
       m ← py_mul fraction (Int max_raw);
       raw_val ← py_round m;
       Val (if raw_val <? 0 then 0
            else if max_raw <? raw_val then max_raw
            else raw_val))
    (Val 0).

Definition clamp_tendency (r : Z) : Z := Z.max 0 (Z.min 100 r).

(** Encoding the rating [r] and decoding the result gives [r] back. *)
Definition check_rating_exact (length r : Z) : bool :=
  match convert_rating_to_raw (Int r) length with
  | Val raw =>
      (0 <=? raw) && (raw <? 2 ^ length)
      && match convert_raw_to_rating raw length with
         | Val r' => r' =? r
         | Exc _ => false
         end
  | Exc _ => false
  end.

Definition check_tendency_exact (length r : Z) : bool :=
  match convert_rating_to_tendency_raw (Int r) length with
  | Val raw =>
      (0 <=? raw) && (raw <? 2 ^ length)
      && match convert_tendency_raw_to_rating raw length with
         | Val r' => r' =? r
         | Exc _ => false
         end
  | Exc _ => false
  end.

(** Decoding the raw value and encoding the result gives the raw value back,
    for both codecs. *)
Definition check_raw_exact (length raw : Z) : bool :=
  match convert_raw_to_rating raw length, convert_tendency_raw_to_rating raw length with
  | Val r, Val t =>
      match convert_rating_to_raw (Int r) length,
            convert_rating_to_tendency_raw (Int t) length with
      | Val raw1, Val raw2 => (raw1 =? raw) && (raw2 =? raw)
      | _, _ => false
      end
  | _, _ => false
  end.

(** ** Exact values of numbers, as rationals *)

(** The dyadic number [n * 2^e]. *)
Definition Qdy (d : dyadic) : Q := (inject_Z (fst d) * 2 ^ snd d)%Q.

(** The value of a finite float; 0 for the others. *)
Definition Qval (f : float) : Q :=
  match finite_value f with
  | Some d => Qdy d
  | None => 0%Q
  end.




(** The relative error of one rounding to 53 bits, and the absolute error
    of a rounding among the subnormal numbers. *)
Definition ulp_rel : Q := (2 ^ (-52))%Q.
Definition eta : Q := (2 ^ (-1074))%Q.

(** [v] is [x >= 0] up to one rounding. *)
Definition rounds_to (x v : Q) : Prop :=
  (x - (ulp_rel * x + eta) <= v /\ v <= x + (ulp_rel * x + eta))%Q.





(** The binary64 numbers 87.25, 27.015625 and 26.375. *)
Definition f87_25 : float := S754_finite false 6139672929501184 (-46).
Definition f27_015625 : float := S754_finite false 7604222417698816 (-48).
Definition f26_375 : float := S754_finite false 7423902510743552 (-48).

(** ** More of GameMemory *)

(** [struct.pack("<I", value & 0xFFFFFFFF)] then [write_bytes]. *)
Definition write_uint32 (addr value : Z) : M unit :=
  write_bytes addr (bytes_little (Z.land value 0xFFFFFFFF) 4).

(** [s[:stop]]: a negative [stop] counts from the end. *)
Definition py_slice_to {A} (s : list A) (stop : Z) : list A :=
  take (Z.to_nat (if stop <? 0 then Z.of_nat (length s) + stop else stop)) s.

(** The UTF-16 code units of one code point; a surrogate cannot be encoded
    ([UnicodeEncodeError], which is a [ValueError]). *)
Definition utf16_units (c : N) : res (list Z) :=
  let z := Z.of_N c in
  if is_high_surrogate z || is_low_surrogate z then Exc ValueError
  else if z <? 0x10000 then Val [z]
  else Val [0xD800 + Z.shiftr (z - 0x10000) 10; 0xDC00 + Z.land (z - 0x10000) 0x3FF].

Fixpoint encode_units (s : pystr) : res (list Z) :=
  match s with
  | [] => Val []
  | c :: rest =>
      us ← utf16_units c;
      more ← encode_units rest;
      Val (us ++ more)
  end.

Definition unit_bytes (u : Z) : list byte := [byte_of_Z u; byte_of_Z (u / 256)].

(** [s.encode("utf-16le")] *)
Definition encode_utf16le (s : pystr) : res (list byte) :=
  us ← encode_units s;
  Val (flat_map unit_bytes us).

(** [data.ljust(width, fill)] *)
Definition ljust (data : list byte) (width : Z) (fill : byte) : list byte :=
  data ++ repeat fill (Z.to_nat width - length data).

Definition write_wstring_fixed (addr : Z) (value : pystr) (max_chars : Z) : M unit :=
  let value := py_slice_to value (max_chars - 1) in
  encoded ← lift (encode_utf16le value);
  let encoded := encoded ++ [Byte.x00; Byte.x00] in
  let padded := ljust encoded (max_chars * 2) Byte.x00 in
  write_bytes addr padded.

(** A character of the Basic Multilingual Plane that is no surrogate: it
    takes one UTF-16 code unit. *)
Definition one_unit (c : N) : bool :=
  let z := Z.of_N c in
  (z <? 0x10000) && negb (is_high_surrogate z) && negb (is_low_surrogate z).

(** A character outside the Basic Multilingual Plane: it takes two. *)
Definition astral (c : N) : bool := 0x10000 <=? Z.of_N c.

(** The three attributes of [GameMemory] are set together and reset
    together: either none is set, or all are and the handle is not null. *)
Definition gm_consistent (st : State) : Prop :=
  match gm_pid st, gm_hproc st, gm_base_addr st with
  | None, None, None => True
  | Some _, Some h, Some _ => h <> 0
  | _, _, _ => False
  end.

(** ** More constants *)

Definition TEAM_RECORD_SIZE : Z := TEAM_STRIDE.

(** [TEAM_FIELDS], in the order of the dictionary: label, offset in the team
    record, number of UTF-16 characters. *)
Definition TEAM_FIELDS : list (pystr * (Z * Z)) :=
  [ (lit "Team Name", (0x2D4, 24));
    (lit "City Name", (0x306, 24));
    (lit "City Short Name", (0x32A, 8));
    (lit "State Short Name", (0x338, 8));
    (lit "Arena Name", (0x158, 36)) ].

Definition OFF_APPEARANCE : Z := 0x078.
Definition LEN_APPEARANCE : Z := 51.
Definition OFF_ATTRIBUTES : Z := 0x392.
Definition LEN_ATTRIBUTES : Z := 53.
Definition OFF_TENDENCIES : Z := 0x3C8.
Definition LEN_TENDENCIES : Z := 99.
Definition OFF_BADGES : Z := 0x42A.
Definition LEN_BADGES : Z := 19.

(** ** More string helpers *)

Fixpoint lstrip_nul (s : pystr) : pystr :=
  match s with
  | [] => []
  | c :: rest => if (c =? 0)%N then lstrip_nul rest else s
  end.

(** [s.rstrip("\x00")] *)
Definition rstrip_nul (s : pystr) : pystr := rev (lstrip_nul (rev s)).

(** [s.startswith(prefix)] *)
Fixpoint starts_with (prefix s : pystr) : bool :=
  match prefix, s with
  | [], _ => true
  | p :: ps, c :: cs => (p =? c)%N && starts_with ps cs
  | _ :: _, [] => false
  end.

(** [needle in hay] *)
Fixpoint contains (needle hay : pystr) : bool :=
  starts_with needle hay
  || match hay with
     | [] => false
     | _ :: rest => contains needle rest
     end.

(** [values[label]] when [label in values], for a dict from [str] to [str]. *)
Fixpoint values_get (values : list (pystr * pystr)) (label : pystr) : option pystr :=
  match values with
  | [] => None
  | (k, v) :: rest => if bool_decide (k = label) then Some v else values_get rest label
  end.

(** The bytes of a field of [max_chars] characters that holds [value]: the
    first [max_chars - 1] characters, one code unit each, then NULs. *)
Definition field_bytes (value : pystr) (max_chars : Z) : list byte :=
  let kept := take (Z.to_nat (max_chars - 1)) value in
  flat_map unit_bytes (map Z.of_N kept)
  ++ repeat Byte.x00 (2 * (Z.to_nat max_chars - length kept)).

(** ** More sample processes *)

(** The sample process with the city and state fields of its team record
    mapped and zeroed; the team table has not been resolved yet. *)
Definition team_edit_state : State :=
  attached (write_cells sample_mem (0x30000 + 0x306) (repeat Byte.x00 0x42))
           (Some 0x10000) None.

(** The sample process with the badge blocks of its first two players
    mapped: nineteen bytes counting up from 1 for the first player, zeroes
    for the second; the player table has not been resolved yet. *)
Definition copy_state : State :=
  attached
    (write_cells
       (write_cells sample_mem (0x10000 + 0x42A)
          (map (fun i => byte_of_Z (Z.of_nat i)) (seq 1 19)))
       (0x10000 + 0x448 + 0x42A) (repeat Byte.x00 19))
    None None.

(** The list of players that goes with the sample process, as a scan of its
    three slots leaves it. *)
Definition three_players : list Player :=
  [ mkPlayer 0 (lit "Jo1") (lit "Smith") (lit "Unknown") 42;
    mkPlayer 1 (lit "Al2") (lit "Jones") (lit "Bulls") 43;
    mkPlayer 2 (lit "Bob") (lit "Brown") (lit "Unknown") 44 ].

(** ** PlayerDataModel

    The editor is stated over the Unicode tables behind [str.strip],
    [str.isprintable], [str.isalpha] and [str.lower], and over the configured
    offsets. *)

Section Model.

Variables isspace isprintable isalpha : N -> bool.
Variable lower : pystr -> pystr.
Variable cfg : Offsets.

Fixpoint lstrip (s : pystr) : pystr :=
  match s with
  | [] => []
  | c :: rest => if isspace c then lstrip rest else s
  end.

(** [s.strip()] *)
Definition strip (s : pystr) : pystr := rev (lstrip (rev (lstrip s))).

Definition _is_printable_ascii (s : pystr) (min_len max_len : Z) : bool :=
  match s with
  | [] => false
  | _ =>
      let s := strip s in
      if negb ((min_len <=? Z.of_nat (length s)) && (Z.of_nat (length s) <=? max_len))
      then false
      else if negb (forallb isprintable s) then false
      else
        let letters := length (List.filter isalpha s) in
        (2 <=? letters)%nat
  end.

Definition _compose_team_name_from_ptr (team_ptr : Z) : M pystr :=
  base_name ←
    try_catch
      (s ← read_wstring (team_ptr + OFF_TEAM_NAME cfg) TEAM_NAME_LENGTH;
       mret (strip s))
      (mret []);
  let name := base_name in
  year_val ←
    try_catch
      (raw_year ← read_uint16 (team_ptr + TEAM_YEAR_OFFSET);
       mret (Z.land (Z.shiftr raw_year 3) 0x7F))
      (mret 0);
  let name :=
    if 0 <? year_val then
      let year_str := _format_historic_year year_val in
      match year_str with
      | [] => name
      | _ => name ++ lit " " ++ year_str
      end
    else name in
  mret (if _is_printable_ascii name 2 48 then name else lit "Unknown").

(** *** Pointer resolution *)

(** [for c in chains: try: <attempt c> except Exception: continue]: an
    attempt yields [Some base] when it returns from inside the loop, [None]
    when it falls through to the next candidate. *)
Fixpoint for_chains (attempt : Z * Z * bool -> M (option Z))
                    (chains : list (Z * Z * bool)) : M (option Z) :=
  match chains with
  | [] => mret None
  | c :: rest =>
      r ← try_catch (attempt c) (mret None);
      match r with
      | Some b => mret (Some b)
      | None => for_chains attempt rest
      end
  end.

(** The sanity check of the player table: one of the two names of the first
    record is not empty. *)
Definition validate_player_base (table_base : Z) : M bool :=
  ln ← (s ← read_wstring (table_base + OFF_LAST_NAME cfg) (NAME_MAX_CHARS cfg);
        mret (strip s));
  fn ← (s ← read_wstring (table_base + OFF_FIRST_NAME cfg) (NAME_MAX_CHARS cfg);
        mret (strip s));
  mret (match ln, fn with [], [] => false | _, _ => true end).

Definition player_chain_attempt (base_addr : Z) (c : Z * Z * bool) : M (option Z) :=
  let '(rva_off, final_off, extra_deref) := c in
  let p0_addr := base_addr + rva_off in
  p ← read_uint64 p0_addr;
  p ← (if extra_deref then read_uint64 p else mret p);
  let table_base := p + final_off in
  ok ← validate_player_base table_base;
  (if (ok : bool) then
     modify (set_resolved_player_base (Some table_base));;
     mret (Some table_base)
   else mret None) : M (option Z).

Definition _resolve_player_table_base : M (option Z) :=
  st ← get_state;
  match resolved_player_base st with
  | Some b => mret (Some b)
  | None =>
      match gm_base_addr st with
      | Some base_addr =>
          if negb (truthy (gm_hproc st)) then mret None
          else
            r ← for_chains (player_chain_attempt base_addr) PLAYER_PTR_CHAINS;
            match r with
            | Some b => mret (Some b)
            | None =>
                try_catch
                  (let fallback_addr := base_addr + PLAYER_TABLE_RVA cfg in
                   ok ← validate_player_base fallback_addr;
                   (if (ok : bool) then
                      modify (set_resolved_player_base (Some fallback_addr));;
                      mret (Some fallback_addr)
                    else mret None) : M (option Z))
                  (mret None)
            end
      | None => mret None
      end
  end.

(** The sanity check of the team table: the first name is not empty,
    printable and has two letters. *)
Definition validate_team_base (team_base : Z) : M bool :=
  name ← (s ← read_wstring (team_base + TEAM_NAME_OFFSET) TEAM_NAME_LENGTH;
          mret (strip s));
  mret (match name with
        | [] => false
        | _ => forallb isprintable name
               && (2 <=? length (List.filter isalpha name))%nat
        end).

Definition team_chain_attempt (base_addr : Z) (c : Z * Z * bool) : M (option Z) :=
  let '(rva_off, final_off, extra_deref) := c in
  let p0_addr := base_addr + rva_off in
  p ← read_uint64 p0_addr;
  p ← (if extra_deref then read_uint64 p else mret p);
  let team_base := p + final_off in
  ok ← validate_team_base team_base;
  (if (ok : bool) then
     modify (set_resolved_team_base (Some team_base));;
     mret (Some team_base)
   else mret None) : M (option Z).

Definition _resolve_team_base_ptr : M (option Z) :=
  st ← get_state;
  match resolved_team_base st with
  | Some b => mret (Some b)
  | None =>
      match gm_base_addr st with
      | Some base_addr =>
          if negb (truthy (gm_hproc st)) then mret None
          else for_chains (team_chain_attempt base_addr) TEAM_PTR_CHAINS
      | None => mret None
      end
  end.

(** *** Scanning *)

(** The body of the loop of [_scan_team_names] for one slot: the accepted
    (slot, name) pair, if any. *)
Definition scan_team_slot (base team_idx : Z) : M (option (Z * pystr)) :=
  raw ←
    try_catch
      (s ← read_wstring (base + team_idx * TEAM_STRIDE + TEAM_NAME_OFFSET)
                        TEAM_NAME_LENGTH;
       mret (strip s))
      (mret []);
  let name := raw in
  t_val ←
    try_catch
      (t_byte ← read_uint8 (base + team_idx * TEAM_STRIDE + TEAM_TYPE_OFFSET);
       mret (Z.land (Z.shiftr t_byte 2) 0x1F))
      (mret 0);
  st ← get_state;
  modify (set_team_types (<[team_idx := t_val]> (team_types st)));;
  year_val ←
    try_catch
      (year_raw ← read_uint16 (base + team_idx * TEAM_STRIDE + TEAM_YEAR_OFFSET);
       mret (Z.land (Z.shiftr year_raw 3) 0x7F))
      (mret 0);
  let name :=
    if 0 <? year_val then
      let year_str := _format_historic_year year_val in
      match year_str with
      | [] => name
      | _ => name ++ lit " " ++ year_str
      end
    else name in
  mret (if _is_printable_ascii name 2 48 then Some (team_idx, name) else None).

Fixpoint scan_team_slots (base : Z) (idxs : list Z) : M (list (Z * pystr)) :=
  match idxs with
  | [] => mret []
  | i :: rest =>
      r ← scan_team_slot base i;
      results ← scan_team_slots base rest;
      mret (match r with Some p => p :: results | None => results end)
  end.

Definition _scan_team_names : M (list (Z * pystr)) :=
  st ← get_state;
  if negb (truthy (gm_hproc st)) || bool_decide (gm_base_addr st = None)
  then mret []
  else
    base ← _resolve_team_base_ptr;
    match base with
    | None => mret []
    | Some base =>
        modify (set_team_types ∅);;
        results ← scan_team_slots base (seqZ 0 MAX_TEAMS_SCAN);
        let results := _dedupe_team_names results in
        modify (set_team_list results);;
        mret results
    end.

(** The body of the loop of [_scan_all_players] for one slot. *)
Definition scan_player_slot (table_base i : Z) : M (option Player) :=
  let p_addr := table_base + i * PLAYER_STRIDE cfg in
  names ←
    try_catch
      (last_name ← (s ← read_wstring (p_addr + OFF_LAST_NAME cfg) (NAME_MAX_CHARS cfg);
                    mret (strip s));
       first_name ← (s ← read_wstring (p_addr + OFF_FIRST_NAME cfg) (NAME_MAX_CHARS cfg);
                     mret (strip s));
       face_id ← read_uint32 (p_addr + OFF_FACE_ID cfg);
       mret (Some (last_name, first_name, face_id)))
      (mret None);
  match names with
  | None => mret None
  | Some ([], [], _) => mret None
  | Some (last_name, first_name, face_id) =>
      team_name ←
        try_catch
          (team_ptr ← read_uint64 (p_addr + OFF_TEAM_PTR cfg);
           if team_ptr =? 0 then mret (lit "Free Agents")
           else _compose_team_name_from_ptr team_ptr)
          (mret (lit "Unknown"));
      mret (Some (mkPlayer i first_name last_name team_name face_id))
  end.

Fixpoint scan_player_slots (table_base : Z) (idxs : list Z) : M (list Player) :=
  match idxs with
  | [] => mret []
  | i :: rest =>
      r ← scan_player_slot table_base i;
      players ← scan_player_slots table_base rest;
      mret (match r with Some p => p :: players | None => players end)
  end.

Definition _scan_all_players (max_scan : Z) : M (list Player) :=
  st ← get_state;
  if negb (truthy (gm_hproc st)) || bool_decide (gm_base_addr st = None)
  then mret []
  else
    table_base ← _resolve_player_table_base;
    match table_base with
    | None => mret []
    | Some table_base =>
        players ← scan_player_slots table_base (seqZ 0 max_scan);
        mret (sanity_filter players)
    end.

(** *** Low-level field access *)

Definition get_field_value (player_index offset start_bit length : Z) : M (option Z) :=
  try_catch
    (opened ← open_process;
     if negb opened then mret None
     else
       base ← _resolve_player_table_base;
       match base with
       | None => mret None
       | Some base =>
           let addr := base + player_index * PLAYER_STRIDE cfg + offset in
           let bits_needed := start_bit + length in
           let bytes_needed := (bits_needed + 7) / 8 in
           raw ← read_bytes addr bytes_needed;
           let val := from_bytes_little raw in
           val ← lift (py_rshift val start_bit);
           p ← lift (py_lshift 1 length);
           let mask := p - 1 in
           mret (Some (Z.land val mask))
       end)
    (mret None).

Definition set_field_value (player_index offset start_bit length value : Z) : M bool :=
  try_catch
    (opened ← open_process;
     if negb opened then mret false
     else
       base ← _resolve_player_table_base;
       match base with
       | None => mret false
       | Some base =>
           p ← lift (py_lshift 1 length);
           let max_val := p - 1 in
           let value := Z.max 0 (Z.min max_val value) in
           let addr := base + player_index * PLAYER_STRIDE cfg + offset in
           let bits_needed := start_bit + length in
           let bytes_needed := (bits_needed + 7) / 8 in
           data ← read_bytes addr bytes_needed;
           let current := from_bytes_little data in
           p ← lift (py_lshift 1 length);
           mask ← lift (py_lshift (p - 1) start_bit);
           let current := Z.land current (Z.lnot mask) in
           v ← lift (py_lshift value start_bit);
           let current := Z.lor current (Z.land v mask) in
           new_bytes ← lift (to_bytes_little current bytes_needed);
           write_bytes addr new_bytes;;
           mret true
       end)
    (mret false).

(** ** offsets_reader.restructure *)

(** The body of the inner loop for one field: the category map after it. *)
Definition restructure_field (cat_map : list (pyval * list pyval)) (field : pyval)
  : res (list (pyval * list pyval)) :=
  offset_hex ← py_get field (lit "offset") PNone;
  if negb (py_truthy offset_hex) then Val cat_map
  else
    start_bit ← py_get field (lit "startBit") (PInt 0);
    length ← py_get field (lit "length") PNone;
    name ← py_get field (lit "name") PNone;
    let entry := PDict [ (PStr (lit "name"), name);
                         (PStr (lit "length"), length);
                         (PStr (lit "startBit"), start_bit) ] in
    if hashable offset_hex then Val (setdefault_append cat_map offset_hex entry)
    else Exc TypeError.

Fixpoint restructure_fields (cat_map : list (pyval * list pyval))
                            (fields : list pyval)
  : res (list (pyval * list pyval)) :=
  match fields with
  | [] => Val cat_map
  | field :: rest =>
      cat_map' ← restructure_field cat_map field;
      restructure_fields cat_map' rest
  end.

Definition as_dict (cat_map : list (pyval * list pyval)) : pyval :=
  PDict (map (fun '(k, entries) => (k, PList entries)) cat_map).

Fixpoint restructure_items (restructured : list (pystr * pyval))
                           (items : list (pystr * pyval))
  : res (list (pystr * pyval)) :=
  match items with
  | [] => Val restructured
  | (key, value) :: rest =>
      if bool_decide (lower key = lit "base")
      then restructure_items (dict_set restructured key value) rest
      else
        match value with
        | PList fields =>
            cat_map ← restructure_fields [] fields;
            restructure_items (dict_set restructured key (as_dict cat_map)) rest
        | _ => restructure_items (dict_set restructured key value) rest
        end
  end.

Definition restructure (offsets : list (pystr * pyval)) : res (list (pystr * pyval)) :=
  restructure_items [] offsets.

(** * Vocabulary of the statements *)

(** ** Codec *)

(** The integer [k] seen as a dyadic number with a nonpositive exponent. *)
Definition int_dyadic (d : dyadic) (k : Z) : Prop :=
  snd d <= 0 /\ fst d = k * 2 ^ (- snd d).

(** A bound of a clamp: a number whose exact value is the integer [k] and
    that [round] maps to [k]. *)
Definition int_valued (b : num) (k : Z) : Prop :=
  py_round b = Val k /\ exists d, ext_of b = Fin d /\ int_dyadic d k.

Definition clamp_rating (r : Z) : Z := Z.max RATING_MIN (Z.min RATING_MAX_TRUE r).



(** [r] is a nearest integer to the dyadic [d], and the even one when [d] is
    halfway between two integers. *)
Definition nearest_ties_even (d : dyadic) (r : Z) : Prop :=
  let '(n, e) := d in
  if 0 <=? e then r = n * 2 ^ e
  else 2 * Z.abs (r * 2 ^ (- e) - n) <= 2 ^ (- e) /\
       (2 * Z.abs (r * 2 ^ (- e) - n) = 2 ^ (- e) -> Z.even r = true).

(** The reading of the design document: the decoder returns the value it
    computed, rounded half up. *)
Definition rounds_half_up (decode : Z -> Z -> res Z) (value : Z -> Z -> res num)
  (raw length : Z) : Prop :=
  forall v d, value raw length = Val v -> ext_of v = Fin d ->
              decode raw length = Val (round_half_up d).

(** Both decoders agree with half-up rounding on [raw] and [length]. *)
Definition check_half_up (length raw : Z) : bool :=
  match convert_raw_to_rating_value raw length, convert_tendency_raw_to_rating_value raw length with
  | Val v1, Val v2 =>
      match ext_of v1, ext_of v2 with
      | Fin d1, Fin d2 =>
          match convert_raw_to_rating raw length, convert_tendency_raw_to_rating raw length with
          | Val r1, Val r2 => (r1 =? round_half_up d1) && (r2 =? round_half_up d2)
          | _, _ => false
          end
      | _, _ => false
      end
  | _, _ => false
  end.

(** ** Deduplication of team names *)

(** Number of slots carrying [name]. *)
Definition occurrences (name : pystr) (pairs : list (Z * pystr)) : nat :=
  length (filter (fun x => x = name) (map snd pairs)).

(** No name held by a single slot already reads as the label of a name held
    by several. *)
Definition no_clash (pairs : list (Z * pystr)) : bool :=
  forallb (fun '(i, n) =>
    forallb (fun '(j, m) =>
      negb ((occurrences n pairs <=? 1)%nat && (1 <? occurrences m pairs)%nat
            && bool_decide (n = label m j)))
      pairs)
    pairs.

Definition bracket_free (s : string) : Prop :=
  Forall (fun a => a <> "["%char) (list_ascii_of_string s).

Definition dedupe_sample : list (Z * pystr) :=
  [ (5, lit "Classic Team"); (12, lit "Classic Team"); (30, lit "Hawks") ].

Definition dedupe_clash : list (Z * pystr) :=
  [ (5, lit "Classic Team"); (7, lit "Classic Team [5]"); (12, lit "Classic Team") ].

(** ** restructure *)

(** The value under ["offset"] of a field dictionary. *)
Definition field_offset (field : pyval) : option pyval :=
  match field with
  | PDict d => dict_lookup d (PStr (lit "offset"))
  | _ => None
  end.

(** A field definition as the offsets file has them: a dictionary whose
    offset is missing, false, or a string. *)
Definition field_ok (field : pyval) : bool :=
  match field with
  | PDict d =>
      match dict_lookup d (PStr (lit "offset")) with
      | None => true
      | Some (PStr _) => true
      | Some v => negb (py_truthy v)
      end
  | _ => false
  end.

Definition offset_is (o : pystr) (field : pyval) : bool :=
  match field_offset field with
  | Some (PStr s) => bool_decide (s = o)
  | _ => false
  end.

(** The entry that restructure stores for a field dictionary. *)
Definition entry_of (field : pyval) : pyval :=
  match field with
  | PDict d =>
      PDict [ (PStr (lit "name"),
               match dict_lookup d (PStr (lit "name")) with Some v => v | None => PNone end);
              (PStr (lit "length"),
               match dict_lookup d (PStr (lit "length")) with Some v => v | None => PNone end);
              (PStr (lit "startBit"),
               match dict_lookup d (PStr (lit "startBit")) with Some v => v | None => PInt 0 end) ]
  | _ => PNone
  end.

(** The entries of the fields at offset [o], in the order of the fields. *)
Definition entries_at (o : pystr) (fields : list pyval) : list pyval :=
  map entry_of (List.filter (offset_is o) fields).

Fixpoint cat_lookup (cat_map : list (pyval * list pyval)) (k : pyval)
  : option (list pyval) :=
  match cat_map with
  | [] => None
  | (k', v) :: rest => if key_eqb k' k then Some v else cat_lookup rest k
  end.

(** [cat_map] groups [fields] by offset: under each non-empty offset string
    the entries of the fields at that offset, in order, and nothing else. *)
Definition category_grouped (fields : list pyval)
           (cat_map : list (pyval * list pyval)) : Prop :=
  (forall o, o <> [] ->
     cat_lookup cat_map (PStr o)
     = match entries_at o fields with [] => None | es => Some es end) /\
  (forall k es, (k, es) ∈ cat_map -> exists o, k = PStr o /\ o <> []).

Definition restructured_item (lower : pystr -> pystr)
           (item out_item : pystr * pyval) : Prop :=
  fst out_item = fst item /\
  if bool_decide (lower (fst item) = lit "base") then snd out_item = snd item
  else match snd item with
       | PList fields =>
           exists cat_map, snd out_item = as_dict cat_map /\ category_grouped fields cat_map
       | v => snd out_item = v
       end.

Definition well_formed (lower : pystr -> pystr) (offsets : list (pystr * pyval)) : bool :=
  forallb (fun '(key, value) =>
             bool_decide (lower key = lit "base")
             || match value with
                | PList fields => forallb field_ok fields
                | _ => true
                end)
          offsets.

Definition field (name : string) (offset : pyval) (start_bit length : Z) : pyval :=
  PDict [ (PStr (lit "name"), PStr (lit name)); (PStr (lit "offset"), offset);
          (PStr (lit "startBit"), PInt start_bit); (PStr (lit "length"), PInt length) ].

Definition offsets_sample : list (pystr * pyval) :=
  [ (lit "Base", PDict [ (PStr (lit "Player Base Address"), PStr (lit "0x7E52998")) ]);
    (lit "Attributes",
     PList [ field "Pass Accuracy" (PStr (lit "0x39B")) 0 8;
             field "Hidden" PNone 0 8;
             field "Ball Control" (PStr (lit "0x39C")) 0 4;
             field "Hands" (PStr (lit "0x39B")) 4 4;
             PDict [ (PStr (lit "name"), PStr (lit "No Offset")) ] ]);
    (lit "Version", PInt 4) ].

Definition entry (name : string) (start_bit length : Z) : pyval :=
  PDict [ (PStr (lit "name"), PStr (lit name)); (PStr (lit "length"), PInt length);
          (PStr (lit "startBit"), PInt start_bit) ].

(** ** Process memory *)

(** Bit [k] of the byte at address [a], if the address is mapped. *)
Definition bit_at (m : gmap Z byte) (a k : Z) : option bool :=
  (fun b => Z.testbit (byte_val b) k) <$> m !! a.

(** The two states show the same process through the same handle: they may
    differ in the read log and in the attributes of the model. *)
Definition same_process (st st' : State) : Prop :=
  os_win32 st' = os_win32 st /\ os_pid st' = os_pid st /\
  os_handle st' = os_handle st /\ os_module_base st' = os_module_base st /\
  os_mem st' = os_mem st /\ os_writable st' = os_writable st /\
  gm_pid st' = gm_pid st /\ gm_hproc st' = gm_hproc st /\
  gm_base_addr st' = gm_base_addr st.

Definition preserving {A} (m : M A) : Prop :=
  forall st r st', m st = (r, st') -> same_process st st'.

(** The editor holds an open handle on the process that the system finds. *)
Definition attached_ok (st : State) : Prop :=
  os_win32 st = true /\
  exists p, os_pid st = Some p /\ gm_pid st = Some p /\ truthy (gm_hproc st) = true.

(** ** Player scan *)

(** The name of the record has a character outside the baseline set. *)
Definition name_has_junk (p : Player) : Prop :=
  Exists (fun ch => ch ∉ allowed) (first_name p ++ last_name p).

#[global] Instance name_has_junk_dec p : Decision (name_has_junk p).
Proof. unfold name_has_junk. apply _. Defined.

Definition junk_records (players : list Player) : nat :=
  length (filter name_has_junk players).

(** The reading of the design document: characters are counted, over all the
    accepted records. *)
Definition name_chars (players : list Player) : pystr :=
  flat_map (fun p => first_name p ++ last_name p) players.

Definition junk_chars (players : list Player) : nat :=
  length (filter (fun ch => ch ∉ allowed) (name_chars players)).

Definition rejects_by_characters (players : list Player) : list Player :=
  if decide (length (name_chars players) < 2 * junk_chars players)%nat
  then [] else players.


(** ** More vocabulary: restructure *)

(** A field that [restructure] gets through: a dictionary whose offset is
    missing, false, or can be a dictionary key. *)
Definition field_accepted (field : pyval) : bool :=
  match field with
  | PDict d =>
      match dict_lookup d (PStr (lit "offset")) with
      | None => true
      | Some v => negb (py_truthy v) || hashable v
      end
  | _ => false
  end.

Definition accepted (offsets : list (pystr * pyval)) : bool :=
  forallb (fun '(key, value) =>
             bool_decide (lower key = lit "base")
             || match value with
                | PList fields => forallb field_accepted fields
                | _ => true
                end)
          offsets.

(** An item that [restructure] copies as it is. *)
Definition settled (item : pystr * pyval) : Prop :=
  lower (fst item) = lit "base" \/ match snd item with PList _ => False | _ => True end.

(** ** More of PlayerDataModel *)

(** *** Writing a player back *)

Definition update_player (player : Player) : M unit :=
  st ← get_state;
  if negb (truthy (gm_hproc st)) || bool_decide (gm_base_addr st = None)
  then mret tt
  else
    table_base ← _resolve_player_table_base;
    match table_base with
    | None => mret tt
    | Some table_base =>
        let p_addr := table_base + index player * PLAYER_STRIDE cfg in
        write_wstring_fixed (p_addr + OFF_LAST_NAME cfg) (last_name player)
                            (NAME_MAX_CHARS cfg);;
        write_wstring_fixed (p_addr + OFF_FIRST_NAME cfg) (first_name player)
                            (NAME_MAX_CHARS cfg);;
        write_uint32 (p_addr + OFF_FACE_ID cfg) (face_id player)
    end.

(** *** Bulk copy *)

(** [data = read_bytes(src, len); write_bytes(dst, data)] *)
Definition copy_block (src dst len : Z) : M unit :=
  data ← read_bytes src len;
  write_bytes dst data.

(** The loop over [categories]; names that are not known are skipped. *)
Fixpoint copy_categories (src_addr dst_addr : Z) (categories : list pystr) : M unit :=
  match categories with
  | [] => mret tt
  | cat :: rest =>
      let c := lower cat in
      (if bool_decide (c = lit "appearance")
       then copy_block (src_addr + OFF_APPEARANCE) (dst_addr + OFF_APPEARANCE) LEN_APPEARANCE
       else if bool_decide (c = lit "attributes")
       then copy_block (src_addr + OFF_ATTRIBUTES) (dst_addr + OFF_ATTRIBUTES) LEN_ATTRIBUTES
       else if bool_decide (c = lit "tendencies")
       then copy_block (src_addr + OFF_TENDENCIES) (dst_addr + OFF_TENDENCIES) LEN_TENDENCIES
       else if bool_decide (c = lit "badges")
       then copy_block (src_addr + OFF_BADGES) (dst_addr + OFF_BADGES) LEN_BADGES
       else if bool_decide (c = lit "full")
       then copy_block src_addr dst_addr (PLAYER_STRIDE cfg)
       else mret tt);;
      copy_categories src_addr dst_addr rest
  end.

(** [players] is [self.players], which the function only measures. *)
Definition copy_player_data (players : list Player) (src_index dst_index : Z)
           (categories : list pystr) : M bool :=
  st ← get_state;
  if negb (truthy (gm_hproc st)) || bool_decide (gm_base_addr st = None)
  then mret false
  else
    table_base ← _resolve_player_table_base;
    match table_base with
    | None => mret false
    | Some table_base =>
        if (src_index <? 0) || (dst_index <? 0)
           || (Z.of_nat (length players) <=? src_index)
           || (Z.of_nat (length players) <=? dst_index)
        then mret false
        else
          let src_addr := table_base + src_index * PLAYER_STRIDE cfg in
          let dst_addr := table_base + dst_index * PLAYER_STRIDE cfg in
          try_catch
            (copy_categories src_addr dst_addr categories;; mret true)
            (mret false)
    end.

(** *** Team fields *)

(** The loop of [get_team_fields]: a field that cannot be read is empty. *)
Fixpoint read_team_fields (rec_addr : Z) (fields : list (pystr * (Z * Z)))
  : M (list (pystr * pystr)) :=
  match fields with
  | [] => mret []
  | (label, (offset, max_chars)) :: rest =>
      val ← try_catch
              (s ← read_wstring (rec_addr + offset) max_chars; mret (rstrip_nul s))
              (mret []);
      more ← read_team_fields rec_addr rest;
      mret ((label, val) :: more)
  end.

Definition get_team_fields (team_idx : Z) : M (option (list (pystr * pystr))) :=
  st ← get_state;
  if negb (truthy (gm_hproc st)) || bool_decide (gm_base_addr st = None)
  then mret None
  else
    team_base_ptr ← _resolve_team_base_ptr;
    match team_base_ptr with
    | None => mret None
    | Some team_base_ptr =>
        let rec_addr := team_base_ptr + team_idx * TEAM_RECORD_SIZE in
        fields ← read_team_fields rec_addr TEAM_FIELDS;
        mret (Some fields)
    end.

(** The loop of [set_team_fields], with its flag [success]. *)
Fixpoint write_team_fields (rec_addr : Z) (values : list (pystr * pystr))
         (fields : list (pystr * (Z * Z))) (success : bool) : M bool :=
  match fields with
  | [] => mret success
  | (label, (offset, max_chars)) :: rest =>
      match values_get values label with
      | None => write_team_fields rec_addr values rest success
      | Some val =>
          ok ← try_catch
                 (write_wstring_fixed (rec_addr + offset) val max_chars;; mret true)
                 (mret false);
          write_team_fields rec_addr values rest (success && ok)
      end
  end.

Definition set_team_fields (team_idx : Z) (values : list (pystr * pystr)) : M bool :=
  st ← get_state;
  if negb (truthy (gm_hproc st)) || bool_decide (gm_base_addr st = None)
  then mret false
  else
    team_base_ptr ← _resolve_team_base_ptr;
    match team_base_ptr with
    | None => mret false
    | Some team_base_ptr =>
        let rec_addr := team_base_ptr + team_idx * TEAM_RECORD_SIZE in
        write_team_fields rec_addr values TEAM_FIELDS true
    end.

(** *** The list of teams *)

(** The six lists that [get_teams] fills, in the order in which it returns
    them. *)
Record TeamGroups : Type := mkGroups {
  g_free : list pystr;
  g_draft : list pystr;
  g_base : list pystr;
  g_historic : list pystr;
  g_all_time : list pystr;
  g_g_league : list pystr
}.

(** One turn of the loop over [team_list]. *)
Definition sort_team (types : gmap Z Z) (g : TeamGroups) (item : Z * pystr) : TeamGroups :=
  let '(idx, name) := item in
  let ln := lower name in
  let t := default 0 (types !! idx) in
  if contains (lit "free") ln
  then mkGroups (g_free g ++ [name]) (g_draft g) (g_base g) (g_historic g)
                (g_all_time g) (g_g_league g)
  else if contains (lit "draft") ln
  then mkGroups (g_free g) (g_draft g ++ [name]) (g_base g) (g_historic g)
                (g_all_time g) (g_g_league g)
  else if (t =? 1) || (t =? 24)
  then mkGroups (g_free g) (g_draft g) (g_base g) (g_historic g ++ [name])
                (g_all_time g) (g_g_league g)
  else if (t =? 25) || contains (lit "all time") ln || contains (lit "all-time") ln
  then mkGroups (g_free g) (g_draft g) (g_base g) (g_historic g)
                (g_all_time g ++ [name]) (g_g_league g)
  else if contains (lit "gleague") ln || contains (lit "g league") ln
          || contains (lit "g-league") ln
  then mkGroups (g_free g) (g_draft g) (g_base g) (g_historic g)
                (g_all_time g) (g_g_league g ++ [name])
  else mkGroups (g_free g) (g_draft g) (g_base g ++ [name]) (g_historic g)
                (g_all_time g) (g_g_league g).

(** [names] is [list(names_set)], the team names of the players in the order
    in which the set yields them, which Python leaves open. *)
Definition get_teams (names : list pystr) : M (list pystr) :=
  st ← get_state;
  match team_list st with
  | _ :: _ =>
      let g := foldl (sort_team (team_types st)) (mkGroups [] [] [] [] [] [])
                     (team_list st) in
      mret (g_free g ++ g_draft g ++ g_base g ++ g_historic g
            ++ g_all_time g ++ g_g_league g)
  | [] =>
      let is_free n := contains (lit "free") (lower n) in
      let is_draft n := contains (lit "draft") (lower n) in
      let is_all_time n :=
        contains (lit "all time") (lower n) || contains (lit "all-time") (lower n) in
      let is_g_league n :=
        contains (lit "gleague") (lower n) || contains (lit "g league") (lower n)
        || contains (lit "g-league") (lower n) in
      let free := List.filter is_free names in
      let draft := List.filter is_draft names in
      let all_time := List.filter is_all_time names in
      let g_league := List.filter is_g_league names in
      let assigned := free ++ draft ++ all_time ++ g_league in
      let base := List.filter (fun n => negb (bool_decide (n ∈ assigned))) names in
      mret (free ++ draft ++ base ++ all_time ++ g_league)
  end.

(** The lists of [get_teams] put together as it returns them. *)
Definition groups_all (g : TeamGroups) : list pystr :=
  g_free g ++ g_draft g ++ g_base g ++ g_historic g ++ g_all_time g ++ g_g_league g.

(** The blocks of a player record that [copy_player_data] knows by name, as
    (offset in the record, length in bytes). *)
Definition category_blocks : list (pystr * (Z * Z)) :=
  [ (lit "appearance", (OFF_APPEARANCE, LEN_APPEARANCE));
    (lit "attributes", (OFF_ATTRIBUTES, LEN_ATTRIBUTES));
    (lit "tendencies", (OFF_TENDENCIES, LEN_TENDENCIES));
    (lit "badges", (OFF_BADGES, LEN_BADGES));
    (lit "full", (0, PLAYER_STRIDE cfg)) ].

(** * Properties *)

(** ** Codec: dyadic comparison and rounding *)

Lemma pow2_pos (k : Z) : 0 < 2 ^ k \/ (k < 0 /\ 2 ^ k = 0).
Proof.
  destruct (Z_lt_le_dec k 0) as [H|H].
  - right. split; [done|]. by apply Z.pow_neg_r.
  - left. by apply Z.pow_pos_nonneg.
Qed.

Lemma pow2_split (a b : Z) : 0 <= a -> 0 <= b -> 2 ^ (a + b) = 2 ^ a * 2 ^ b.
Proof. intros. by apply Z.pow_add_r. Qed.

Lemma dy_compare_int_ge n e d k :
  int_dyadic d k -> dy_compare (n, e) d <> Lt ->
  if 0 <=? e then k <= n * 2 ^ e else k * 2 ^ (- e) <= n.
Proof.
  destruct d as [nl el]. intros [Hel Hn]. simpl in *. subst nl.
  rewrite Z.compare_lt_iff. intros Hc.
  destruct (Z.leb_spec 0 e) as [He|He].
  - rewrite Z.min_r in Hc by lia.
    replace (el - el) with 0 in Hc by lia.
    replace (e - el) with (e + - el) in Hc by lia.
    rewrite pow2_split in Hc by lia.
    assert (0 < 2 ^ (- el)) by (apply Z.pow_pos_nonneg; lia).
    rewrite Z.pow_0_r, Z.mul_1_r, Z.mul_assoc in Hc.
    generalize dependent (n * 2 ^ e). generalize dependent (2 ^ (- el)).
    intros; nia.
  - set (m := Z.min e el) in *.
    assert (Hm : m <= e /\ m <= el) by (unfold m; lia).
    assert (H1 : 2 ^ (- el) * 2 ^ (el - m) = 2 ^ (- e) * 2 ^ (e - m)).
    { rewrite <- !pow2_split by lia. f_equal. lia. }
    assert (0 < 2 ^ (e - m)) by (apply Z.pow_pos_nonneg; lia).
    assert (0 < 2 ^ (- e)) by (apply Z.pow_pos_nonneg; lia).
    rewrite <- Z.mul_assoc, H1 in Hc.
    generalize dependent (2 ^ (e - m)). generalize dependent (2 ^ (- e)).
    intros; nia.
Qed.

Lemma dy_compare_int_le n e d k :
  int_dyadic d k -> dy_compare (n, e) d <> Gt ->
  if 0 <=? e then n * 2 ^ e <= k else n <= k * 2 ^ (- e).
Proof.
  destruct d as [nl el]. intros [Hel Hn]. simpl in *. subst nl.
  rewrite Z.compare_gt_iff. intros Hc.
  destruct (Z.leb_spec 0 e) as [He|He].
  - rewrite Z.min_r in Hc by lia.
    replace (el - el) with 0 in Hc by lia.
    replace (e - el) with (e + - el) in Hc by lia.
    rewrite pow2_split in Hc by lia.
    assert (0 < 2 ^ (- el)) by (apply Z.pow_pos_nonneg; lia).
    rewrite Z.pow_0_r, Z.mul_1_r, Z.mul_assoc in Hc.
    generalize dependent (n * 2 ^ e). generalize dependent (2 ^ (- el)).
    intros; nia.
  - set (m := Z.min e el) in *.
    assert (Hm : m <= e /\ m <= el) by (unfold m; lia).
    assert (H1 : 2 ^ (- el) * 2 ^ (el - m) = 2 ^ (- e) * 2 ^ (e - m)).
    { rewrite <- !pow2_split by lia. f_equal. lia. }
    assert (0 < 2 ^ (e - m)) by (apply Z.pow_pos_nonneg; lia).
    assert (0 < 2 ^ (- e)) by (apply Z.pow_pos_nonneg; lia).
    rewrite <- Z.mul_assoc, H1 in Hc.
    generalize dependent (2 ^ (e - m)). generalize dependent (2 ^ (- e)).
    intros; nia.
Qed.

Lemma round_half_even_ge n e k :
  (if 0 <=? e then k <= n * 2 ^ e else k * 2 ^ (- e) <= n) ->
  k <= round_half_even (n, e).
Proof.
  unfold round_half_even. destruct (Z.leb_spec 0 e) as [He|He]; [done|].
  intros H. assert (HD : 0 < 2 ^ (- e)) by (apply Z.pow_pos_nonneg; lia).
  assert (k <= n / 2 ^ (- e)) by (apply Z.div_le_lower_bound; lia).
  destruct (_ ?= _); [destruct (Z.even _)|..]; lia.
Qed.

Lemma round_half_even_le n e k :
  (if 0 <=? e then n * 2 ^ e <= k else n <= k * 2 ^ (- e)) ->
  round_half_even (n, e) <= k.
Proof.
  unfold round_half_even. destruct (Z.leb_spec 0 e) as [He|He]; [done|].
  intros H. set (D := 2 ^ (- e)) in *.
  assert (HD : 0 < D) by (apply Z.pow_pos_nonneg; lia).
  pose proof (Z.div_mod n D ltac:(lia)) as Hdm.
  pose proof (Z.mod_pos_bound n D HD) as Hr.
  assert (Hq : n / D <= k) by (apply Z.div_le_upper_bound; lia).
  destruct (Z.compare_spec (2 * (n mod D)) D) as [Hc|Hc|Hc].
  - assert (n / D < k) by nia. destruct (Z.even _); lia.
  - lia.
  - assert (n / D < k) by nia. lia.
Qed.

Lemma int_valued_I k : int_valued (Int k) k.
Proof.
  split; [done|]. exists (k, 0). split; [done|]. split; simpl; lia.
Qed.

Lemma ext_of_round x d : ext_of x = Fin d -> py_round x = Val (round_half_even d).
Proof.
  destruct x as [z|[s|s| |s m e]]; simpl; try destruct s; try done.
  - intros [= <-]. simpl. f_equal. lia.
  - by intros [= <-].
  - by intros [= <-].
  - by intros [= <-].
  - by intros [= <-].
Qed.

(** Rounding a clamped number stays within the integer bounds of the clamp;
    it can only fail on a NaN. *)
Lemma clamp_round_bounds x lo hi kl kh v :
  int_valued lo kl -> int_valued hi kh -> kl <= kh ->
  py_round (if py_lt x lo then lo else if py_gt x hi then hi else x) = Val v ->
  kl <= v <= kh.
Proof.
  intros [Hrl (dl & Hdl & Hil)] [Hrh (dh & Hdh & Hih)] Hk.
  destruct (py_lt x lo) eqn:Hlt.
  { rewrite Hrl. intros [= <-]. lia. }
  destruct (py_gt x hi) eqn:Hgt.
  { rewrite Hrh. intros [= <-]. lia. }
  unfold py_lt, py_gt in *. rewrite Hdl in Hlt. rewrite Hdh in Hgt.
  destruct (ext_of x) as [|[n e]| |] eqn:Hx; cbn [ext_compare] in *; try done.
  - rewrite (ext_of_round _ _ Hx). intros [= <-]. split.
    + apply round_half_even_ge. eapply dy_compare_int_ge; [done|].
      by destruct (dy_compare (n, e) dl).
    + apply round_half_even_le. eapply dy_compare_int_le; [done|].
      by destruct (dy_compare (n, e) dh).
  - destruct x as [z|[s|s| |s m0 e0]]; simpl in *; try destruct s; done.
Qed.

Lemma int_valued_zero : int_valued (Flt (S754_zero false)) 0.
Proof. split; [done|]. exists (0, 0). repeat split; simpl; lia. Qed.

Lemma int_valued_f100 : int_valued (Flt f100) 100.
Proof.
  split; [by vm_compute|]. eexists. split; [by vm_compute|].
  split; by vm_compute.
Qed.

Ltac res_simpl :=
  cbn [mbind res_bind mret res_ret try_except];
  change (storage_mode_eqb ATTR_STORAGE_MODE direct) with false;
  cbn [andb].

Lemma convert_raw_to_rating_spec raw length :
  convert_raw_to_rating raw length =
  try_except (v ← convert_raw_to_rating_value raw length; py_round v) (Val RATING_MIN).
Proof.
  unfold convert_raw_to_rating, convert_raw_to_rating_value.
  destruct (py_lshift 1 length) as [p|]; res_simpl; [|done].
  destruct (p - 1 <=? 0); res_simpl; [done|].
  destruct (py_truediv _ _) as [q|]; res_simpl; [|done].
  destruct (py_mul _ _) as [s|]; res_simpl; [|done].
  by destruct (py_add _ _) as [t|]; res_simpl.
Qed.

Lemma convert_tendency_raw_to_rating_spec raw length :
  convert_tendency_raw_to_rating raw length =
  try_except (v ← convert_tendency_raw_to_rating_value raw length; py_round v) (Val 0).
Proof.
  unfold convert_tendency_raw_to_rating, convert_tendency_raw_to_rating_value.
  destruct (py_lshift 1 length) as [p|]; res_simpl; [|done].
  destruct (p - 1 <=? 0); res_simpl; [done|].
  destruct (py_truediv _ _) as [q|]; res_simpl; [|done].
  by destruct (py_mul _ _) as [s|]; res_simpl.
Qed.

(** C10: the two decoders are total and bounded.  For every integer [raw]
    and every integer [length], zero and negative ones included,
    [convert_raw_to_rating] returns an integer between 25 and 110 and
    [convert_tendency_raw_to_rating] returns an integer between 0 and 100;
    neither raises. *)
Theorem decoders_total_and_bounded (raw length : Z) :
  (exists r, convert_raw_to_rating raw length = Val r /\ 25 <= r <= 110) /\
  (exists t, convert_tendency_raw_to_rating raw length = Val t /\ 0 <= t <= 100).
Proof.
  split.
  - unfold convert_raw_to_rating.
    destruct (py_lshift 1 length) as [p|]; res_simpl; [|exists 25; by split].
    destruct (p - 1 <=? 0); res_simpl; [exists 25; by split|].
    destruct (py_truediv _ _) as [q|]; res_simpl; [|exists 25; by split].
    destruct (py_mul _ _) as [s|]; res_simpl; [|exists 25; by split].
    destruct (py_add _ _) as [x|]; res_simpl; [|exists 25; by split].
    destruct (py_round _) as [v|] eqn:Hv; res_simpl; [|exists 25; by split].
    exists v. split; [done|].
    eapply (clamp_round_bounds x (Int RATING_MIN) (Int RATING_MAX_TRUE) 25 110);
      [apply int_valued_I | apply int_valued_I | lia | exact Hv].
  - unfold convert_tendency_raw_to_rating.
    destruct (py_lshift 1 length) as [p|]; res_simpl; [|exists 0; by split].
    destruct (p - 1 <=? 0); res_simpl; [exists 0; by split|].
    destruct (py_truediv _ _) as [q|]; res_simpl; [|exists 0; by split].
    destruct (py_mul _ _) as [x|]; res_simpl; [|exists 0; by split].
    destruct (py_round _) as [v|] eqn:Hv; res_simpl; [|exists 0; by split].
    exists v. split; [done|].
    eapply (clamp_round_bounds x (Flt (S754_zero false)) (Flt f100) 0 100);
      [apply int_valued_zero | apply int_valued_f100 | lia | exact Hv].
Qed.

(** ** Codec: integers as floats, and the round trip *)

Lemma digits2_pos_lower p : 2 ^ (Z.pos (digits2_pos p) - 1) <= Z.pos p.
Proof.
  induction p as [p IH|p IH|]; simpl digits2_pos.
  - rewrite Pos2Z.inj_succ. replace (Z.succ (Z.pos (digits2_pos p)) - 1)
      with (Z.succ (Z.pos (digits2_pos p) - 1)) by lia.
    rewrite Z.pow_succ_r by lia. lia.
  - rewrite Pos2Z.inj_succ. replace (Z.succ (Z.pos (digits2_pos p)) - 1)
      with (Z.succ (Z.pos (digits2_pos p) - 1)) by lia.
    rewrite Z.pow_succ_r by lia. lia.
  - simpl. lia.
Qed.

Lemma digits2_pos_bound p k : 0 <= k -> Z.pos p < 2 ^ k -> Z.pos (digits2_pos p) <= k.
Proof.
  intros Hk Hp. pose proof (digits2_pos_lower p) as Hl.
  destruct (Z_le_gt_dec (Z.pos (digits2_pos p)) k) as [|Hgt]; [done|].
  assert (2 ^ k <= 2 ^ (Z.pos (digits2_pos p) - 1)) by (apply Z.pow_le_mono_r; lia).
  lia.
Qed.

Lemma digits2_pos_iter_xO p k :
  digits2_pos (Pos.iter xO p k) = (digits2_pos p + k)%positive.
Proof.
  induction k as [|k IH] using Pos.peano_ind.
  - simpl. lia.
  - rewrite Pos.iter_succ. simpl. rewrite IH. lia.
Qed.

Lemma iter_xO_value p k : Z.pos (Pos.iter xO p k) = Z.pos p * 2 ^ Z.pos k.
Proof.
  induction k as [|k IH] using Pos.peano_ind.
  - simpl. lia.
  - rewrite Pos.iter_succ, Pos2Z.inj_succ, Z.pow_succ_r by lia.
    rewrite Pos2Z.inj_xO, IH. lia.
Qed.

Lemma binary_round_aux_exact s m e :
  Z.pos (digits2_pos m) = 53 -> -1074 <= e <= 971 ->
  binary_round_aux prec emax s (Z.pos m) e loc_Exact = S754_finite s m e.
Proof.
  intros Hdig He.
  assert (Hf : fexp prec emax (53 + e) - e = 0).
  { unfold fexp, emin, prec, emax. lia. }
  unfold binary_round_aux, shr_fexp, Zdigits2. rewrite Hdig, Hf.
  cbn [shr shr_record_of_loc shr_m loc_of_shr_record round_nearest_even].
  unfold Zdigits2. rewrite Hdig, Hf.
  cbn [shr shr_record_of_loc shr_m].
  assert (Hle : (e <=? emax - prec) = true) by (unfold emax, prec; lia).
  by rewrite Hle.
Qed.

(** A nonzero integer below [2^53] in magnitude converts to a float of the
    same value. *)
Lemma binary_round_exact s p :
  Z.pos p < 2 ^ 53 ->
  exists m e, binary_round prec emax s p 0 = S754_finite s m e
              /\ e <= 0 /\ Z.pos m = Z.pos p * 2 ^ (- e).
Proof.
  intros Hp. pose proof (digits2_pos_bound p 53 ltac:(lia) Hp) as Hd.
  unfold binary_round.
  assert (Hf : fexp prec emax (Z.pos (digits2_pos p) + 0) = Z.pos (digits2_pos p) - 53).
  { unfold fexp, emin, prec, emax. lia. }
  rewrite Hf. unfold shl_align.
  destruct (Z.pos (digits2_pos p) - 53 - 0) as [|k|k] eqn:Hk; [|lia|].
  - exists p, 0. split; [|split; [lia|simpl; lia]].
    apply binary_round_aux_exact; lia.
  - exists (Pos.iter xO p k), (Z.pos (digits2_pos p) - 53).
    split; [|split; [lia|]].
    + apply binary_round_aux_exact; [|lia].
      rewrite digits2_pos_iter_xO. lia.
    + rewrite iter_xO_value. f_equal. f_equal. lia.
Qed.

Lemma float_of_Z_exact r :
  r <> 0 -> - 2 ^ 53 < r < 2 ^ 53 ->
  exists f n e, float_of_Z r = Val f /\ ext_of (Flt f) = Fin (n, e)
                /\ e <= 0 /\ n = r * 2 ^ (- e).
Proof.
  intros Hz Hr. unfold float_of_Z, binary_normalize.
  destruct r as [|p|p]; [done|..].
  - destruct (binary_round_exact false p) as (m & e & -> & He & Hm); [lia|].
    exists (S754_finite false m e), (Z.pos m), e. repeat split; try done.
  - destruct (binary_round_exact true p) as (m & e & -> & He & Hm); [lia|].
    exists (S754_finite true m e), (Z.neg m), e. repeat split; try done.
    rewrite <- Pos2Z.opp_pos, Hm. lia.
Qed.

(** Comparing such a float with an integer compares the integers. *)
Lemma dy_compare_scaled r e k :
  e <= 0 -> dy_compare (r * 2 ^ (- e), e) (k, 0) = (r ?= k).
Proof.
  intros He. unfold dy_compare. rewrite Z.min_l by lia.
  replace (e - e) with 0 by lia. replace (0 - e) with (- e) by lia.
  rewrite Z.pow_0_r, Z.mul_1_r.
  assert (0 < 2 ^ (- e)) by (apply Z.pow_pos_nonneg; lia).
  destruct (Z.compare_spec r k) as [->|Hlt|Hgt].
  - apply Z.compare_refl.
  - apply Z.compare_lt_iff. nia.
  - apply Z.compare_gt_iff. nia.
Qed.

Lemma float_of_Z_value r :
  - 2 ^ 53 < r < 2 ^ 53 ->
  exists f n e, float_of_Z r = Val f /\ ext_of (Flt f) = Fin (n, e)
                /\ e <= 0 /\ n = r * 2 ^ (- e).
Proof.
  intros Hr. destruct (Z.eq_dec r 0) as [->|Hz].
  - exists (S754_zero false), 0, 0. by repeat split.
  - by apply float_of_Z_exact.
Qed.

Lemma py_lt_scaled f r e k :
  ext_of (Flt f) = Fin (r * 2 ^ (- e), e) -> e <= 0 ->
  py_lt (Flt f) (Int k) = (r <? k) /\ py_gt (Flt f) (Int k) = (k <? r).
Proof.
  intros Hf He. unfold py_lt, py_gt. rewrite Hf. cbn [ext_of ext_compare].
  rewrite dy_compare_scaled by done. rewrite Z.ltb_antisym, Z.leb_compare.
  unfold Z.ltb. rewrite (Z.compare_antisym r k).
  by destruct (r ?= k).
Qed.

(** Encoding an integer rating is encoding its clamp to [25, 110]. *)
Lemma encode_clamped r length :
  - 2 ^ 53 < r < 2 ^ 53 ->
  convert_rating_to_raw (Int r) length = convert_rating_to_raw (Int (clamp_rating r)) length.
Proof.
  intros Hr. unfold clamp_rating, RATING_MIN, RATING_MAX_TRUE.
  destruct (Z_lt_le_dec r 25) as [Hlo|Hlo]; [|destruct (Z_le_gt_dec r 110) as [Hhi|Hhi]].
  - replace (Z.max 25 (Z.min 110 r)) with 25 by lia.
    unfold convert_rating_to_raw.
    destruct (py_lshift 1 length) as [p|]; res_simpl; [|done].
    destruct (p - 1 <=? 0); res_simpl; [done|].
    cbn [to_float].
    destruct (float_of_Z_value r Hr) as (f & n & e & -> & Hext & He & ->).
    res_simpl.
    destruct (py_lt_scaled f r e RATING_MIN Hext He) as [-> _].
    replace (r <? RATING_MIN) with true by (unfold RATING_MIN; lia).
    set (x := float_of_Z 25). vm_compute in x. subst x. res_simpl.
    set (b := py_lt _ _). vm_compute in b. subst b.
    set (b := py_gt _ _). vm_compute in b. subst b.
    cbn iota.
    by do 3 f_equal.
  - replace (Z.max 25 (Z.min 110 r)) with r by lia. done.
  - replace (Z.max 25 (Z.min 110 r)) with 110 by lia.
    unfold convert_rating_to_raw.
    destruct (py_lshift 1 length) as [p|]; res_simpl; [|done].
    destruct (p - 1 <=? 0); res_simpl; [done|].
    cbn [to_float].
    destruct (float_of_Z_value r Hr) as (f & n & e & -> & Hext & He & ->).
    res_simpl.
    destruct (py_lt_scaled f r e RATING_MIN Hext He) as [-> _].
    destruct (py_lt_scaled f r e RATING_MAX_TRUE Hext He) as [_ ->].
    replace (r <? RATING_MIN) with false by (unfold RATING_MIN; lia).
    replace (RATING_MAX_TRUE <? r) with true by (unfold RATING_MAX_TRUE; lia).
    set (x := float_of_Z 110). vm_compute in x. subst x. res_simpl.
    set (b := py_lt _ _). vm_compute in b. subst b.
    set (b := py_gt _ _). vm_compute in b. subst b.
    cbn iota.
    by do 3 f_equal.
Qed.


Lemma forallb_seqZ (f : Z -> bool) m n k :
  forallb f (seqZ m n) = true -> m <= k < m + n -> f k = true.
Proof.
  intros H Hk. rewrite forallb_forall in H. apply H.
  apply list_elem_of_In, elem_of_seqZ. lia.
Qed.


(** ** Codec: rounding of the decoders *)

Lemma round_half_even_nearest d : nearest_ties_even d (round_half_even d).
Proof.
  destruct d as [n e]. unfold nearest_ties_even, round_half_even.
  destruct (0 <=? e) eqn:He; [done|]. apply Z.leb_gt in He.
  set (D := 2 ^ (- e)).
  assert (HD : 0 < D) by (apply Z.pow_pos_nonneg; lia).
  pose proof (Z.div_mod n D ltac:(lia)) as Hdm.
  pose proof (Z.mod_pos_bound n D HD) as Hr.
  set (q := n / D) in *. set (r := n mod D) in *.
  clearbody q r D.
  assert (Hq0 : q * D - n = - r) by lia.
  assert (Hq1 : (q + 1) * D - n = D - r) by lia.
  destruct (Z.compare_spec (2 * r) D) as [Hc|Hc|Hc].
  - destruct (Z.even q) eqn:Hev.
    + rewrite Hq0. split; [lia|done].
    + rewrite Hq1. split; [lia|]. intros _. rewrite Z.even_add, Hev. done.
  - rewrite Hq0. split; lia.
  - rewrite Hq1. split; lia.
Qed.

Lemma check_half_up_all :
  forallb (fun length => forallb (check_half_up length) (seqZ 0 (2 ^ length))) (seqZ 1 8) = true.
Proof. by vm_compute. Qed.

(** C7, amended: the final integer of both decoders is the computed floating
    point value rounded to the nearest integer, a value halfway between two
    integers going to the even one.  On the widths 1 to 8 no computed value is
    halfway, and the result is also the half-up rounding. *)
Theorem decoders_round_nearest_even (raw length : Z) :
  (forall v d, convert_raw_to_rating_value raw length = Val v -> ext_of v = Fin d ->
     exists r, convert_raw_to_rating raw length = Val r /\ nearest_ties_even d r) /\
  (forall v d, convert_tendency_raw_to_rating_value raw length = Val v -> ext_of v = Fin d ->
     exists r, convert_tendency_raw_to_rating raw length = Val r /\ nearest_ties_even d r) /\
  (1 <= length <= 8 -> 0 <= raw < 2 ^ length ->
     rounds_half_up convert_raw_to_rating convert_raw_to_rating_value raw length /\
     rounds_half_up convert_tendency_raw_to_rating convert_tendency_raw_to_rating_value raw length).
Proof.
  split; [|split].
  - intros v d Hv Hd. rewrite convert_raw_to_rating_spec, Hv. res_simpl.
    rewrite (ext_of_round _ _ Hd). cbn [try_except].
    eexists. split; [done|]. apply round_half_even_nearest.
  - intros v d Hv Hd. rewrite convert_tendency_raw_to_rating_spec, Hv. res_simpl.
    rewrite (ext_of_round _ _ Hd). cbn [try_except].
    eexists. split; [done|]. apply round_half_even_nearest.
  - intros Hl Hraw.
    pose proof (forallb_seqZ _ 1 8 length check_half_up_all ltac:(lia)) as H1.
    cbv beta in H1.
    pose proof (forallb_seqZ (check_half_up length) 0 (2 ^ length) raw H1 ltac:(lia)) as H2.
    unfold check_half_up in H2.
    destruct (convert_raw_to_rating_value raw length) as [v1|] eqn:E1; [|done].
    destruct (convert_tendency_raw_to_rating_value raw length) as [v2|] eqn:E2; [|done].
    destruct (ext_of v1) as [|d1| |] eqn:D1; try done.
    destruct (ext_of v2) as [|d2| |] eqn:D2; try done.
    destruct (convert_raw_to_rating raw length) as [r1|] eqn:R1; [|done].
    destruct (convert_tendency_raw_to_rating raw length) as [r2|] eqn:R2; [|done].
    apply andb_true_iff in H2 as [Hr1 Hr2].
    apply Z.eqb_eq in Hr1, Hr2. subst r1 r2.
    split; intros v d Hv Hd.
    + rewrite E1 in Hv. injection Hv as <-. rewrite D1 in Hd.
      injection Hd as <-. exact R1.
    + rewrite E2 in Hv. injection Hv as <-. rewrite D2 in Hd.
      injection Hd as <-. exact R2.
Qed.

(** ** Counting *)

Lemma Counter_fold (names : list pystr) (c : gmap pystr nat) (n : pystr) :
  counter_get (foldl (fun c name => <[name := S (default O (c !! name))]> c) c names) n
  = (counter_get c n + length (filter (fun x => x = n) names))%nat.
Proof.
  revert c. induction names as [|x names IH]; intros c; simpl.
  - lia.
  - rewrite IH. unfold counter_get at 1. rewrite filter_cons.
    destruct (decide (x = n)) as [->|Hne].
    + rewrite lookup_insert_eq. simpl. unfold counter_get. lia.
    + rewrite lookup_insert_ne by done. unfold counter_get. lia.
Qed.

Lemma Counter_spec (pairs : list (Z * pystr)) (n : pystr) :
  counter_get (Counter (map snd pairs)) n = occurrences n pairs.
Proof.
  unfold Counter, occurrences. rewrite Counter_fold.
  unfold counter_get. by rewrite lookup_empty.
Qed.

Lemma filter_length_lookup {A} (P : A -> Prop) `{!forall x, Decision (P x)}
      (l : list A) k x :
  l !! k = Some x -> P x -> (1 <= length (filter P l))%nat.
Proof.
  intros Hk HP. assert (Hin : x ∈ filter P l).
  { apply list_elem_of_filter. split; [done|]. by eapply list_elem_of_lookup_2. }
  destruct (filter P l); [by apply elem_of_nil in Hin|simpl; lia].
Qed.

Lemma two_positions_occur (names : list pystr) k k' n :
  names !! k = Some n -> names !! k' = Some n -> (k < k')%nat ->
  (2 <= length (filter (fun x => x = n) names))%nat.
Proof.
  intros Hk Hk' Hlt.
  rewrite <- (take_drop k' names), filter_app, length_app.
  assert (1 <= length (filter (fun x => x = n) (take k' names)))%nat.
  { eapply (filter_length_lookup _ _ k n); [|done].
    by rewrite lookup_take_lt. }
  assert (1 <= length (filter (fun x => x = n) (drop k' names)))%nat.
  { eapply (filter_length_lookup _ _ O n); [|done].
    rewrite lookup_drop. by rewrite Nat.add_0_r. }
  lia.
Qed.

(** ** Labels *)

Lemma lit_inj s t : lit s = lit t -> s = t.
Proof.
  unfold lit. intros H.
  assert (Hl : list_ascii_of_string s = list_ascii_of_string t).
  { revert H. generalize (list_ascii_of_string s) (list_ascii_of_string t).
    induction l as [|a l IH]; intros [|b l']; simpl; try done.
    intros [= Hab Hl]. f_equal; [|by apply IH].
    rewrite <- (ascii_N_embedding a), <- (ascii_N_embedding b). by rewrite Hab. }
  rewrite <- (string_of_list_ascii_of_string s), <- (string_of_list_ascii_of_string t).
  by rewrite Hl.
Qed.

Lemma pretty_N_go_bracket_free x s : bracket_free s -> bracket_free (pretty_N_go x s).
Proof.
  revert s. induction (N.lt_wf_0 x) as [x _ IH]; intros s Hs.
  assert (x = 0 \/ 0 < x)%N as [->|Hx] by lia.
  - by rewrite pretty_N_go_0.
  - rewrite pretty_N_go_step by done. apply IH.
    { by apply N.div_lt. }
    constructor; [|done]. unfold pretty_N_char. by repeat case_match.
Qed.

Lemma pretty_N_bracket_free (x : N) : bracket_free (pretty x).
Proof.
  unfold pretty, pretty_N. case_decide.
  - repeat constructor. done.
  - apply pretty_N_go_bracket_free. constructor.
Qed.

Lemma pretty_Z_bracket_free (z : Z) : bracket_free (pretty z).
Proof.
  destruct z as [|p|p]; unfold pretty, pretty_Z.
  - repeat constructor. done.
  - apply pretty_N_bracket_free.
  - constructor; [done|]. apply pretty_N_bracket_free.
Qed.

Lemma str_of_int_no_bracket z : 91%N ∉ str_of_int z.
Proof.
  unfold str_of_int, lit. intros Hin.
  apply list_elem_of_fmap in Hin as (a & Ha & Hin).
  pose proof (pretty_Z_bracket_free z) as Hf.
  unfold bracket_free in Hf. rewrite Forall_forall in Hf.
  apply (Hf a); [done|].
  rewrite <- (ascii_N_embedding a), <- Ha. done.
Qed.

Lemma str_of_int_inj i j : str_of_int i = str_of_int j -> i = j.
Proof. intros H. apply lit_inj in H. by apply (inj pretty) in H. Qed.

Lemma split_first_mark (x y a b : list N) (c : N) :
  c ∉ x -> c ∉ y -> x ++ c :: a = y ++ c :: b -> x = y /\ a = b.
Proof.
  revert y. induction x as [|u x IH]; intros [|v y] Hx Hy; simpl.
  - by intros [= ->].
  - intros [= <- _]. exfalso. apply Hy. by left.
  - intros [= -> _]. exfalso. apply Hx. by left.
  - intros [= -> H]. apply IH in H as [-> ->]; [done|..].
    + intros ?. apply Hx. by right.
    + intros ?. apply Hy. by right.
Qed.

Lemma label_inj n i m j : label n i = label m j -> n = m /\ i = j.
Proof.
  unfold label. intros H. apply (f_equal (@rev N)) in H.
  rewrite !rev_app_distr in H. cbn [lit list_ascii_of_string map rev app N_of_ascii] in H.
  change (rev (lit "]")) with [93%N] in H.
  change (rev (lit " [")) with [91%N; 32%N] in H.
  rewrite <- !app_assoc in H. simpl in H.
  injection H as H.
  apply split_first_mark in H as [Hd Hn].
  - injection Hn as Hn.
    apply (f_equal (@rev N)) in Hn, Hd. rewrite !rev_involutive in Hn, Hd.
    split; [done|]. by apply str_of_int_inj.
  - intros Hin. apply list_elem_of_In, in_rev, list_elem_of_In in Hin.
    by apply str_of_int_no_bracket in Hin.
  - intros Hin. apply list_elem_of_In, in_rev, list_elem_of_In in Hin.
    by apply str_of_int_no_bracket in Hin.
Qed.

(** ** The result of deduplication *)

Lemma no_clash_spec pairs i n j m :
  no_clash pairs = true -> (i, n) ∈ pairs -> (j, m) ∈ pairs ->
  (occurrences n pairs <= 1)%nat -> (1 < occurrences m pairs)%nat ->
  n <> label m j.
Proof.
  unfold no_clash. rewrite forallb_forall. intros H Hi Hj Hn Hm Heq.
  apply list_elem_of_In in Hi, Hj.
  specialize (H _ Hi). simpl in H. rewrite forallb_forall in H.
  specialize (H _ Hj). simpl in H.
  apply negb_true_iff, andb_false_iff in H as [H|H].
  - apply andb_false_iff in H as [H|H].
    + apply Nat.leb_gt in H. lia.
    + apply Nat.ltb_ge in H. lia.
  - by apply bool_decide_eq_false in H.
Qed.

Lemma dedupe_lookup pairs k idx name :
  pairs !! k = Some (idx, name) ->
  _dedupe_team_names pairs !! k
  = Some (idx, if decide (1 < occurrences name pairs)%nat then label name idx else name).
Proof.
  intros Hk. unfold _dedupe_team_names. rewrite list_lookup_fmap, Hk. simpl.
  rewrite Counter_spec.
  destruct (Nat.ltb_spec 1 (occurrences name pairs)); case_decide; try lia; done.
Qed.

(** C5, amended: [_dedupe_team_names] keeps the order and the indices,
    replaces every name held by several slots by the name followed by its own
    slot index in brackets, and leaves every name held by one slot as it is.
    When the slot indices are distinct and no singly held name already reads
    as such a label, no two entries of the result have the same name. *)
Theorem dedupe_team_names_distinct (pairs : list (Z * pystr)) :
  (forall k idx name, pairs !! k = Some (idx, name) ->
     _dedupe_team_names pairs !! k
     = Some (idx, if decide (1 < occurrences name pairs)%nat
                  then label name idx else name)) /\
  length (_dedupe_team_names pairs) = length pairs /\
  (NoDup (map fst pairs) -> no_clash pairs = true ->
   NoDup (map snd (_dedupe_team_names pairs))).
Proof.
  split; [apply dedupe_lookup|]. split.
  { unfold _dedupe_team_names. by rewrite length_map. }
  intros Hidx Hclash. apply NoDup_alt. intros k k' x Hk Hk'.
  rewrite list_lookup_fmap in Hk, Hk'.
  destruct (_dedupe_team_names pairs !! k) as [[i' x1]|] eqn:Ek; [|done].
  destruct (_dedupe_team_names pairs !! k') as [[j' x2]|] eqn:Ek'; [|done].
  simpl in Hk, Hk'. injection Hk as ->. injection Hk' as ->.
  assert (Hlen : length (_dedupe_team_names pairs) = length pairs).
  { unfold _dedupe_team_names. by rewrite length_map. }
  destruct (pairs !! k) as [[i n]|] eqn:Pk.
  2:{ apply lookup_lt_Some in Ek. apply lookup_ge_None in Pk. lia. }
  destruct (pairs !! k') as [[j m]|] eqn:Pk'.
  2:{ apply lookup_lt_Some in Ek'. apply lookup_ge_None in Pk'. lia. }
  rewrite (dedupe_lookup _ _ _ _ Pk) in Ek.
  rewrite (dedupe_lookup _ _ _ _ Pk') in Ek'.
  injection Ek as <- Ex. injection Ek' as <- Ex'.
  assert (Hin : (i, n) ∈ pairs) by (by eapply list_elem_of_lookup_2).
  assert (Hin' : (j, m) ∈ pairs) by (by eapply list_elem_of_lookup_2).
  assert (Hsame : i = j -> k = k').
  { intros ->. apply (NoDup_lookup (map fst pairs) k k' j Hidx).
    - by rewrite list_lookup_fmap, Pk.
    - by rewrite list_lookup_fmap, Pk'. }
  assert (Hname : n = m -> k <> k' -> (2 <= occurrences n pairs)%nat).
  { intros -> Hne. unfold occurrences.
    assert (Hn1 : map snd pairs !! k = Some m) by (by rewrite list_lookup_fmap, Pk).
    assert (Hn2 : map snd pairs !! k' = Some m) by (by rewrite list_lookup_fmap, Pk').
    destruct (Nat.lt_trichotomy k k') as [Hlt|[->|Hlt]]; [|done|].
    - exact (two_positions_occur _ k k' m Hn1 Hn2 Hlt).
    - exact (two_positions_occur _ k' k m Hn2 Hn1 Hlt). }
  destruct (decide (k = k')) as [|Hne]; [done|]. exfalso.
  rewrite <- Ex' in Ex. clear Ex'.
  destruct (decide (1 < occurrences n pairs)%nat) as [Hn|Hn],
           (decide (1 < occurrences m pairs)%nat) as [Hm|Hm].
  - apply label_inj in Ex as [_ Hij]. by apply Hne, Hsame.
  - apply (no_clash_spec pairs j m i n); [done|done|done|lia|done|done].
  - apply (no_clash_spec pairs i n j m); [done|done|done|lia|done|done].
  - specialize (Hname Ex Hne). lia.
Qed.

(** ** Grouping fields by offset *)

Lemma key_eqb_str s t : key_eqb (PStr s) (PStr t) = bool_decide (s = t).
Proof. done. Qed.

Lemma cat_lookup_setdefault cat_map o entry o' :
  (forall k es, (k, es) ∈ cat_map -> exists s, k = PStr s) ->
  cat_lookup (setdefault_append cat_map (PStr o) entry) (PStr o')
  = if bool_decide (o = o')
    then Some (default [] (cat_lookup cat_map (PStr o)) ++ [entry])
    else cat_lookup cat_map (PStr o').
Proof.
  induction cat_map as [|[k es] rest IH]; intros Hkeys;
    cbn [setdefault_append cat_lookup].
  - rewrite key_eqb_str. by case_bool_decide.
  - destruct (Hkeys k es) as [s ->]; [by left|].
    rewrite !key_eqb_str.
    assert (Hrest : forall k es, (k, es) ∈ rest -> exists s, k = PStr s).
    { intros k' es' Hin. apply (Hkeys k' es'). by right. }
    destruct (bool_decide_reflect (s = o)) as [->|Hso];
      cbn [cat_lookup]; rewrite !key_eqb_str.
    + by destruct (bool_decide_reflect (o = o')) as [->|Hoo].
    + destruct (bool_decide_reflect (s = o')) as [->|Hso'].
      * by rewrite bool_decide_eq_false_2 by congruence.
      * by apply IH.
Qed.

Lemma setdefault_keys cat_map key entry k es :
  (k, es) ∈ setdefault_append cat_map key entry ->
  k = key \/ exists es', (k, es') ∈ cat_map.
Proof.
  induction cat_map as [|[k' es'] rest IH]; simpl.
  - intros Hin. apply list_elem_of_singleton in Hin as [= -> _]. by left.
  - destruct (key_eqb k' key).
    + intros Hin. apply elem_of_cons in Hin as [[= -> _]|Hin].
      * right. exists es'. by left.
      * right. exists es. by right.
    + intros Hin. apply elem_of_cons in Hin as [[= -> ->]|Hin].
      * right. exists es'. by left.
      * destruct (IH Hin) as [->|[es'' Hin']]; [by left|].
        right. exists es''. by right.
Qed.

Lemma entries_at_snoc o fields f :
  entries_at o (fields ++ [f])
  = entries_at o fields ++ (if offset_is o f then [entry_of f] else []).
Proof.
  unfold entries_at. rewrite List.filter_app, List.map_app. simpl.
  by destruct (offset_is o f).
Qed.

Lemma restructure_field_ok cat_map processed f :
  field_ok f = true -> category_grouped processed cat_map ->
  exists cat_map', restructure_field cat_map f = Val cat_map'
                   /\ category_grouped (processed ++ [f]) cat_map'.
Proof.
  intros Hok [Hlook Hkeys].
  destruct f as [| | | | |l|d]; try done.
  unfold restructure_field. cbn [py_get mbind res_bind].
  unfold field_ok in Hok.
  assert (Hskip : forall o, offset_is o (PDict d) = false ->
                  entries_at o (processed ++ [PDict d]) = entries_at o processed).
  { intros o Ho. rewrite entries_at_snoc, Ho. by rewrite app_nil_r. }
  destruct (dict_lookup d (PStr (lit "offset"))) as [v|] eqn:Hoff.
  2:{ exists cat_map. split; [done|]. split; [|done].
      intros o Ho. rewrite Hskip; [by apply Hlook|].
      unfold offset_is, field_offset. by rewrite Hoff. }
  destruct (py_truthy v) eqn:Htruthy; cbn [negb].
  2:{ exists cat_map. split; [done|]. split; [|done].
      intros o Ho. rewrite Hskip; [by apply Hlook|].
      unfold offset_is, field_offset. rewrite Hoff.
      destruct v as [| | | |s| |]; try done.
      destruct s; [|done]. by apply bool_decide_eq_false_2. }
  destruct v as [| | | |s| |]; try (simpl in Hok; congruence).
  cbn [hashable]. eexists. split; [done|]. split.
  - intros o Ho. rewrite cat_lookup_setdefault.
    2:{ intros k es Hin. destruct (Hkeys k es Hin) as (s' & -> & _). by eexists. }
    rewrite entries_at_snoc. unfold offset_is at 1, field_offset. rewrite Hoff.
    destruct (bool_decide_reflect (s = o)) as [->|Hso].
    + rewrite Hlook by done. unfold entry_of.
      destruct (entries_at o processed); done.
    + rewrite app_nil_r. by apply Hlook.
  - intros k es Hin. apply setdefault_keys in Hin as [->|[es' Hin]].
    + exists s. split; [done|]. by destruct s.
    + by apply (Hkeys k es').
Qed.

Lemma restructure_fields_ok fields cat_map processed :
  forallb field_ok fields = true -> category_grouped processed cat_map ->
  exists cat_map', restructure_fields cat_map fields = Val cat_map'
                   /\ category_grouped (processed ++ fields) cat_map'.
Proof.
  revert cat_map processed. induction fields as [|f fields IH]; intros cat_map processed Hok Hinv.
  - exists cat_map. by rewrite app_nil_r.
  - simpl in Hok. apply andb_true_iff in Hok as [Hf Hrest].
    destruct (restructure_field_ok cat_map processed f Hf Hinv) as (c1 & E1 & Hinv1).
    destruct (IH c1 (processed ++ [f]) Hrest Hinv1) as (c2 & E2 & Hinv2).
    exists c2. simpl. rewrite E1. cbn [mbind res_bind]. rewrite E2.
    split; [done|]. by rewrite <- app_assoc in Hinv2.
Qed.

Lemma category_grouped_nil : category_grouped [] [].
Proof. split; [done|]. intros k es Hin. by apply elem_of_nil in Hin. Qed.

Lemma dict_set_fresh d key value :
  key ∉ map fst d -> dict_set d key value = d ++ [(key, value)].
Proof.
  induction d as [|[k v] rest IH]; simpl; [done|].
  intros Hnin. rewrite bool_decide_eq_false_2.
  - f_equal. apply IH. intros Hin. apply Hnin. by right.
  - intros ->. apply Hnin. by left.
Qed.

Lemma restructure_items_ok items acc :
  NoDup (map fst acc ++ map fst items) ->
  well_formed lower items = true ->
  exists out', restructure_items acc items = Val (acc ++ out')
               /\ Forall2 (restructured_item lower) items out'.
Proof.
  revert acc. induction items as [|[key value] items IH]; intros acc Hnd Hwf.
  - exists []. simpl. by rewrite app_nil_r.
  - simpl in Hwf. apply andb_true_iff in Hwf as [Hitem Hrest].
    assert (Hfresh : key ∉ map fst acc).
    { apply NoDup_app in Hnd as (_ & Hdisj & _). intros Hin.
      apply (Hdisj key Hin). simpl. by left. }
    assert (Hnd' : forall v, NoDup (map fst (acc ++ [(key, v)]) ++ map fst items)).
    { intros v. rewrite map_app. simpl. rewrite <- app_assoc. exact Hnd. }
    assert (Hstep : forall v, restructured_item lower (key, value) (key, v) ->
              exists out', restructure_items (dict_set acc key v) items = Val (acc ++ out')
                           /\ Forall2 (restructured_item lower) ((key, value) :: items) out').
    { intros v Hv. rewrite dict_set_fresh by done.
      destruct (IH (acc ++ [(key, v)]) (Hnd' v) Hrest) as (out' & E & HF).
      exists ((key, v) :: out'). rewrite E, <- app_assoc. split; [done|].
      by constructor. }
    simpl. destruct (bool_decide_reflect (lower key = lit "base")) as [Hb|Hb].
    + apply Hstep. split; [done|]. simpl. by rewrite bool_decide_eq_true_2.
    + simpl in Hitem.
      assert (Hother : forall v, (match value with PList _ => False | _ => True end) ->
                v = value -> restructured_item lower (key, value) (key, v)).
      { intros v Hnl ->. split; [done|]. simpl. rewrite bool_decide_eq_false_2 by done.
        by destruct value. }
      destruct value as [| | | | |fields|d]; try (by apply Hstep, Hother).
      destruct (restructure_fields_ok fields [] [] Hitem category_grouped_nil)
        as (cat & E & Hcat).
      rewrite E. cbn [mbind res_bind]. apply Hstep.
      split; [done|]. simpl. rewrite bool_decide_eq_false_2 by done.
      exists cat. by split.
Qed.

(** C9, amended: for an offsets dictionary whose list-valued categories
    hold only field dictionaries with an offset that is missing, false or a
    string, [restructure] returns a dictionary with the same keys in the same
    order; a key that is ["base"] in lower case keeps its value, a
    list-valued category becomes the map from each offset string to the
    entries of its fields in their order, the fields with no offset or an
    empty one being left out, and any other value is copied. *)
Theorem restructure_groups_by_offset (offsets : list (pystr * pyval)) :
  NoDup (map fst offsets) -> well_formed lower offsets = true ->
  exists out, restructure offsets = Val out
              /\ Forall2 (restructured_item lower) offsets out.
Proof.
  intros Hnd Hwf. unfold restructure.
  destruct (restructure_items_ok offsets [] Hnd Hwf) as (out & E & HF).
  exists out. by split.
Qed.

(** ** Running stateful code *)

Lemma bind_run {A B} (m : M A) (f : A -> M B) st :
  (m ≫= f) st = match m st with
                | (Val a, st') => f a st'
                | (Exc e, st') => (Exc e, st')
                end.
Proof. done. Qed.

Lemma try_catch_run {A} (body handler : M A) st :
  try_catch body handler st = match body st with
                              | (Val a, st') => (Val a, st')
                              | (Exc _, st') => handler st'
                              end.
Proof. done. Qed.

(** A handler that returns makes the whole [try] return. *)
Lemma try_catch_returns {A} (body : M A) (d : A) st :
  exists a st', try_catch body (mret d) st = (Val a, st').
Proof.
  rewrite try_catch_run. destruct (body st) as [[a|e] st']; by eexists _, _.
Qed.

Lemma length_bytes_little n len : length (bytes_little n len) = len.
Proof. revert n. induction len as [|len IH]; intros n; simpl; [done|]. by rewrite IH. Qed.

Lemma lift_run {A} (r : res A) st : lift r st = (r, st).
Proof. done. Qed.

Lemma mret_run {A} (a : A) st : (mret a : M A) st = (Val a, st).
Proof. done. Qed.

Lemma get_state_run st : get_state st = (Val st, st).
Proof. done. Qed.

Lemma modify_run f st : modify f st = (Val tt, f st).
Proof. done. Qed.

Lemma raise_run {A} e st : @raise A e st = (Exc e, st).
Proof. done. Qed.

Lemma _check_open_run st :
  _check_open st = (match gm_hproc st, gm_base_addr st with
                    | Some _, Some _ => Val tt
                    | _, _ => Exc RuntimeError
                    end, st).
Proof. unfold _check_open. rewrite bind_run, get_state_run. by repeat case_match. Qed.

(** What a read does: it is logged, and returns the bytes when every cell of
    the span is readable. *)
Lemma read_bytes_run addr length st :
  read_bytes addr length st =
  match gm_hproc st, gm_base_addr st with
  | Some _, Some _ =>
      if length <? 0 then (Exc ValueError, st)
      else match read_cells (os_mem st) (c_void_p addr) (Z.to_nat length) with
           | Some bs => (Val bs, log_read addr length st)
           | None => (Exc RuntimeError, log_read addr length st)
           end
  | _, _ => (Exc RuntimeError, st)
  end.
Proof.
  unfold read_bytes. rewrite bind_run, _check_open_run.
  destruct (gm_hproc st), (gm_base_addr st); try done.
  destruct (length <? 0); [done|].
  rewrite bind_run, modify_run, bind_run, get_state_run. cbn [os_mem log_read].
  by destruct (read_cells _ _ _).
Qed.

Lemma write_bytes_run addr data st :
  write_bytes addr data st =
  match gm_hproc st, gm_base_addr st with
  | Some _, Some _ =>
      if cells_writable st (c_void_p addr) (List.length data)
      then (Val tt, set_mem (write_cells (os_mem st) (c_void_p addr) data) st)
      else (Exc RuntimeError, st)
  | _, _ => (Exc RuntimeError, st)
  end.
Proof.
  unfold write_bytes. rewrite bind_run, _check_open_run.
  destruct (gm_hproc st), (gm_base_addr st); try done.
  rewrite bind_run, get_state_run.
  by destruct (cells_writable _ _ _).
Qed.

Ltac run :=
  repeat (progress (rewrite ?try_catch_run, ?bind_run, ?lift_run, ?mret_run,
                            ?get_state_run, ?modify_run, ?raise_run;
                    cbn beta iota)).

(** C8: [get_field_value] and [set_field_value] never raise.  On every
    input and in every state both return a value; when the process cannot be
    opened, when the player table is not resolved, when the bytes of the
    field cannot be read and (for the write) when they cannot be written, the
    result is [None] for the read and [False] for the write. *)
Theorem field_access_never_raises (player_index offset start_bit length value : Z)
        (st : State) :
  let addr base := base + player_index * PLAYER_STRIDE cfg + offset in
  let bytes_needed := (start_bit + length + 7) / 8 in
  (exists r st', get_field_value player_index offset start_bit length st = (Val r, st')) /\
  (exists b st', set_field_value player_index offset start_bit length value st = (Val b, st')) /\
  (forall st0, open_process st = (Val false, st0) ->
     get_field_value player_index offset start_bit length st = (Val None, st0) /\
     set_field_value player_index offset start_bit length value st = (Val false, st0)) /\
  (forall st0 st1, open_process st = (Val true, st0) ->
     _resolve_player_table_base st0 = (Val None, st1) ->
     get_field_value player_index offset start_bit length st = (Val None, st1) /\
     set_field_value player_index offset start_bit length value st = (Val false, st1)) /\
  (forall st0 base st1 e st2, open_process st = (Val true, st0) ->
     _resolve_player_table_base st0 = (Val (Some base), st1) ->
     read_bytes (addr base) bytes_needed st1 = (Exc e, st2) ->
     get_field_value player_index offset start_bit length st = (Val None, st2) /\
     exists st', set_field_value player_index offset start_bit length value st
                 = (Val false, st')) /\
  (forall st0 base st1 data st2, open_process st = (Val true, st0) ->
     _resolve_player_table_base st0 = (Val (Some base), st1) ->
     read_bytes (addr base) bytes_needed st1 = (Val data, st2) ->
     cells_writable st2 (c_void_p (addr base)) (Z.to_nat bytes_needed) = false ->
     exists st', set_field_value player_index offset start_bit length value st
                 = (Val false, st')).
Proof.
  intros addr bytes_needed.
  split; [apply try_catch_returns|].
  split; [apply try_catch_returns|].
  split; [|split; [|split]].
  - intros st0 Hopen. split.
    + unfold get_field_value. run. rewrite Hopen. by run.
    + unfold set_field_value. run. rewrite Hopen. by run.
  - intros st0 st1 Hopen Hres. split.
    + unfold get_field_value. run. rewrite Hopen. cbn [negb]. run.
      rewrite Hres. by run.
    + unfold set_field_value. run. rewrite Hopen. cbn [negb]. run.
      rewrite Hres. by run.
  - intros st0 base st1 e st2 Hopen Hres Hread. split.
    + unfold get_field_value. run. rewrite Hopen. cbn [negb]. run.
      rewrite Hres. run. fold (addr base) bytes_needed. rewrite Hread. by run.
    + unfold set_field_value. run. rewrite Hopen. cbn [negb]. run.
      rewrite Hres. run.
      destruct (py_lshift 1 length) as [p|]; [|by eexists].
      run. fold (addr base) bytes_needed. rewrite Hread. by eexists.
  - intros st0 base st1 data st2 Hopen Hres Hread Hw.
    unfold set_field_value. run. rewrite Hopen. cbn [negb]. run.
    rewrite Hres. run.
    destruct (py_lshift 1 length) as [p|]; [|by eexists].
    run. fold (addr base) bytes_needed. rewrite Hread. run.
    destruct (py_lshift (p - 1) start_bit) as [mask|]; [|by eexists].
    run. destruct (py_lshift _ start_bit) as [v|]; [|by eexists].
    run. destruct (to_bytes_little _ _) as [new_bytes|] eqn:Hnb; [|by eexists].
    run.
    assert (Hlen : List.length new_bytes = Z.to_nat bytes_needed).
    { unfold to_bytes_little in Hnb. repeat case_match; try done.
      injection Hnb as <-. apply length_bytes_little. }
    rewrite write_bytes_run.
    destruct (gm_hproc st2), (gm_base_addr st2); try (by eexists).
    rewrite Hlen, Hw. by eexists.
Qed.

(** ** Composing a team label *)

(** C6: what the code does when it composes a team label.  For every team
    pointer and every state the label is the stripped base name when that
    name passes the printability bar, and ["Unknown"] otherwise: the read of
    the era word raises, the handler sets the year to zero, and no year is
    ever appended, whatever the era bits hold. *)
Theorem compose_ignores_era_bits (team_ptr : Z) (st : State) :
  exists base_name st',
    try_catch (s ← read_wstring (team_ptr + OFF_TEAM_NAME cfg) TEAM_NAME_LENGTH;
               mret (strip s)) (mret []) st = (Val base_name, st') /\
    _compose_team_name_from_ptr team_ptr st
    = (Val (if _is_printable_ascii base_name 2 48 then base_name else lit "Unknown"), st').
Proof.
  destruct (try_catch_returns
              (s ← read_wstring (team_ptr + OFF_TEAM_NAME cfg) TEAM_NAME_LENGTH;
               mret (strip s)) [] st) as (base_name & st' & Hname).
  exists base_name, st'. split; [done|].
  unfold _compose_team_name_from_ptr. rewrite bind_run.
  change (@mret M M_ret (list N) []) with (@mret M M_ret pystr []).
  rewrite Hname.
  unfold read_uint16. by run.
Qed.

(** ** Pointer resolution *)

Lemma for_chains_first attempt pre c post st st1 b st2 :
  after_failed attempt pre st = Some st1 ->
  attempt c st1 = (Val (Some b), st2) ->
  for_chains attempt (pre ++ c :: post) st = (Val (Some b), st2).
Proof.
  revert st. induction pre as [|c0 pre IH]; intros st Hpre Hc; simpl in *.
  - injection Hpre as ->. run. rewrite Hc. by run.
  - rewrite bind_run.
    destruct (try_catch (attempt c0) (mret None) st) as [[[b0|]|e] st0]; try done.
    by apply IH.
Qed.

Lemma for_chains_none attempt chains st st1 :
  after_failed attempt chains st = Some st1 ->
  for_chains attempt chains st = (Val None, st1).
Proof.
  revert st. induction chains as [|c chains IH]; intros st Hall; simpl in *.
  - by injection Hall as ->.
  - rewrite bind_run.
    destruct (try_catch (attempt c) (mret None) st) as [[[b0|]|e] st0]; try done.
    by apply IH.
Qed.

Lemma player_attempt_caches base_addr c st b st' :
  player_chain_attempt base_addr c st = (Val (Some b), st') ->
  resolved_player_base st' = Some b.
Proof.
  destruct c as [[rva_off final_off] extra_deref].
  unfold player_chain_attempt. rewrite bind_run.
  destruct (read_uint64 _ st) as [[p|e] s1]; [|done].
  rewrite bind_run.
  destruct ((if extra_deref then read_uint64 p else mret p) s1) as [[p'|e] s2]; [|done].
  rewrite bind_run.
  destruct (validate_player_base (p' + final_off) s2) as [[[]|e] s3]; try done.
  run. by intros [= <- <-].
Qed.

Lemma team_attempt_caches base_addr c st b st' :
  team_chain_attempt base_addr c st = (Val (Some b), st') ->
  resolved_team_base st' = Some b.
Proof.
  destruct c as [[rva_off final_off] extra_deref].
  unfold team_chain_attempt. rewrite bind_run.
  destruct (read_uint64 _ st) as [[p|e] s1]; [|done].
  rewrite bind_run.
  destruct ((if extra_deref then read_uint64 p else mret p) s1) as [[p'|e] s2]; [|done].
  rewrite bind_run.
  destruct (validate_team_base (p' + final_off) s2)
    as [[[]|e] s3]; try done.
  run. by intros [= <- <-].
Qed.

(** C3, amended: with an open process and nothing cached, both resolvers
    try their candidates in list order; the first candidate whose address
    passes the validator is returned and cached, the state being the one
    that candidate left, so that no later candidate is attempted, and a
    second call returns the cached address.  When every candidate fails, the
    player resolver validates the static address module base +
    [PLAYER_TABLE_RVA] before it gives up; the team resolver has no static
    address and returns [None] at once. *)
Theorem resolvers_take_first_valid_candidate (st : State) (base_addr : Z) :
  gm_base_addr st = Some base_addr -> truthy (gm_hproc st) = true ->
  (resolved_player_base st = None ->
     (forall pre c post st1 b st2,
        PLAYER_PTR_CHAINS = pre ++ c :: post ->
        after_failed (player_chain_attempt base_addr) pre st = Some st1 ->
        player_chain_attempt base_addr c st1 = (Val (Some b), st2) ->
        _resolve_player_table_base st = (Val (Some b), st2)
        /\ resolved_player_base st2 = Some b
        /\ _resolve_player_table_base st2 = (Val (Some b), st2)) /\
     (forall st1,
        after_failed (player_chain_attempt base_addr) PLAYER_PTR_CHAINS st = Some st1 ->
        let fallback_addr := base_addr + PLAYER_TABLE_RVA cfg in
        _resolve_player_table_base st
        = match validate_player_base fallback_addr st1 with
          | (Val true, st2) =>
              (Val (Some fallback_addr),
               set_resolved_player_base (Some fallback_addr) st2)
          | (_, st2) => (Val None, st2)
          end)) /\
  (resolved_team_base st = None ->
     (forall pre c post st1 b st2,
        TEAM_PTR_CHAINS = pre ++ c :: post ->
        after_failed (team_chain_attempt base_addr) pre st = Some st1 ->
        team_chain_attempt base_addr c st1 = (Val (Some b), st2) ->
        _resolve_team_base_ptr st = (Val (Some b), st2)
        /\ resolved_team_base st2 = Some b
        /\ _resolve_team_base_ptr st2 = (Val (Some b), st2)) /\
     (forall st1,
        after_failed (team_chain_attempt base_addr) TEAM_PTR_CHAINS st = Some st1 ->
        _resolve_team_base_ptr st = (Val None, st1))).
Proof.
  intros Hbase Hproc. split.
  - intros Hcache. split.
    + intros pre c post st1 b st2 Hsplit Hpre Hc.
      pose proof (player_attempt_caches _ _ _ _ _ Hc) as Hcached.
      split; [|split; [done|]].
      * unfold _resolve_player_table_base. run.
        rewrite Hcache, Hbase, Hproc. cbn [negb]. run.
        rewrite Hsplit, (for_chains_first _ pre c post st st1 b st2 Hpre Hc). by run.
      * unfold _resolve_player_table_base. run. by rewrite Hcached.
    + intros st1 Hall fallback_addr.
      unfold _resolve_player_table_base. run.
      rewrite Hcache, Hbase, Hproc. cbn [negb]. run.
      rewrite (for_chains_none _ _ st st1 Hall). run.
      fold fallback_addr.
      destruct (validate_player_base fallback_addr st1) as [[[]|e] st2]; by run.
  - intros Hcache. split.
    + intros pre c post st1 b st2 Hsplit Hpre Hc.
      pose proof (team_attempt_caches _ _ _ _ _ Hc) as Hcached.
      split; [|split; [done|]].
      * unfold _resolve_team_base_ptr. run.
        rewrite Hcache, Hbase, Hproc. cbn [negb].
        by rewrite Hsplit, (for_chains_first _ pre c post st st1 b st2 Hpre Hc).
      * unfold _resolve_team_base_ptr. run. by rewrite Hcached.
    + intros st1 Hall.
      unfold _resolve_team_base_ptr. run.
      rewrite Hcache, Hbase, Hproc. cbn [negb].
      by apply for_chains_none.
Qed.

(** ** Bytes *)

Lemma byte_val_range b : 0 <= byte_val b < 256.
Proof. unfold byte_val. pose proof (Byte.to_N_bounded b). lia. Qed.

Lemma byte_val_of_Z z : byte_val (byte_of_Z z) = z mod 256.
Proof.
  unfold byte_val, byte_of_Z.
  pose proof (Z.mod_pos_bound z 256 ltac:(lia)) as Hr.
  destruct (Byte.of_N (Z.to_N (z mod 256))) as [b|] eqn:Hb.
  - apply Byte.to_of_N in Hb. rewrite Hb. lia.
  - apply Byte.of_N_None_iff in Hb. lia.
Qed.

Lemma from_bytes_little_range data :
  0 <= from_bytes_little data < 256 ^ Z.of_nat (length data).
Proof.
  induction data as [|b data IH]; [simpl; lia|].
  cbn [from_bytes_little length]. rewrite Nat2Z.inj_succ, Z.pow_succ_r by lia.
  pose proof (byte_val_range b). lia.
Qed.

Lemma from_bytes_little_bytes c n :
  from_bytes_little (bytes_little c n) = c mod 256 ^ Z.of_nat n.
Proof.
  revert c. induction n as [|n IH]; intros c.
  - simpl. by rewrite Z.mod_1_r.
  - cbn [bytes_little from_bytes_little]. rewrite byte_val_of_Z, IH.
    rewrite Nat2Z.inj_succ, Z.pow_succ_r by lia.
    rewrite Z.rem_mul_r; [done|lia|]. apply Z.pow_pos_nonneg; lia.
Qed.

Lemma lookup_bytes_little c n j :
  (j < n)%nat -> bytes_little c n !! j = Some (byte_of_Z (c / 256 ^ Z.of_nat j)).
Proof.
  revert c j. induction n as [|n IH]; intros c [|j] Hj; try lia.
  - simpl. by rewrite Z.div_1_r.
  - cbn [bytes_little]. rewrite lookup_cons. rewrite IH by lia.
    rewrite Nat2Z.inj_succ, Z.pow_succ_r by lia.
    rewrite Z.div_div by (try apply Z.pow_pos_nonneg; lia). done.
Qed.

Lemma testbit_low_high lo hi i :
  0 <= lo < 256 -> 0 <= i ->
  Z.testbit (lo + 256 * hi) i
  = if i <? 8 then Z.testbit lo i else Z.testbit hi (i - 8).
Proof.
  intros Hlo Hi. destruct (Z.ltb_spec i 8) as [H8|H8].
  - rewrite <- (Z.mod_pow2_bits_low (lo + 256 * hi) 8 i) by lia.
    change (2 ^ 8) with 256. f_equal.
    symmetry. apply (Z.mod_unique _ _ hi); lia.
  - replace i with ((i - 8) + 8) at 1 by lia.
    rewrite <- Z.div_pow2_bits by lia. change (2 ^ 8) with 256. f_equal.
    symmetry. apply (Z.div_unique _ _ _ lo); lia.
Qed.

(** Bit [8 j + k] of a little-endian integer is bit [k] of its byte [j]. *)
Lemma testbit_from_bytes data (j : nat) k b :
  data !! j = Some b -> 0 <= k < 8 ->
  Z.testbit (from_bytes_little data) (8 * Z.of_nat j + k) = Z.testbit (byte_val b) k.
Proof.
  revert j. induction data as [|b0 data IH]; intros j Hj Hk; [done|].
  cbn [from_bytes_little]. rewrite testbit_low_high by (try apply byte_val_range; lia).
  destruct j as [|j].
  - simpl in Hj. injection Hj as ->.
    replace (8 * Z.of_nat 0 + k) with k by lia.
    destruct (Z.ltb_spec k 8); [done|lia].
  - simpl in Hj. destruct (Z.ltb_spec (8 * Z.of_nat (S j) + k) 8); [lia|].
    replace (8 * Z.of_nat (S j) + k - 8) with (8 * Z.of_nat j + k) by lia.
    by apply IH.
Qed.

Lemma testbit_byte_of_div c (j : nat) k :
  0 <= k < 8 ->
  Z.testbit (byte_val (byte_of_Z (c / 256 ^ Z.of_nat j))) k
  = Z.testbit c (8 * Z.of_nat j + k).
Proof.
  intros Hk. rewrite byte_val_of_Z. change 256 with (2 ^ 8).
  rewrite Z.mod_pow2_bits_low by lia.
  rewrite <- Z.pow_mul_r by lia.
  rewrite Z.div_pow2_bits by lia. f_equal. lia.
Qed.

(** ** Cells *)

Lemma read_cells_lookup m a n bs :
  read_cells m a n = Some bs ->
  length bs = n /\ forall j, (j < n)%nat -> m !! (a + Z.of_nat j) = bs !! j.
Proof.
  revert a bs. induction n as [|n IH]; intros a bs; simpl.
  - intros [= <-]. split; [done|]. lia.
  - destruct (m !! a) as [b|] eqn:Hb; [|done].
    destruct (read_cells m (a + 1) n) as [bs'|] eqn:Hrest; [|done].
    intros [= <-]. destruct (IH _ _ Hrest) as [Hlen Hj]. split; [simpl; lia|].
    intros [|j] Hlt.
    + simpl. by rewrite Z.add_0_r.
    + simpl. rewrite <- Hj by lia. f_equal. lia.
Qed.

Lemma read_cells_complete m a n bs :
  length bs = n -> (forall j, (j < n)%nat -> m !! (a + Z.of_nat j) = bs !! j) ->
  read_cells m a n = Some bs.
Proof.
  revert a bs. induction n as [|n IH]; intros a bs Hlen Hj; simpl.
  - by destruct bs.
  - destruct bs as [|b bs]; [done|].
    pose proof (Hj O ltac:(lia)) as H0. rewrite Z.add_0_r in H0. simpl in H0.
    rewrite H0. rewrite (IH (a + 1) bs).
    + done.
    + simpl in Hlen. lia.
    + intros j Hlt. specialize (Hj (S j) ltac:(lia)). simpl in Hj.
      rewrite <- Hj. f_equal. lia.
Qed.

Lemma write_cells_lookup m a bs x :
  write_cells m a bs !! x
  = if decide (a <= x < a + Z.of_nat (length bs))
    then bs !! Z.to_nat (x - a) else m !! x.
Proof.
  revert m a. induction bs as [|b bs IH]; intros m a; simpl.
  - case_decide; [lia|done].
  - rewrite IH. repeat case_decide; try lia.
    + replace (Z.to_nat (x - a)) with (S (Z.to_nat (x - (a + 1)))) by lia. done.
    + assert (x = a) as -> by lia. rewrite Z.sub_diag. simpl.
      by rewrite lookup_insert_eq.
    + rewrite lookup_insert_ne by lia. done.
Qed.

(** ** What reads leave untouched *)

Lemma same_process_refl st : same_process st st.
Proof. by repeat split. Qed.

Lemma same_process_trans st1 st2 st3 :
  same_process st1 st2 -> same_process st2 st3 -> same_process st1 st3.
Proof. unfold same_process. intros H1 H2. destruct_and!. repeat split; congruence. Qed.

Lemma preserving_ret {A} (a : A) : preserving (mret a : M A).
Proof. intros st r st' [= <- <-]. apply same_process_refl. Qed.

Lemma preserving_raise {A} e : preserving (@raise A e).
Proof. intros st r st' [= <- <-]. apply same_process_refl. Qed.

Lemma preserving_lift {A} (x : res A) : preserving (lift x).
Proof. intros st r st' [= <- <-]. apply same_process_refl. Qed.

Lemma preserving_get_state : preserving get_state.
Proof. intros st r st' [= <- <-]. apply same_process_refl. Qed.

Lemma preserving_bind {A B} (m : M A) (f : A -> M B) :
  preserving m -> (forall a, preserving (f a)) -> preserving (m ≫= f).
Proof.
  intros Hm Hf st r st'. rewrite bind_run.
  destruct (m st) as [[a|e] s1] eqn:E.
  - intros H. eapply same_process_trans; [by eapply Hm|by eapply Hf].
  - intros [= <- <-]. by eapply Hm.
Qed.

Lemma preserving_try {A} (body handler : M A) :
  preserving body -> preserving handler -> preserving (try_catch body handler).
Proof.
  intros Hb Hh st r st'. rewrite try_catch_run.
  destruct (body st) as [[a|e] s1] eqn:E.
  - intros [= <- <-]. by eapply Hb.
  - intros H. eapply same_process_trans; [by eapply Hb|by eapply Hh].
Qed.

Lemma preserving_modify f :
  (forall st, same_process st (f st)) -> preserving (modify f).
Proof. intros Hf st r st' [= <- <-]. apply Hf. Qed.

Lemma preserving_if {A} (b : bool) (m1 m2 : M A) :
  preserving m1 -> preserving m2 -> preserving (if b then m1 else m2).
Proof. by destruct b. Qed.

Lemma preserving_read_bytes addr length : preserving (read_bytes addr length).
Proof.
  intros st r st'. rewrite read_bytes_run.
  destruct (gm_hproc st), (gm_base_addr st);
    try (intros [= <- <-]; apply same_process_refl).
  destruct (length <? 0); [intros [= <- <-]; apply same_process_refl|].
  destruct (read_cells _ _ _); intros [= <- <-]; by repeat split.
Qed.

Lemma preserving_read_uint64 addr : preserving (read_uint64 addr).
Proof.
  apply preserving_bind; [apply preserving_read_bytes|].
  intros a. apply preserving_ret.
Qed.

Lemma preserving_read_uint32 addr : preserving (read_uint32 addr).
Proof.
  apply preserving_bind; [apply preserving_read_bytes|].
  intros a. apply preserving_ret.
Qed.

Lemma preserving_read_wstring addr n : preserving (read_wstring addr n).
Proof.
  apply preserving_bind; [apply preserving_read_bytes|].
  intros a. apply preserving_ret.
Qed.

Lemma preserving_validate_player_base b : preserving (validate_player_base b).
Proof.
  unfold validate_player_base.
  apply preserving_bind.
  { apply preserving_bind; [apply preserving_read_wstring|].
    intros s. apply preserving_ret. }
  intros ln. apply preserving_bind.
  { apply preserving_bind; [apply preserving_read_wstring|].
    intros s. apply preserving_ret. }
  intros fn. apply preserving_ret.
Qed.

Lemma preserving_player_chain_attempt base_addr c :
  preserving (player_chain_attempt base_addr c).
Proof.
  destruct c as [[rva_off final_off] extra_deref].
  unfold player_chain_attempt.
  apply preserving_bind; [apply preserving_read_uint64|]. intros p.
  apply preserving_bind.
  { destruct extra_deref; [apply preserving_read_uint64|apply preserving_ret]. }
  intros p'. apply preserving_bind; [apply preserving_validate_player_base|].
  intros [|]; [|apply preserving_ret].
  apply preserving_bind; [|intros ?; apply preserving_ret].
  apply preserving_modify. intros st. by repeat split.
Qed.

Lemma preserving_for_chains attempt chains :
  (forall c, preserving (attempt c)) -> preserving (for_chains attempt chains).
Proof.
  intros Ha. induction chains as [|c chains IH]; simpl.
  - apply preserving_ret.
  - apply preserving_bind.
    + apply preserving_try; [apply Ha|apply preserving_ret].
    + intros [b|]; [apply preserving_ret|apply IH].
Qed.

Lemma preserving_resolve_player : preserving _resolve_player_table_base.
Proof.
  unfold _resolve_player_table_base.
  apply preserving_bind; [apply preserving_get_state|]. intros s.
  destruct (resolved_player_base s); [apply preserving_ret|].
  destruct (gm_base_addr s) as [base_addr|]; [|apply preserving_ret].
  destruct (negb (truthy (gm_hproc s))); [apply preserving_ret|].
  apply preserving_bind.
  { apply preserving_for_chains. intros c. apply preserving_player_chain_attempt. }
  intros [b|]; [apply preserving_ret|].
  apply preserving_try; [|apply preserving_ret].
  apply preserving_bind; [apply preserving_validate_player_base|].
  intros [|]; [|apply preserving_ret].
  apply preserving_bind; [|intros ?; apply preserving_ret].
  apply preserving_modify. intros st. by repeat split.
Qed.

Lemma for_chains_caches base_addr chains st b st' :
  for_chains (player_chain_attempt base_addr) chains st = (Val (Some b), st') ->
  resolved_player_base st' = Some b.
Proof.
  revert st. induction chains as [|c chains IH]; intros st; simpl; [done|].
  rewrite bind_run, try_catch_run.
  destruct (player_chain_attempt base_addr c st) as [[[b0|]|e] s1] eqn:E; run.
  - intros [= <- <-]. by eapply player_attempt_caches.
  - apply IH.
  - apply IH.
Qed.

Lemma resolve_player_caches st b st' :
  _resolve_player_table_base st = (Val (Some b), st') ->
  resolved_player_base st' = Some b.
Proof.
  unfold _resolve_player_table_base. run.
  destruct (resolved_player_base st) as [b0|] eqn:Hc.
  { run. by intros [= <- <-]. }
  destruct (gm_base_addr st) as [base_addr|]; [|by run].
  destruct (negb (truthy (gm_hproc st))); [by run|].
  run. destruct (for_chains _ _ st) as [[[b0|]|e] s1] eqn:E; run.
  - intros [= <- <-]. by eapply for_chains_caches.
  - destruct (validate_player_base _ s1) as [[[]|e] s2]; run; try done.
    by intros [= <- <-].
  - done.
Qed.

Lemma resolve_player_cached st b :
  resolved_player_base st = Some b ->
  _resolve_player_table_base st = (Val (Some b), st).
Proof. intros H. unfold _resolve_player_table_base. run. by rewrite H. Qed.

(** ** Attaching *)

Lemma open_process_true st st0 :
  open_process st = (Val true, st0) ->
  attached_ok st0 /\ os_mem st0 = os_mem st /\ os_writable st0 = os_writable st.
Proof.
  unfold open_process. run.
  destruct (os_win32 st) eqn:Hw; cbn [negb]; [|by unfold close; run].
  unfold find_pid at 1. run.
  destruct (os_pid st) as [p|] eqn:Hp; [|by unfold close; run].
  destruct (bool_decide (gm_pid st = Some p) && truthy (gm_hproc st)) eqn:Hsame.
  - run. intros [= <-]. apply andb_true_iff in Hsame as [H1 H2].
    apply bool_decide_eq_true in H1. repeat split; try done. by exists p.
  - unfold close. run. cbn [os_handle set_gm].
    destruct (truthy (os_handle st)) eqn:Hh; cbn [negb]; run; [|done].
    cbn [os_module_base set_gm].
    destruct (os_module_base st) as [base|]; run; [|done].
    intros [= <-]. repeat split; try done. by exists p.
Qed.

Lemma open_process_attached st : attached_ok st -> open_process st = (Val true, st).
Proof.
  intros (Hw & p & Hp & Hg & Hh). unfold open_process. run.
  rewrite Hw. cbn [negb]. unfold find_pid. run. rewrite Hp, Hg, Hh.
  by rewrite bool_decide_eq_true_2.
Qed.

Lemma attached_ok_same st st' : same_process st st' -> attached_ok st -> attached_ok st'.
Proof.
  unfold same_process, attached_ok. intros Hs (Hw & p & Hp & Hg & Hh).
  destruct_and!. split; [congruence|]. exists p. repeat split; congruence.
Qed.

(** ** Bit fields *)

Lemma shiftl_one_ones len : 0 <= len -> Z.shiftl 1 len - 1 = Z.ones len.
Proof. intros. unfold Z.ones. lia. Qed.

Lemma testbit_field_mask sb len i :
  0 <= sb -> 0 <= len -> 0 <= i ->
  Z.testbit (Z.shiftl (Z.shiftl 1 len - 1) sb) i = (sb <=? i) && (i <? sb + len).
Proof.
  intros Hsb Hlen Hi. rewrite shiftl_one_ones, Z.shiftl_spec by lia.
  destruct (Z.leb_spec sb i) as [Hle|Hlt].
  - rewrite Z.testbit_ones_nonneg by lia. simpl.
    destruct (Z.ltb_spec (i - sb) len), (Z.ltb_spec i (sb + len)); lia || done.
  - by rewrite Z.testbit_neg_r by lia.
Qed.

(** The word written back: the field holds [value], every other bit is kept. *)
Lemma testbit_field_update current value sb len i :
  0 <= sb -> 0 <= len -> 0 <= i ->
  Z.testbit (Z.lor (Z.land current (Z.lnot (Z.shiftl (Z.shiftl 1 len - 1) sb)))
                   (Z.land (Z.shiftl value sb) (Z.shiftl (Z.shiftl 1 len - 1) sb))) i
  = if (sb <=? i) && (i <? sb + len) then Z.testbit value (i - sb)
    else Z.testbit current i.
Proof.
  intros Hsb Hlen Hi.
  rewrite Z.lor_spec, !Z.land_spec, Z.lnot_spec, testbit_field_mask by lia.
  rewrite Z.shiftl_spec by lia.
  destruct ((sb <=? i) && (i <? sb + len)); simpl.
  - by rewrite andb_false_r, andb_true_r.
  - by rewrite andb_true_r, andb_false_r, orb_false_r.
Qed.

Lemma field_extract current value sb len :
  0 <= sb -> 0 <= len -> 0 <= value <= Z.shiftl 1 len - 1 ->
  Z.land (Z.shiftr
            (Z.lor (Z.land current (Z.lnot (Z.shiftl (Z.shiftl 1 len - 1) sb)))
                   (Z.land (Z.shiftl value sb) (Z.shiftl (Z.shiftl 1 len - 1) sb))) sb)
         (Z.shiftl 1 len - 1) = value.
Proof.
  intros Hsb Hlen Hv. apply Z.bits_inj'. intros i Hi.
  rewrite Z.land_spec, Z.shiftr_spec, testbit_field_update by lia.
  rewrite shiftl_one_ones, Z.testbit_ones_nonneg by lia.
  replace (i + sb - sb) with i by lia.
  destruct (Z.ltb_spec i len) as [Hlt|Hge].
  - replace ((sb <=? i + sb) && (i + sb <? sb + len)) with true.
    + by rewrite andb_true_r.
    + symmetry. apply andb_true_iff. split; lia.
  - rewrite andb_false_r. symmetry.
    rewrite shiftl_one_ones in Hv by lia. unfold Z.ones in Hv.
    rewrite Z.shiftl_1_l in Hv.
    destruct (Z.eq_dec value 0) as [->|Hnz]; [apply Z.bits_0|].
    apply Z.bits_above_log2; [lia|].
    assert (Z.log2 value < len); [|lia].
    apply Z.log2_lt_pow2; lia.
Qed.

(** ** Writing a field and reading it back *)

(** After a write that reports success, the read with the same descriptor
    returns the clamped value, and the bits outside the field are as they
    were. *)
Lemma written_field_read_back (player_index offset start_bit length value : Z)
      (st st' : State) :
  set_field_value player_index offset start_bit length value st = (Val true, st') ->
  exists base,
    resolved_player_base st' = Some base /\
    (exists st'',
       get_field_value player_index offset start_bit length st'
       = (Val (Some (Z.max 0 (Z.min (2 ^ length - 1) value))), st'')) /\
    (forall a k, 0 <= k < 8 ->
       let first := c_void_p (base + player_index * PLAYER_STRIDE cfg + offset) in
       ~ (8 * first + start_bit <= 8 * a + k < 8 * first + start_bit + length) ->
       bit_at (os_mem st') a k = bit_at (os_mem st) a k).
Proof.
  unfold set_field_value. run.
  destruct (open_process st) as [[[|]|e0] s0] eqn:Hopen; cbn [negb]; run; try done.
  destruct (_resolve_player_table_base s0) as [[[base|]|e1] s1] eqn:Hres; run; try done.
  unfold py_lshift at 1.
  destruct (Z.ltb_spec length 0) as [|Hlen]; run; [done|].
  set (addr := base + player_index * PLAYER_STRIDE cfg + offset).
  set (n := (start_bit + length + 7) / 8).
  destruct (read_bytes addr n s1) as [[data|e2] s2] eqn:Hread; run; [|done].
  unfold py_lshift at 1.
  destruct (Z.ltb_spec length 0) as [|_]; [lia|]. run.
  unfold py_lshift at 1.
  destruct (Z.ltb_spec start_bit 0) as [|Hsb]; run; [done|].
  unfold py_lshift at 1.
  destruct (Z.ltb_spec start_bit 0) as [|_]; [lia|]. run.
  set (v := Z.max 0 (Z.min (Z.shiftl 1 length - 1) value)).
  set (mask := Z.shiftl (Z.shiftl 1 length - 1) start_bit).
  set (current := from_bytes_little data).
  set (current' := Z.lor (Z.land current (Z.lnot mask)) (Z.land (Z.shiftl v start_bit) mask)).
  unfold to_bytes_little.
  destruct (Z.ltb_spec n 0) as [|Hn]; run; [done|].
  destruct (Z.ltb_spec current' 0) as [|Hc0]; run; [done|].
  destruct (Z.leb_spec (256 ^ n) current') as [|Hc1]; run; [done|].
  set (new_bytes := bytes_little current' (Z.to_nat n)).
  destruct (write_bytes addr new_bytes s2) as [[[]|e3] s3] eqn:Hwrite; run; [|done].
  intros [= <-].
  (* what each step did to the state *)
  apply open_process_true in Hopen as (Hatt0 & Hmem0 & _).
  pose proof (preserving_resolve_player _ _ _ Hres) as Hsame1.
  pose proof (resolve_player_caches _ _ _ Hres) as Hcache1.
  pose proof (preserving_read_bytes _ _ _ _ _ Hread) as Hsame2.
  rewrite read_bytes_run in Hread.
  destruct (gm_hproc s1) as [h|] eqn:Hh1; [|done].
  destruct (gm_base_addr s1) as [mb|] eqn:Hb1; [|done].
  destruct (Z.ltb_spec n 0) as [|_]; [lia|].
  destruct (read_cells (os_mem s1) (c_void_p addr) (Z.to_nat n)) as [bs|] eqn:Hcells; [|done].
  injection Hread as -> <-.
  rewrite write_bytes_run in Hwrite. cbn [gm_hproc gm_base_addr log_read] in Hwrite.
  rewrite Hh1, Hb1 in Hwrite.
  destruct (cells_writable _ _ _); [|done]. injection Hwrite as <-.
  cbn [os_mem set_mem log_read resolved_player_base].
  apply read_cells_lookup in Hcells as [Hdlen Hdata].
  assert (Hnb : List.length new_bytes = Z.to_nat n) by apply length_bytes_little.
  assert (Hp : Z.shiftl 1 length = 2 ^ length) by (by rewrite Z.shiftl_1_l).
  assert (Hv : 0 <= v <= Z.shiftl 1 length - 1).
  { unfold v. assert (0 < 2 ^ length) by (apply Z.pow_pos_nonneg; lia). lia. }
  exists base. split; [done|]. split.
  - (* reading back *)
    set (st2 := set_mem _ _).
    assert (Hatt2 : attached_ok st2).
    { exact (attached_ok_same _ _ Hsame1 Hatt0). }
    unfold get_field_value. run.
    rewrite (open_process_attached st2 Hatt2). cbn [negb]. run.
    rewrite (resolve_player_cached st2 base) by done. run.
    fold addr n. rewrite read_bytes_run. subst st2.
    cbn [gm_hproc gm_base_addr set_mem log_read]. rewrite Hh1, Hb1.
    destruct (Z.ltb_spec n 0) as [|_]; [lia|].
    cbn [os_mem set_mem log_read].
    rewrite (read_cells_complete _ _ _ new_bytes Hnb).
    2:{ intros j Hj. rewrite write_cells_lookup, Hnb.
        rewrite decide_True by lia. f_equal. lia. }
    run. unfold py_rshift, py_lshift.
    destruct (Z.ltb_spec start_bit 0) as [|_]; [lia|]. run.
    destruct (Z.ltb_spec length 0) as [|_]; [lia|]. run.
    eexists. f_equal. f_equal. f_equal.
    unfold new_bytes. rewrite from_bytes_little_bytes.
    rewrite Z.mod_small by (rewrite Z2Nat.id by lia; lia).
    rewrite <- Hp. fold v. by apply field_extract.
  - (* everything else is kept *)
    intros a k Hk Hout. unfold bit_at.
    destruct Hsame1 as (_ & _ & _ & _ & Hm1 & _).
    rewrite write_cells_lookup, Hnb, Hm1, Hmem0.
    case_decide as Hin; [|done].
    set (j := Z.to_nat (a - c_void_p addr)).
    assert (Hj : (j < Z.to_nat n)%nat) by lia.
    assert (Ha : a = c_void_p addr + Z.of_nat j) by lia.
    unfold new_bytes. rewrite lookup_bytes_little by done.
    rewrite Ha, <- Hmem0, <- Hm1, Hdata by done.
    destruct (data !! j) as [b|] eqn:Hbj.
    2:{ apply lookup_ge_None in Hbj. lia. }
    simpl. f_equal. rewrite testbit_byte_of_div by done.
    rewrite <- (testbit_from_bytes data j k b Hbj Hk).
    unfold current'. fold mask. unfold mask.
    rewrite testbit_field_update by lia.
    replace ((start_bit <=? 8 * Z.of_nat j + k) && (8 * Z.of_nat j + k <? start_bit + length))
      with false; [done|].
    symmetry. apply andb_false_iff. fold addr in Hout. lia.
Qed.

(** ** When a write succeeds *)

Lemma cells_writable_log_read addr len st a n :
  cells_writable (log_read addr len st) a n = cells_writable st a n.
Proof.
  revert a. induction n as [|n IH]; intros a; simpl; [done|]. by rewrite IH.
Qed.

Lemma cells_writable_read st a n :
  cells_writable st a n = true -> exists bs, read_cells (os_mem st) a n = Some bs.
Proof.
  revert a. induction n as [|n IH]; intros a; simpl; [by eexists|].
  intros H. apply andb_true_iff in H as [H Hrest].
  apply andb_true_iff in H as [Hm _].
  apply bool_decide_eq_true in Hm as [b Hb]. destruct (IH _ Hrest) as [bs Hbs].
  rewrite Hb, Hbs. by eexists.
Qed.

Lemma below_pow2 x k :
  0 <= x -> 0 <= k -> (forall i, k <= i -> Z.testbit x i = false) -> x < 2 ^ k.
Proof.
  intros Hx Hk Hbits.
  destruct (Z.eq_dec x 0) as [->|Hnz]; [apply Z.pow_pos_nonneg; lia|].
  apply Z.log2_lt_pow2; [lia|].
  destruct (Z.lt_ge_cases (Z.log2 x) k) as [|Hge]; [done|].
  pose proof (Z.bit_log2 x ltac:(lia)) as Hb. by rewrite Hbits in Hb.
Qed.

(** The write succeeds on an attached process with a resolved player table
    whenever the bytes that cover the field are mapped and writable. *)
Lemma set_field_value_succeeds (player_index offset start_bit length value : Z)
      (st : State) (base : Z) :
  attached_ok st -> gm_base_addr st <> None ->
  resolved_player_base st = Some base ->
  0 <= start_bit -> 0 <= length ->
  cells_writable st (c_void_p (base + player_index * PLAYER_STRIDE cfg + offset))
                 (Z.to_nat ((start_bit + length + 7) / 8)) = true ->
  exists st',
    set_field_value player_index offset start_bit length value st = (Val true, st').
Proof.
  intros Hatt Hb Hres Hsb Hlen Hw.
  unfold set_field_value. run.
  rewrite (open_process_attached st Hatt). cbn [negb]. run.
  rewrite (resolve_player_cached st base Hres). run.
  unfold py_lshift.
  destruct (Z.ltb_spec length 0) as [|_]; [lia|].
  destruct (Z.ltb_spec start_bit 0) as [|_]; [lia|]. run.
  set (addr := base + player_index * PLAYER_STRIDE cfg + offset) in *.
  set (n := (start_bit + length + 7) / 8) in *.
  assert (Hn : 0 <= n) by (apply Z.div_pos; lia).
  assert (H8n : start_bit + length <= 8 * n).
  { pose proof (Z.div_mod (start_bit + length + 7) 8 ltac:(lia)).
    pose proof (Z.mod_pos_bound (start_bit + length + 7) 8 ltac:(lia)). lia. }
  rewrite read_bytes_run.
  destruct Hatt as (_ & p & _ & _ & Hh).
  destruct (gm_hproc st) as [h|] eqn:Hh'; [|done].
  destruct (gm_base_addr st) as [mb|] eqn:Hb'; [|done].
  destruct (Z.ltb_spec n 0) as [|_]; [lia|].
  destruct (cells_writable_read _ _ _ Hw) as [data Hdata]. rewrite Hdata. run.
  apply read_cells_lookup in Hdata as [Hdlen _].
  set (v := Z.max 0 (Z.min (Z.shiftl 1 length - 1) value)).
  set (mask := Z.shiftl (Z.shiftl 1 length - 1) start_bit).
  set (current := from_bytes_little data).
  set (current' := Z.lor (Z.land current (Z.lnot mask)) (Z.land (Z.shiftl v start_bit) mask)).
  pose proof (from_bytes_little_range data) as Hcur. fold current in Hcur.
  rewrite Hdlen, Z2Nat.id in Hcur by lia.
  assert (Hpow : 256 ^ n = 2 ^ (8 * n)).
  { change 256 with (2 ^ 8). by rewrite <- Z.pow_mul_r by lia. }
  assert (Hp : Z.shiftl 1 length = 2 ^ length) by (by rewrite Z.shiftl_1_l).
  assert (Hv : 0 <= v).
  { unfold v. lia. }
  assert (Hmask : 0 <= mask).
  { unfold mask. apply Z.shiftl_nonneg. rewrite Hp.
    assert (0 < 2 ^ length) by (apply Z.pow_pos_nonneg; lia). lia. }
  assert (Hc0 : 0 <= current').
  { unfold current'. apply Z.lor_nonneg. split.
    - apply Z.land_nonneg. left. lia.
    - apply Z.land_nonneg. right. done. }
  assert (Hc1 : current' < 256 ^ n).
  { rewrite Hpow. apply below_pow2; [done|lia|]. intros i Hi.
    unfold current', mask. rewrite testbit_field_update by lia.
    replace ((start_bit <=? i) && (i <? start_bit + length)) with false.
    - destruct (Z.eq_dec current 0) as [->|Hnz]; [apply Z.bits_0|].
      apply Z.bits_above_log2; [lia|].
      assert (Z.log2 current < 8 * n); [|lia].
      apply Z.log2_lt_pow2; lia.
    - symmetry. apply andb_false_iff. right. apply Z.ltb_ge. lia. }
  unfold to_bytes_little.
  destruct (Z.ltb_spec n 0) as [|_]; [lia|].
  destruct (Z.ltb_spec current' 0) as [|_]; [lia|].
  destruct (Z.leb_spec (256 ^ n) current') as [|_]; [lia|]. run.
  rewrite write_bytes_run. cbn [gm_hproc gm_base_addr log_read].
  rewrite Hh', Hb', length_bytes_little, cells_writable_log_read, Hw.
  by eexists.
Qed.

(** C1: writing a field and reading it back.  For every player index,
    offset, start bit, width and value: on an attached process with a
    resolved player table, [set_field_value] reports success whenever the
    bytes that cover the field are mapped and writable; and whenever it
    reports success, [get_field_value] with the same descriptor returns the
    value clamped to 0..2^length - 1, and every bit of memory outside the
    [length] bits that begin at bit [start_bit] of the byte at [offset] of
    the record is as it was before the write. *)
Theorem set_then_get_field (player_index offset start_bit length value : Z)
        (st : State) :
  (forall base,
     attached_ok st -> gm_base_addr st <> None ->
     resolved_player_base st = Some base ->
     0 <= start_bit -> 0 <= length ->
     cells_writable st (c_void_p (base + player_index * PLAYER_STRIDE cfg + offset))
                    (Z.to_nat ((start_bit + length + 7) / 8)) = true ->
     exists st',
       set_field_value player_index offset start_bit length value st = (Val true, st')) /\
  (forall st',
     set_field_value player_index offset start_bit length value st = (Val true, st') ->
     exists base,
       resolved_player_base st' = Some base /\
       (exists st'',
          get_field_value player_index offset start_bit length st'
          = (Val (Some (Z.max 0 (Z.min (2 ^ length - 1) value))), st'')) /\
       (forall a k, 0 <= k < 8 ->
          let first := c_void_p (base + player_index * PLAYER_STRIDE cfg + offset) in
          ~ (8 * first + start_bit <= 8 * a + k < 8 * first + start_bit + length) ->
          bit_at (os_mem st') a k = bit_at (os_mem st) a k)).
Proof.
  split.
  - intros base. apply set_field_value_succeeds.
  - intros st'. apply written_field_read_back.
Qed.

(** ** The scan and its heuristic *)

Lemma in_allowed_spec ch : in_allowed ch = true <-> ch ∈ allowed.
Proof.
  unfold in_allowed. rewrite existsb_exists. split.
  - intros (x & Hin & Heq). apply N.eqb_eq in Heq as ->. by apply list_elem_of_In.
  - intros Hin. exists ch. split; [by apply list_elem_of_In|apply N.eqb_refl].
Qed.

Lemma has_junk_spec p :
  existsb (fun ch => negb (in_allowed ch)) (first_name p ++ last_name p) = true
  <-> name_has_junk p.
Proof.
  unfold name_has_junk. rewrite existsb_exists, Exists_exists. split.
  - intros (ch & Hin & Hj). exists ch. split; [by apply list_elem_of_In|].
    rewrite <- in_allowed_spec. by destruct (in_allowed ch).
  - intros (ch & Hin & Hj). exists ch. split; [by apply list_elem_of_In|].
    rewrite <- in_allowed_spec in Hj. by destruct (in_allowed ch).
Qed.

Lemma junk_count players :
  length (List.filter (fun p => existsb (fun ch => negb (in_allowed ch))
                                        (first_name p ++ last_name p)) players)
  = junk_records players.
Proof.
  unfold junk_records. induction players as [|p players IH]; [done|].
  cbn [List.filter]. rewrite filter_cons.
  destruct (existsb _ _) eqn:E.
  - rewrite decide_True by (by apply has_junk_spec). simpl. by rewrite IH.
  - rewrite decide_False; [done|]. intros H. apply has_junk_spec in H. congruence.
Qed.

Lemma sanity_filter_spec players :
  sanity_filter players
  = if decide (length players < 2 * junk_records players)%nat then [] else players.
Proof.
  unfold sanity_filter. destruct players as [|p players].
  { by case_decide. }
  rewrite junk_count.
  destruct (Z.ltb_spec (Z.of_nat (length (p :: players)))
                       (2 * Z.of_nat (junk_records (p :: players))));
    case_decide; try lia; done.
Qed.

Lemma scan_player_slot_returns table_base i st :
  exists r st', scan_player_slot table_base i st = (Val r, st').
Proof.
  unfold scan_player_slot. rewrite bind_run.
  match goal with |- context [try_catch ?b (mret ?d) st] =>
    destruct (try_catch_returns b d st) as (names & s1 & ->) end.
  destruct names as [[[ln fn] fid]|]; [|by eexists _, _].
  destruct ln as [|c ln]; [destruct fn as [|c fn]|]; try (by eexists _, _).
  - rewrite bind_run.
    match goal with |- context [try_catch ?b (mret ?d) s1] =>
      destruct (try_catch_returns b d s1) as (t & s2 & ->) end.
    by eexists _, _.
  - rewrite bind_run.
    match goal with |- context [try_catch ?b (mret ?d) s1] =>
      destruct (try_catch_returns b d s1) as (t & s2 & ->) end.
    by eexists _, _.
Qed.

Lemma scan_player_slots_returns table_base idxs st :
  exists players st', scan_player_slots table_base idxs st = (Val players, st').
Proof.
  revert st. induction idxs as [|i idxs IH]; intros st; simpl.
  - by eexists _, _.
  - rewrite bind_run.
    destruct (scan_player_slot_returns table_base i st) as (r & s1 & ->).
    rewrite bind_run. destruct (IH s1) as (players & s2 & ->).
    by eexists _, _.
Qed.

(** C4, amended: with an open process and a resolved player table,
    [_scan_all_players] returns the empty list when more than half of the
    accepted records have a name with a character outside the baseline set
    (the letters, the space, the hyphen and the apostrophe), and the full
    list of accepted records otherwise.  Records are counted, not
    characters. *)
Theorem scan_rejects_by_majority_of_records (max_scan : Z) (st : State)
        (table_base : Z) (st1 : State) :
  truthy (gm_hproc st) = true -> gm_base_addr st <> None ->
  _resolve_player_table_base st = (Val (Some table_base), st1) ->
  exists players st2,
    scan_player_slots table_base (seqZ 0 max_scan) st1 = (Val players, st2) /\
    _scan_all_players max_scan st
    = (Val (if decide (length players < 2 * junk_records players)%nat
            then [] else players), st2).
Proof.
  intros Hproc Hbase Hres.
  destruct (scan_player_slots_returns table_base (seqZ 0 max_scan) st1)
    as (players & st2 & Hscan).
  exists players, st2. split; [done|].
  unfold _scan_all_players. run. rewrite Hproc.
  rewrite bool_decide_eq_false_2 by done. cbn [negb orb]. run.
  rewrite Hres. run. rewrite Hscan. run. by rewrite sanity_filter_spec.
Qed.

(** ** Running a computation on a concrete state *)

(** A run is determined by its result and the state it leaves. *)
Lemma run_eta {A} (m : M A) (st : State) (r : res A) :
  fst (m st) = r -> m st = (r, snd (m st)).
Proof. intros <-. apply surjective_pairing. Qed.

Lemma some_eta {A} (o : option A) (d : A) :
  (if o is Some _ then true else false) = true -> o = Some (default d o).
Proof. by destruct o. Qed.

(** * Further properties *)

(** ** Codec: the encoders *)

Lemma clamp_raw_bounds (raw_val max_raw : Z) :
  0 < max_raw ->
  0 <= (if raw_val <? 0 then 0 else if max_raw <? raw_val then max_raw else raw_val)
    <= max_raw.
Proof.
  intros. destruct (Z.ltb_spec raw_val 0); [lia|].
  destruct (Z.ltb_spec max_raw raw_val); lia.
Qed.

(** X1: Both encoders return on every number, NaN and the infinities included,
    and what they return fits the field: it lies between 0 and
    [2^length - 1], and is 0 when the field has no bits. *)
Theorem encoders_fit_the_field (rating : num) (length : Z) :
  (exists raw, convert_rating_to_raw rating length = Val raw
               /\ 0 <= raw <= Z.max 0 (2 ^ length - 1)) /\
  (exists raw, convert_rating_to_tendency_raw rating length = Val raw
               /\ 0 <= raw <= Z.max 0 (2 ^ length - 1)).
Proof.
  assert (Hzero : 0 <= 0 <= Z.max 0 (2 ^ length - 1)) by lia.
  split.
  - unfold convert_rating_to_raw, py_lshift.
    destruct (Z.ltb_spec length 0); res_simpl; [by eexists|].
    rewrite Z.shiftl_1_l.
    destruct (Z.leb_spec (2 ^ length - 1) 0); res_simpl; [by eexists|].
    destruct (to_float rating) as [f|]; res_simpl; [|by eexists].
    destruct (py_sub _ _) as [d|]; res_simpl; [|by eexists].
    destruct (py_truediv _ _) as [q|]; res_simpl; [|by eexists].
    destruct (py_mul _ _) as [m|]; res_simpl; [|by eexists].
    destruct (py_round m) as [raw_val|]; res_simpl; [|by eexists].
    eexists. split; [done|].
    pose proof (clamp_raw_bounds raw_val (2 ^ length - 1) ltac:(lia)). lia.
  - unfold convert_rating_to_tendency_raw, py_lshift.
    destruct (Z.ltb_spec length 0); res_simpl; [by eexists|].
    rewrite Z.shiftl_1_l.
    destruct (Z.leb_spec (2 ^ length - 1) 0); res_simpl; [by eexists|].
    destruct (to_float rating) as [f|]; res_simpl; [|by eexists].
    destruct (py_truediv _ _) as [q|]; res_simpl; [|by eexists].
    destruct (py_mul _ _) as [m|]; res_simpl; [|by eexists].
    destruct (py_round m) as [raw_val|]; res_simpl; [|by eexists].
    eexists. split; [done|].
    pose proof (clamp_raw_bounds raw_val (2 ^ length - 1) ltac:(lia)). lia.
Qed.

(** ** Codec: lossless round trips *)

Lemma dy_compare_both_scaled r e k e' :
  e <= 0 -> e' <= 0 ->
  dy_compare (r * 2 ^ (- e), e) (k * 2 ^ (- e'), e') = (r ?= k).
Proof.
  intros He He'. unfold dy_compare.
  set (m := Z.min e e').
  assert (H1 : r * 2 ^ (- e) * 2 ^ (e - m) = r * 2 ^ (- m)).
  { rewrite <- Z.mul_assoc, <- Z.pow_add_r by lia. f_equal. f_equal. lia. }
  assert (H2 : k * 2 ^ (- e') * 2 ^ (e' - m) = k * 2 ^ (- m)).
  { rewrite <- Z.mul_assoc, <- Z.pow_add_r by lia. f_equal. f_equal. lia. }
  rewrite H1, H2.
  assert (0 < 2 ^ (- m)) by (apply Z.pow_pos_nonneg; lia).
  destruct (Z.compare_spec r k) as [->|Hlt|Hgt].
  - apply Z.compare_refl.
  - apply Z.compare_lt_iff. nia.
  - apply Z.compare_gt_iff. nia.
Qed.

(** Comparing the float of an integer with the float of another integer
    compares the integers. *)
Lemma py_lt_float_scaled f r e g k e' :
  ext_of (Flt f) = Fin (r * 2 ^ (- e), e) -> e <= 0 ->
  ext_of (Flt g) = Fin (k * 2 ^ (- e'), e') -> e' <= 0 ->
  py_lt (Flt f) (Flt g) = (r <? k) /\ py_gt (Flt f) (Flt g) = (k <? r).
Proof.
  intros Hf He Hg He'. unfold py_lt, py_gt. rewrite Hf, Hg. cbn [ext_compare].
  rewrite dy_compare_both_scaled by done. rewrite Z.ltb_antisym, Z.leb_compare.
  unfold Z.ltb. rewrite (Z.compare_antisym r k).
  by destruct (r ?= k).
Qed.

(** Encoding an integer tendency is encoding its clamp to [0, 100]. *)
Lemma encode_tendency_clamped r length :
  - 2 ^ 53 < r < 2 ^ 53 ->
  convert_rating_to_tendency_raw (Int r) length
  = convert_rating_to_tendency_raw (Int (clamp_tendency r)) length.
Proof.
  intros Hr. unfold clamp_tendency.
  assert (H0 : ext_of (Flt (S754_zero false)) = Fin (0 * 2 ^ (- 0), 0)) by done.
  assert (H100 : ext_of (Flt f100) = Fin (100 * 2 ^ (- -46), -46)) by (by vm_compute).
  destruct (Z_lt_le_dec r 0) as [Hlo|Hlo]; [|destruct (Z_le_gt_dec r 100) as [Hhi|Hhi]].
  - replace (Z.max 0 (Z.min 100 r)) with 0 by lia.
    unfold convert_rating_to_tendency_raw.
    destruct (py_lshift 1 length) as [p|]; res_simpl; [|done].
    destruct (p - 1 <=? 0); res_simpl; [done|].
    cbn [to_float].
    destruct (float_of_Z_value r Hr) as (f & n & e & -> & Hext & He & ->).
    res_simpl.
    destruct (py_lt_float_scaled f r e _ 0 0 Hext He H0 ltac:(lia)) as [-> _].
    replace (r <? 0) with true by lia.
    set (x := float_of_Z 0). vm_compute in x. subst x. res_simpl.
    set (b := py_lt _ _). vm_compute in b. subst b.
    set (b := py_gt _ _). vm_compute in b. subst b.
    done.
  - replace (Z.max 0 (Z.min 100 r)) with r by lia. done.
  - replace (Z.max 0 (Z.min 100 r)) with 100 by lia.
    unfold convert_rating_to_tendency_raw.
    destruct (py_lshift 1 length) as [p|]; res_simpl; [|done].
    destruct (p - 1 <=? 0); res_simpl; [done|].
    cbn [to_float].
    destruct (float_of_Z_value r Hr) as (f & n & e & -> & Hext & He & ->).
    res_simpl.
    destruct (py_lt_float_scaled f r e _ 0 0 Hext He H0 ltac:(lia)) as [-> _].
    destruct (py_lt_float_scaled f r e _ 100 (-46) Hext He H100 ltac:(lia)) as [_ ->].
    replace (r <? 0) with false by lia.
    replace (100 <? r) with true by lia.
    set (x := float_of_Z 100). vm_compute in x. subst x. res_simpl.
    set (b := py_lt _ _). vm_compute in b. subst b.
    set (b := py_gt _ _). vm_compute in b. subst b.
    done.
Qed.

Lemma check_rating_exact_all :
  forallb (fun length => forallb (check_rating_exact length) (seqZ 25 86)) (seqZ 7 10) = true.
Proof. by vm_compute. Qed.

Lemma check_tendency_exact_all :
  forallb (fun length => forallb (check_tendency_exact length) (seqZ 0 101)) (seqZ 7 10)
  = true.
Proof. by vm_compute. Qed.

Lemma check_raw_exact_all :
  forallb (fun length => forallb (check_raw_exact length) (seqZ 0 (2 ^ length))) (seqZ 1 6)
  = true.
Proof. by vm_compute. Qed.

(** X2: On a field of 7 to 16 bits a rating survives storage: encoding the
    integer rating [r] gives a raw value of the field, and decoding that raw
    value gives back [r] clamped to 25..110. *)
Theorem rating_survives_storage (length r : Z) :
  7 <= length <= 16 -> - 2 ^ 53 < r < 2 ^ 53 ->
  exists raw,
    convert_rating_to_raw (Int r) length = Val raw /\
    0 <= raw < 2 ^ length /\
    convert_raw_to_rating raw length = Val (clamp_rating r).
Proof.
  intros Hl Hr. rewrite (encode_clamped r length Hr).
  assert (Hc : 25 <= clamp_rating r < 25 + 86).
  { unfold clamp_rating, RATING_MIN, RATING_MAX_TRUE. lia. }
  pose proof (forallb_seqZ _ 7 10 length check_rating_exact_all ltac:(lia)) as H1.
  cbv beta in H1.
  pose proof (forallb_seqZ (check_rating_exact length) 25 86 (clamp_rating r) H1 Hc) as H2.
  unfold check_rating_exact in H2.
  destruct (convert_rating_to_raw _ _) as [raw|]; [|done].
  apply andb_true_iff in H2 as [H2 H3]. apply andb_true_iff in H2 as [Hlo Hhi].
  destruct (convert_raw_to_rating raw length) as [r'|] eqn:Hdec; [|done].
  apply Z.eqb_eq in H3 as ->.
  exists raw. split; [done|]. split; [lia|done].
Qed.

(** X3: On a field of 7 to 16 bits a tendency survives storage: encoding the
    integer tendency [r] gives a raw value of the field, and decoding that
    raw value gives back [r] clamped to 0..100. *)
Theorem tendency_survives_storage (length r : Z) :
  7 <= length <= 16 -> - 2 ^ 53 < r < 2 ^ 53 ->
  exists raw,
    convert_rating_to_tendency_raw (Int r) length = Val raw /\
    0 <= raw < 2 ^ length /\
    convert_tendency_raw_to_rating raw length = Val (clamp_tendency r).
Proof.
  intros Hl Hr. rewrite (encode_tendency_clamped r length Hr).
  assert (Hc : 0 <= clamp_tendency r < 0 + 101).
  { unfold clamp_tendency. lia. }
  pose proof (forallb_seqZ _ 7 10 length check_tendency_exact_all ltac:(lia)) as H1.
  cbv beta in H1.
  pose proof (forallb_seqZ (check_tendency_exact length) 0 101 (clamp_tendency r) H1 Hc)
    as H2.
  unfold check_tendency_exact in H2.
  destruct (convert_rating_to_tendency_raw _ _) as [raw|]; [|done].
  apply andb_true_iff in H2 as [H2 H3]. apply andb_true_iff in H2 as [Hlo Hhi].
  destruct (convert_tendency_raw_to_rating raw length) as [r'|] eqn:Hdec; [|done].
  apply Z.eqb_eq in H3 as ->.
  exists raw. split; [done|]. split; [lia|done].
Qed.

(** X4: On a field of 1 to 6 bits the stored value survives display: decoding a
    raw value of the field and encoding the rating shown gives the raw value
    back, for ratings and for tendencies. *)
Theorem raw_survives_display (length raw : Z) :
  1 <= length <= 6 -> 0 <= raw < 2 ^ length ->
  (exists r, convert_raw_to_rating raw length = Val r /\
             convert_rating_to_raw (Int r) length = Val raw) /\
  (exists t, convert_tendency_raw_to_rating raw length = Val t /\
             convert_rating_to_tendency_raw (Int t) length = Val raw).
Proof.
  intros Hl Hraw.
  pose proof (forallb_seqZ _ 1 6 length check_raw_exact_all ltac:(lia)) as H1.
  cbv beta in H1.
  pose proof (forallb_seqZ (check_raw_exact length) 0 (2 ^ length) raw H1 ltac:(lia)) as H2.
  unfold check_raw_exact in H2.
  destruct (convert_raw_to_rating raw length) as [r|]; [|done].
  destruct (convert_tendency_raw_to_rating raw length) as [t|]; [|done].
  destruct (convert_rating_to_raw (Int r) length) as [raw1|] eqn:E1; [|done].
  destruct (convert_rating_to_tendency_raw (Int t) length) as [raw2|] eqn:E2; [|done].
  apply andb_true_iff in H2 as [H2 H3]. apply Z.eqb_eq in H2, H3. subst.
  split; [by exists r|by exists t].
Qed.

(** ** Memory: writing and reading back *)

Lemma write_bytes_effect addr data st st' :
  write_bytes addr data st = (Val tt, st') ->
  st' = set_mem (write_cells (os_mem st) (c_void_p addr) data) st
  /\ (exists h b, gm_hproc st = Some h /\ gm_base_addr st = Some b).
Proof.
  rewrite write_bytes_run.
  destruct (gm_hproc st) as [h|], (gm_base_addr st) as [b|]; try done.
  destruct (cells_writable _ _ _); [|done].
  intros [= <-]. split; [done|]. by exists h, b.
Qed.

(** What was written is what a read of the same span returns, or its
    beginning when the read is shorter. *)
Lemma write_bytes_read_prefix addr data n st st' :
  write_bytes addr data st = (Val tt, st') ->
  0 <= n <= Z.of_nat (length data) ->
  read_bytes addr n st' = (Val (take (Z.to_nat n) data), log_read addr n st').
Proof.
  intros Hw Hn. apply write_bytes_effect in Hw as (-> & h & b & Hh & Hb).
  rewrite read_bytes_run. cbn [gm_hproc gm_base_addr set_mem]. rewrite Hh, Hb.
  destruct (Z.ltb_spec n 0) as [|_]; [lia|]. cbn [os_mem set_mem].
  rewrite (read_cells_complete _ _ _ (take (Z.to_nat n) data)); [done| |].
  - rewrite length_take. lia.
  - intros j Hj. rewrite write_cells_lookup.
    rewrite decide_True by lia.
    rewrite lookup_take_lt by done. f_equal. lia.
Qed.

(** A write leaves every byte outside its span as it was. *)
Lemma write_bytes_frame addr data st st' a :
  write_bytes addr data st = (Val tt, st') ->
  ~ (c_void_p addr <= a < c_void_p addr + Z.of_nat (length data)) ->
  os_mem st' !! a = os_mem st !! a.
Proof.
  intros Hw Ha. apply write_bytes_effect in Hw as (-> & _).
  cbn [os_mem set_mem]. rewrite write_cells_lookup. by rewrite decide_False.
Qed.

(** X5: After [write_uint32] has written [value], [read_uint32] at the same
    address returns [value] modulo [2^32], and the bytes outside the four
    written ones are as they were. *)
Theorem write_uint32_read_back (addr value : Z) (st st' : State) :
  write_uint32 addr value st = (Val tt, st') ->
  (exists st'', read_uint32 addr st' = (Val (value mod 2 ^ 32), st'')) /\
  (forall a, ~ (c_void_p addr <= a < c_void_p addr + 4) ->
             os_mem st' !! a = os_mem st !! a).
Proof.
  unfold write_uint32. intros Hw. split.
  - unfold read_uint32. rewrite bind_run.
    rewrite (write_bytes_read_prefix _ _ 4 _ _ Hw) by (rewrite length_bytes_little; lia).
    eexists. rewrite mret_run. f_equal. f_equal.
    change (Z.to_nat 4) with 4%nat.
    rewrite take_ge by (rewrite length_bytes_little; lia).
    rewrite from_bytes_little_bytes.
    change 0xFFFFFFFF with (Z.ones 32). rewrite Z.land_ones by lia.
    change (256 ^ Z.of_nat 4) with (2 ^ 32). by rewrite Z.mod_mod.
  - intros a Ha. apply (write_bytes_frame _ _ _ _ a Hw).
    by rewrite length_bytes_little.
Qed.

(** ** Memory: fixed-width strings *)

Lemma py_slice_to_take {A} (s : list A) (stop : Z) :
  0 <= stop -> py_slice_to s stop = take (Z.to_nat stop) s.
Proof. intros H. unfold py_slice_to. by destruct (Z.ltb_spec stop 0); [lia|]. Qed.

Lemma one_unit_range c :
  one_unit c = true ->
  0 <= Z.of_N c < 0x10000
  /\ is_high_surrogate (Z.of_N c) = false /\ is_low_surrogate (Z.of_N c) = false.
Proof.
  unfold one_unit. intros H.
  apply andb_true_iff in H as [H Hl]. apply andb_true_iff in H as [H Hh].
  apply negb_true_iff in Hl, Hh. apply Z.ltb_lt in H. repeat split; try done. lia.
Qed.

Lemma encode_units_one_unit s :
  forallb one_unit s = true -> encode_units s = Val (map Z.of_N s).
Proof.
  induction s as [|c s IH]; [done|]. cbn [forallb]. intros H.
  apply andb_true_iff in H as [Hc Hs].
  destruct (one_unit_range c Hc) as (Hr & Hh & Hl).
  cbn [encode_units]. unfold utf16_units. rewrite Hh, Hl. cbn [orb].
  destruct (Z.ltb_spec (Z.of_N c) 65536) as [_|]; [|lia].
  res_simpl. rewrite (IH Hs). by res_simpl.
Qed.

Lemma code_units_unit_bytes us rest :
  Forall (fun u => 0 <= u < 0x10000) us ->
  code_units (flat_map unit_bytes us ++ rest) = us ++ code_units rest.
Proof.
  induction 1 as [|u us Hu _ IH]; [done|].
  cbn [flat_map unit_bytes app code_units]. rewrite IH. f_equal.
  rewrite !byte_val_of_Z.
  pose proof (Z.div_mod u 256 ltac:(lia)) as Hdm.
  pose proof (Z.mod_pos_bound u 256 ltac:(lia)).
  assert (0 <= u / 256 < 256).
  { split; [apply Z.div_pos; lia|]. apply Z.div_lt_upper_bound; lia. }
  rewrite (Z.mod_small (u / 256)) by done. lia.
Qed.

Lemma code_units_zeros (k : nat) :
  code_units (repeat Byte.x00 (2 * k)) = repeat 0 k.
Proof.
  induction k as [|k IH]; [done|].
  replace (2 * S k)%nat with (S (S (2 * k))) by lia.
  cbn [repeat code_units]. by rewrite IH.
Qed.

Lemma decode_units_one_unit s rest :
  forallb one_unit s = true ->
  decode_units (map Z.of_N s ++ rest) = s ++ decode_units rest.
Proof.
  induction s as [|c s IH]; [done|]. cbn [forallb]. intros H.
  apply andb_true_iff in H as [Hc Hs].
  destruct (one_unit_range c Hc) as (Hr & Hh & Hl).
  cbn [map app decode_units]. rewrite Hh, Hl, N2Z.id. by rewrite (IH Hs).
Qed.

Lemma decode_units_zeros (k : nat) : decode_units (repeat 0 k) = repeat 0%N k.
Proof. induction k as [|k IH]; [done|]. cbn [repeat decode_units]. by rewrite IH. Qed.

Lemma until_nul_app_nul s rest : until_nul (s ++ 0%N :: rest) = until_nul s.
Proof.
  induction s as [|c s IH]; [done|]. cbn [app until_nul].
  destruct (c =? 0)%N; [done|]. by rewrite IH.
Qed.

Lemma length_unit_bytes us : length (flat_map unit_bytes us) = (2 * length us)%nat.
Proof. induction us as [|u us IH]; [done|]. cbn [flat_map unit_bytes length app]. lia. Qed.

Lemma forallb_take {A} (f : A -> bool) (l : list A) (n : nat) :
  forallb f l = true -> forallb f (take n l) = true.
Proof.
  rewrite !forallb_forall. intros H x Hx. apply H.
  apply list_elem_of_In. apply list_elem_of_In in Hx.
  apply elem_of_take in Hx as (i & Hi & _). by eapply list_elem_of_lookup_2.
Qed.

(** On a string of one-unit characters [write_wstring_fixed] writes the
    bytes [field_bytes]: the kept characters, then NULs to the end of the
    field. *)
Lemma write_wstring_fixed_bytes addr value max_chars st :
  1 <= max_chars -> forallb one_unit value = true ->
  write_wstring_fixed addr value max_chars st
  = write_bytes addr (field_bytes value max_chars) st.
Proof.
  intros Hmax Hval. unfold write_wstring_fixed, field_bytes.
  rewrite py_slice_to_take by lia.
  set (s := take (Z.to_nat (max_chars - 1)) value).
  assert (Hs : forallb one_unit s = true) by (by apply forallb_take).
  assert (Hlen : Z.of_nat (length s) < max_chars).
  { unfold s. rewrite length_take. lia. }
  unfold encode_utf16le. rewrite (encode_units_one_unit s Hs). res_simpl.
  rewrite bind_run, lift_run. cbn beta iota. f_equal.
  unfold ljust. rewrite <- app_assoc. f_equal.
  rewrite length_app, length_unit_bytes, length_map. cbn [length].
  replace (2 * (Z.to_nat max_chars - length s))%nat
    with (S (S (Z.to_nat (max_chars * 2) - (2 * length s + 2)))) by lia.
  done.
Qed.

Lemma length_field_bytes value max_chars :
  1 <= max_chars -> Z.of_nat (length (field_bytes value max_chars)) = 2 * max_chars.
Proof.
  intros Hmax. unfold field_bytes.
  rewrite length_app, repeat_length, length_unit_bytes, length_map, length_take. lia.
Qed.

(** Read as a string, these bytes give the kept characters up to their first
    NUL. *)
Lemma decode_field_bytes value max_chars :
  1 <= max_chars -> forallb one_unit value = true ->
  until_nul (decode_utf16le (field_bytes value max_chars))
  = until_nul (take (Z.to_nat (max_chars - 1)) value).
Proof.
  intros Hmax Hval. unfold field_bytes, decode_utf16le.
  set (s := take (Z.to_nat (max_chars - 1)) value).
  assert (Hs : forallb one_unit s = true) by (by apply forallb_take).
  assert (Hlen : Z.of_nat (length s) < max_chars).
  { unfold s. rewrite length_take. lia. }
  rewrite code_units_unit_bytes.
  2:{ apply Forall_forall. intros u Hu. apply list_elem_of_fmap in Hu as (c & -> & Hc).
      rewrite forallb_forall in Hs. apply list_elem_of_In in Hc.
      by destruct (one_unit_range c (Hs c Hc)) as (? & _). }
  rewrite code_units_zeros, decode_units_one_unit, decode_units_zeros by done.
  destruct (Z.to_nat max_chars - length s)%nat as [|k] eqn:Hk; [lia|].
  cbn [repeat]. apply until_nul_app_nul.
Qed.

(** X6: After [write_wstring_fixed] has written a string of one-unit characters
    into a field of [max_chars >= 1] characters, [read_wstring] on the same
    field returns the first [max_chars - 1] characters of the string, up to
    its first NUL if it has one; the bytes outside the [2 * max_chars] bytes
    of the field are as they were. *)
Theorem write_wstring_read_back (addr : Z) (value : pystr) (max_chars : Z)
        (st st' : State) :
  1 <= max_chars -> forallb one_unit value = true ->
  write_wstring_fixed addr value max_chars st = (Val tt, st') ->
  (exists st'',
     read_wstring addr max_chars st'
     = (Val (until_nul (take (Z.to_nat (max_chars - 1)) value)), st'')) /\
  (forall a, ~ (c_void_p addr <= a < c_void_p addr + 2 * max_chars) ->
             os_mem st' !! a = os_mem st !! a).
Proof.
  intros Hmax Hval. rewrite write_wstring_fixed_bytes by done. intros Hw.
  pose proof (length_field_bytes value max_chars Hmax) as Hdata.
  split.
  - unfold read_wstring. rewrite bind_run.
    rewrite (write_bytes_read_prefix _ _ (max_chars * 2) _ _ Hw) by lia.
    eexists. rewrite mret_run. f_equal. f_equal.
    rewrite take_ge by lia. by apply decode_field_bytes.
  - intros a Ha. apply (write_bytes_frame _ _ _ _ a Hw). lia.
Qed.

Lemma encode_units_length s us :
  encode_units s = Val us ->
  length us = (length s + length (List.filter astral s))%nat.
Proof.
  revert us. induction s as [|c s IH]; intros us; cbn [encode_units].
  - by intros [= <-].
  - unfold utf16_units. cbn [List.filter].
    destruct (is_high_surrogate (Z.of_N c) || is_low_surrogate (Z.of_N c));
      res_simpl; [done|].
    destruct (astral c) eqn:Ha; unfold astral in Ha.
    + destruct (Z.ltb_spec (Z.of_N c) 65536) as [Hlt|Hge]; [lia|]. res_simpl.
      destruct (encode_units s) as [more|]; res_simpl; [|done].
      intros [= <-]. cbn [app length]. rewrite (IH more eq_refl). simpl. lia.
    + destruct (Z.ltb_spec (Z.of_N c) 65536) as [Hlt|Hge]; [|lia]. res_simpl.
      destruct (encode_units s) as [more|]; res_simpl; [|done].
      intros [= <-]. cbn [app length]. rewrite (IH more eq_refl). simpl. lia.
Qed.

(** X7: How far [write_wstring_fixed] writes.  With [max_chars >= 1] it keeps the
    first [max_chars - 1] characters, and the bytes it writes are two for
    each of them, two more for each kept character outside the Basic
    Multilingual Plane, and two for the terminator; the field's
    [2 * max_chars] bytes when that is less.  So every kept character that
    needs a surrogate pair can push the write two bytes past the field. *)
Theorem write_wstring_fixed_extent (addr : Z) (value : pystr) (max_chars : Z)
        (st st' : State) :
  1 <= max_chars ->
  write_wstring_fixed addr value max_chars st = (Val tt, st') ->
  let kept := take (Z.to_nat (max_chars - 1)) value in
  exists data,
    os_mem st' = write_cells (os_mem st) (c_void_p addr) data /\
    Z.of_nat (length data)
    = 2 * Z.max max_chars
              (Z.of_nat (length kept) + Z.of_nat (length (List.filter astral kept)) + 1).
Proof.
  intros Hmax. unfold write_wstring_fixed.
  rewrite py_slice_to_take by lia.
  set (kept := take (Z.to_nat (max_chars - 1)) value). intros Hw.
  unfold encode_utf16le in Hw.
  destruct (encode_units kept) as [us|] eqn:Hus; res_simpl.
  2:{ rewrite bind_run, lift_run in Hw. done. }
  revert Hw. res_simpl. rewrite bind_run, lift_run. cbn beta iota. intros Hw.
  apply write_bytes_effect in Hw as (-> & _).
  eexists. split; [done|].
  unfold ljust. rewrite !length_app, repeat_length, length_unit_bytes.
  rewrite (encode_units_length _ _ Hus). cbn [length]. lia.
Qed.

(** ** Memory: what [read_wstring] returns *)

Lemma length_code_units raw : (2 * length (code_units raw) <= length raw)%nat.
Proof.
  induction raw as [raw IH] using (induction_ltof1 _ (@length byte)).
  unfold ltof in IH. destruct raw as [|lo [|hi rest]]; cbn [code_units length]; try lia.
  pose proof (IH rest ltac:(simpl; lia)). lia.
Qed.

Lemma length_decode_units us : (length (decode_units us) <= length us)%nat.
Proof.
  induction us as [us IH] using (induction_ltof1 _ (@length Z)). unfold ltof in IH.
  destruct us as [|u rest]; [done|]. cbn [decode_units].
  destruct (is_high_surrogate u).
  - destruct rest as [|u2 rest']; [simpl; lia|].
    destruct (is_low_surrogate u2).
    + pose proof (IH rest' ltac:(simpl; lia)). simpl. lia.
    + pose proof (IH (u2 :: rest') ltac:(simpl; lia)). simpl in *. lia.
  - destruct (is_low_surrogate u).
    + pose proof (IH rest ltac:(simpl; lia)). simpl. lia.
    + pose proof (IH rest ltac:(simpl; lia)). simpl. lia.
Qed.

Lemma until_nul_spec s :
  (0%N ∉ until_nul s) /\ (length (until_nul s) <= length s)%nat.
Proof.
  induction s as [|c s [IH1 IH2]]; cbn [until_nul].
  - split; [apply not_elem_of_nil|done].
  - destruct (N.eqb_spec c 0) as [->|Hc].
    + split; [apply not_elem_of_nil|simpl; lia].
    + split; [|simpl; lia]. rewrite elem_of_cons. intros [?|?]; [congruence|done].
Qed.

(** X8: A string returned by [read_wstring] holds no NUL and at most [max_chars]
    characters; the read changes nothing but the log of reads. *)
Theorem read_wstring_bounded (addr max_chars : Z) (st st' : State) (s : pystr) :
  read_wstring addr max_chars st = (Val s, st') ->
  (0%N ∉ s) /\ Z.of_nat (length s) <= max_chars
  /\ st' = log_read addr (max_chars * 2) st.
Proof.
  unfold read_wstring. rewrite bind_run, read_bytes_run.
  destruct (gm_hproc st), (gm_base_addr st); try done.
  destruct (Z.ltb_spec (max_chars * 2) 0) as [|Hn]; [done|].
  destruct (read_cells _ _ _) as [raw|] eqn:Hraw; [|done].
  rewrite mret_run. intros [= <- <-].
  apply read_cells_lookup in Hraw as [Hlen _].
  destruct (until_nul_spec (decode_utf16le raw)) as [Hnul Hle].
  split; [done|]. split; [|done].
  unfold decode_utf16le in *.
  pose proof (length_decode_units (code_units raw)).
  pose proof (length_code_units raw). lia.
Qed.

(** ** restructure: when it returns, and what a second pass does *)

Lemma restructure_field_returns cat_map f :
  match restructure_field cat_map f with
  | Val _ => field_accepted f = true
  | Exc e => field_accepted f = false /\ (e = AttributeError \/ e = TypeError)
  end.
Proof.
  unfold restructure_field, field_accepted.
  destruct f as [| | | | | |d]; cbn [py_get mbind res_bind]; try (split; [done|by left]).
  destruct (dict_lookup d (PStr (lit "offset"))) as [v|]; [|done].
  destruct (py_truthy v); cbn [negb orb]; [|done].
  destruct (hashable v); [done|]. split; [done|by right].
Qed.

Lemma restructure_fields_returns fields cat_map :
  match restructure_fields cat_map fields with
  | Val _ => forallb field_accepted fields = true
  | Exc e => forallb field_accepted fields = false /\ (e = AttributeError \/ e = TypeError)
  end.
Proof.
  revert cat_map. induction fields as [|f fields IH]; intros cat_map; [done|].
  cbn [restructure_fields forallb].
  pose proof (restructure_field_returns cat_map f) as Hf.
  destruct (restructure_field cat_map f) as [cat_map'|e]; cbn [mbind res_bind].
  - rewrite Hf. cbn [andb]. apply IH.
  - destruct Hf as [-> He]. by split.
Qed.

Lemma restructure_items_returns items acc :
  match restructure_items acc items with
  | Val _ => accepted items = true
  | Exc e => accepted items = false /\ (e = AttributeError \/ e = TypeError)
  end.
Proof.
  revert acc. induction items as [|[key value] items IH]; intros acc; [done|].
  cbn [restructure_items accepted forallb].
  destruct (bool_decide (lower key = lit "base")); cbn [orb andb]; [apply IH|].
  destruct value as [| | | | |fields|d]; cbn [andb]; try apply IH.
  pose proof (restructure_fields_returns fields []) as Hf.
  destruct (restructure_fields [] fields) as [cat_map|e]; cbn [mbind res_bind].
  - rewrite Hf. cbn [andb]. apply IH.
  - destruct Hf as [-> He]. by split.
Qed.

(** X9: [restructure] returns exactly on the dictionaries whose list-valued
    categories, the one under a ["base"] key apart, hold only dictionaries
    with an offset that is missing, false or hashable; on the others it
    raises [AttributeError] (a field that is no dictionary) or [TypeError]
    (an offset that cannot be a key). *)
Theorem restructure_returns_iff_accepted (offsets : list (pystr * pyval)) :
  ((exists out, restructure offsets = Val out) <-> accepted offsets = true) /\
  (forall e, restructure offsets = Exc e -> e = AttributeError \/ e = TypeError).
Proof.
  unfold restructure. pose proof (restructure_items_returns offsets []) as H.
  destruct (restructure_items [] offsets) as [out|e].
  - split; [|done]. split; [done|]. by exists out.
  - destruct H as [Hacc He]. split.
    + split; [by intros [out ?]|]. rewrite Hacc. done.
    + by intros e' [= <-].
Qed.

Lemma restructure_items_shape items acc res :
  NoDup (map fst acc ++ map fst items) ->
  restructure_items acc items = Val res ->
  exists out', res = acc ++ out' /\ map fst out' = map fst items /\ Forall settled out'.
Proof.
  revert acc res. induction items as [|[key value] items IH]; intros acc res Hnd.
  - simpl. intros [= <-]. exists []. by rewrite app_nil_r.
  - assert (Hfresh : key ∉ map fst acc).
    { apply NoDup_app in Hnd as (_ & Hdisj & _). intros Hin.
      apply (Hdisj key Hin). simpl. by left. }
    assert (Hnd' : forall v, NoDup (map fst (acc ++ [(key, v)]) ++ map fst items)).
    { intros v. rewrite map_app. simpl. rewrite <- app_assoc. exact Hnd. }
    assert (Hstep : forall v, settled (key, v) ->
              restructure_items (dict_set acc key v) items = Val res ->
              exists out', res = acc ++ out'
                           /\ map fst out' = map fst ((key, value) :: items)
                           /\ Forall settled out').
    { intros v Hv. rewrite dict_set_fresh by done. intros E.
      destruct (IH _ _ (Hnd' v) E) as (out' & -> & Hk & Hs).
      exists ((key, v) :: out'). rewrite <- app_assoc. split; [done|].
      split; [simpl; by rewrite Hk|by constructor]. }
    cbn [restructure_items].
    destruct (bool_decide_reflect (lower key = lit "base")) as [Hb|Hb].
    + apply Hstep. by left.
    + destruct value as [| | | | |fields|d]; try (apply Hstep; by right).
      destruct (restructure_fields [] fields) as [cat_map|]; cbn [mbind res_bind]; [|done].
      apply Hstep. by right.
Qed.

Lemma restructure_items_settled items acc :
  NoDup (map fst acc ++ map fst items) -> Forall settled items ->
  restructure_items acc items = Val (acc ++ items).
Proof.
  revert acc. induction items as [|[key value] items IH]; intros acc Hnd Hs.
  - simpl. by rewrite app_nil_r.
  - apply Forall_cons in Hs as [Hitem Hs].
    assert (Hfresh : key ∉ map fst acc).
    { apply NoDup_app in Hnd as (_ & Hdisj & _). intros Hin.
      apply (Hdisj key Hin). simpl. by left. }
    assert (Hnext : restructure_items (dict_set acc key value) items
                    = Val (acc ++ (key, value) :: items)).
    { rewrite dict_set_fresh by done. rewrite IH; [by rewrite <- app_assoc| |done].
      rewrite map_app. simpl. by rewrite <- app_assoc. }
    cbn [restructure_items].
    destruct (bool_decide_reflect (lower key = lit "base")) as [Hb|Hb]; [done|].
    destruct Hitem as [Hbase|Hnl]; [done|]. simpl in Hnl.
    by destruct value.
Qed.

(** X10: Whenever [restructure] returns, its result has the keys of its input in
    the same order, and restructuring the result again returns it
    unchanged. *)
Theorem restructure_idempotent (offsets out : list (pystr * pyval)) :
  NoDup (map fst offsets) -> restructure offsets = Val out ->
  map fst out = map fst offsets /\ restructure out = Val out.
Proof.
  unfold restructure. intros Hnd E.
  destruct (restructure_items_shape offsets [] out Hnd E) as (out' & -> & Hk & Hs).
  simpl. split; [done|].
  apply (restructure_items_settled out' []); [|done]. simpl. by rewrite Hk.
Qed.

(** ** GameMemory: opening and closing *)

(** X11: [open_process] keeps the attributes of [GameMemory] consistent and never
    touches the memory of the process.  When it returns [True] the handle is
    set, the check of the readers passes and a second call returns [True]
    and changes nothing; when it returns [False] everything is reset, and
    every read and every write raises [RuntimeError]. *)
Theorem open_process_outcome (st : State) :
  gm_consistent st ->
  exists b st',
    open_process st = (Val b, st') /\
    gm_consistent st' /\ os_mem st' = os_mem st /\
    if b
    then truthy (gm_hproc st') = true
         /\ _check_open st' = (Val tt, st')
         /\ open_process st' = (Val true, st')
    else gm_pid st' = None /\ gm_hproc st' = None /\ gm_base_addr st' = None
         /\ (forall addr n, read_bytes addr n st' = (Exc RuntimeError, st'))
         /\ (forall addr data, write_bytes addr data st' = (Exc RuntimeError, st')).
Proof.
  intros Hc.
  assert (Hclosed : forall s, gm_pid s = None -> gm_hproc s = None -> gm_base_addr s = None ->
            gm_pid s = None /\ gm_hproc s = None /\ gm_base_addr s = None
            /\ (forall addr n, read_bytes addr n s = (Exc RuntimeError, s))
            /\ (forall addr data, write_bytes addr data s = (Exc RuntimeError, s))).
  { intros s H1 H2 H3. repeat split; try done.
    - intros addr n. by rewrite read_bytes_run, H2.
    - intros addr data. by rewrite write_bytes_run, H2. }
  unfold open_process. run.
  destruct (os_win32 st) eqn:Hw; cbn [negb].
  2:{ unfold close. run. eexists _, _. split; [done|].
      split; [done|]. split; [done|]. by apply Hclosed. }
  unfold find_pid at 1. run.
  destruct (os_pid st) as [p|] eqn:Hp.
  2:{ unfold close. run. eexists _, _. split; [done|].
      split; [done|]. split; [done|]. by apply Hclosed. }
  destruct (bool_decide (gm_pid st = Some p) && truthy (gm_hproc st)) eqn:Hsame.
  - run. apply andb_true_iff in Hsame as [H1 H2]. apply bool_decide_eq_true in H1.
    exists true, st. split; [done|]. split; [done|]. split; [done|].
    split; [done|].
    unfold gm_consistent in Hc. rewrite H1 in Hc.
    destruct (gm_hproc st) as [h|] eqn:Hh; [|done].
    destruct (gm_base_addr st) as [b|] eqn:Hb; [|done].
    split.
    + by rewrite _check_open_run, Hh, Hb.
    + unfold open_process. run. rewrite Hw. cbn [negb]. unfold find_pid. run.
      rewrite Hp, H1, ?Hh. rewrite bool_decide_eq_true_2 by done.
      rewrite H2. by run.
  - unfold close. run. cbn [os_handle set_gm].
    destruct (os_handle st) as [h|] eqn:Hh; cbn [truthy negb].
    2:{ unfold close. run. eexists _, _. split; [done|].
        split; [done|]. split; [done|]. by apply Hclosed. }
    destruct (Z.eqb_spec h 0) as [->|Hnz]; cbn [negb].
    { unfold close. run. eexists _, _. split; [done|].
      split; [done|]. split; [done|]. by apply Hclosed. }
    cbn [os_module_base set_gm].
    destruct (os_module_base st) as [base|] eqn:Hbase.
    2:{ unfold close. run. eexists _, _. split; [done|].
        split; [done|]. split; [done|]. by apply Hclosed. }
    run. eexists _, _. split; [done|].
    split; [done|]. split; [done|].
    split; [cbn; by destruct (Z.eqb_spec h 0)|]. split; [done|].
    unfold open_process. run. cbn [os_win32 set_gm]. rewrite Hw. cbn [negb].
    unfold find_pid. run. cbn [os_pid gm_pid gm_hproc set_gm]. rewrite Hp.
    rewrite bool_decide_eq_true_2 by done. cbn [truthy].
    destruct (Z.eqb_spec h 0); [done|]. by run.
Qed.

(** ** The list of teams *)

Lemma sort_team_all types g item :
  groups_all (sort_team types g item) ≡ₚ groups_all g ++ [snd item].
Proof.
  destruct item as [idx name]. unfold sort_team, groups_all. cbn [snd].
  repeat case_match; cbn [g_free g_draft g_base g_historic g_all_time g_g_league];
    solve_Permutation.
Qed.

Lemma foldl_sort_team_all types items g :
  groups_all (foldl (sort_team types) g items) ≡ₚ groups_all g ++ map snd items.
Proof.
  revert g. induction items as [|item items IH]; intros g; simpl.
  - by rewrite app_nil_r.
  - rewrite IH, sort_team_all. by rewrite <- app_assoc.
Qed.

Lemma elem_of_List_filter {A} (f : A -> bool) (l : list A) (x : A) :
  x ∈ List.filter f l <-> x ∈ l /\ f x = true.
Proof. rewrite !list_elem_of_In. apply filter_In. Qed.

(** X12: [get_teams] loses no team and invents none.  After a team scan it
    returns the scanned names, each as often as the scan holds it; without
    one it returns the names of the players' teams, where a name that falls
    into two groups (free agency and draft, say) comes twice. *)
Theorem get_teams_keeps_every_team (names : list pystr) (st : State) :
  exists res,
    get_teams names st = (Val res, st) /\
    (team_list st <> [] -> res ≡ₚ map snd (team_list st)) /\
    (team_list st = [] -> forall n, n ∈ res <-> n ∈ names).
Proof.
  unfold get_teams. run.
  destruct (team_list st) as [|item items] eqn:Hl.
  - run. eexists. split; [done|]. split; [done|]. intros _ n.
    rewrite !elem_of_app, !elem_of_List_filter.
    split; [tauto|]. intros Hn.
    match goal with |- context [bool_decide (n ∈ ?a)] => destruct (decide (n ∈ a)) as [Ha|Ha] end.
    + rewrite !elem_of_app, !elem_of_List_filter in Ha. tauto.
    + right. right. left. split; [done|]. by rewrite bool_decide_eq_false_2.
  - run. eexists. split; [done|]. split; [|done]. intros _.
    pose proof (foldl_sort_team_all (team_types st) (item :: items) (mkGroups [] [] [] [] [] []))
      as H.
    unfold groups_all at 2 in H. cbn [g_free g_draft g_base g_historic g_all_time g_g_league app] in H.
    exact H.
Qed.

(** ** The team scan *)

Lemma read_wstring_run addr max_chars st :
  read_wstring addr max_chars st =
  match gm_hproc st, gm_base_addr st with
  | Some _, Some _ =>
      if max_chars * 2 <? 0 then (Exc ValueError, st)
      else match read_cells (os_mem st) (c_void_p addr) (Z.to_nat (max_chars * 2)) with
           | Some bs => (Val (until_nul (decode_utf16le bs)),
                         log_read addr (max_chars * 2) st)
           | None => (Exc RuntimeError, log_read addr (max_chars * 2) st)
           end
  | _, _ => (Exc RuntimeError, st)
  end.
Proof.
  unfold read_wstring. rewrite bind_run, read_bytes_run.
  destruct (gm_hproc st), (gm_base_addr st); try done.
  destruct (max_chars * 2 <? 0); [done|].
  by destruct (read_cells _ _ _).
Qed.

Lemma read_name_run a n st :
  exists name s1,
    try_catch (s ← read_wstring a n; mret (strip s)) (mret []) st = (Val name, s1)
    /\ team_types s1 = team_types st /\ team_list s1 = team_list st
    /\ os_mem s1 = os_mem st.
Proof.
  rewrite try_catch_run, bind_run, read_wstring_run.
  destruct (gm_hproc st), (gm_base_addr st); try (by eexists _, _).
  destruct (n * 2 <? 0); [by eexists _, _|].
  destruct (read_cells _ _ _) as [bs|]; by eexists _, _.
Qed.

(** One slot of the team scan: the roster type it stores is 0 and the name
    carries no year, since neither can be read. *)
Lemma scan_team_slot_run base i st :
  exists name st1,
    scan_team_slot base i st
    = (Val (if _is_printable_ascii name 2 48 then Some (i, name) else None), st1)
    /\ team_types st1 = <[i := 0]> (team_types st)
    /\ team_list st1 = team_list st /\ os_mem st1 = os_mem st.
Proof.
  unfold scan_team_slot. rewrite bind_run.
  destruct (read_name_run (base + i * TEAM_STRIDE + TEAM_NAME_OFFSET) TEAM_NAME_LENGTH st)
    as (name & s1 & Hname & Ht & Hl & Hm).
  unfold pystr in *. rewrite Hname. unfold read_uint8, read_uint16. run.
  exists name. eexists. split; [done|].
  cbn [team_types team_list os_mem set_team_types]. by rewrite Ht, Hl, Hm.
Qed.

Lemma scan_team_slots_run base idxs st :
  StronglySorted Z.lt idxs ->
  exists res st',
    scan_team_slots base idxs st = (Val res, st') /\
    StronglySorted Z.lt (map fst res) /\
    (forall i, i ∈ map fst res -> i ∈ idxs) /\
    (forall i, team_types st' !! i
               = if decide (i ∈ idxs) then Some 0 else team_types st !! i) /\
    team_list st' = team_list st /\ os_mem st' = os_mem st.
Proof.
  revert st. induction idxs as [|i idxs IH]; intros st Hs.
  - exists [], st. cbn [scan_team_slots]. rewrite mret_run. split; [done|].
    split; [constructor|]. split; [done|]. split; [|done].
    intros i. by rewrite decide_False by apply not_elem_of_nil.
  - apply StronglySorted_inv in Hs as [Hs Hi].
    cbn [scan_team_slots]. rewrite bind_run.
    destruct (scan_team_slot_run base i st) as (name & s1 & -> & Ht1 & Hl1 & Hm1).
    rewrite bind_run.
    destruct (IH s1 Hs) as (res & st' & -> & Hsorted & Hin & Ht & Hl & Hm).
    rewrite mret_run.
    assert (Htypes : forall j, team_types st' !! j
                = if decide (j ∈ i :: idxs) then Some 0 else team_types st !! j).
    { intros j. rewrite Ht, Ht1.
      destruct (decide (j ∈ idxs)) as [Hj|Hj].
      - rewrite decide_True; [done|by right].
      - destruct (decide (j = i)) as [->|Hne].
        + rewrite lookup_insert_eq. rewrite decide_True; [done|by left].
        + rewrite lookup_insert_ne by done. rewrite decide_False; [done|].
          rewrite elem_of_cons. by intros [?|?]. }
    destruct (_is_printable_ascii name 2 48).
    + eexists _, _. split; [done|]. cbn [map fst].
      split.
      { constructor; [done|]. apply Forall_forall. intros j Hj.
        rewrite Forall_forall in Hi. apply Hi. by apply Hin. }
      split.
      { intros j. rewrite !elem_of_cons. intros [->|Hj]; [by left|right; by apply Hin]. }
      split; [done|]. by rewrite Hl, Hm, Hl1, Hm1.
    + eexists _, _. split; [done|]. split; [done|].
      split.
      { intros j Hj. right. by apply Hin. }
      split; [done|]. by rewrite Hl, Hm, Hl1, Hm1.
Qed.

Lemma for_chains_returns attempt chains st :
  exists r st', for_chains attempt chains st = (Val r, st').
Proof.
  revert st. induction chains as [|c chains IH]; intros st; cbn [for_chains].
  - by eexists _, _.
  - rewrite bind_run.
    destruct (try_catch_returns (attempt c) None st) as (r & s1 & ->).
    destruct r as [b|]; [by eexists _, _|apply IH].
Qed.

Lemma resolve_team_returns st :
  exists r st', _resolve_team_base_ptr st = (Val r, st').
Proof.
  unfold _resolve_team_base_ptr. run.
  destruct (resolved_team_base st); [by eexists _, _|].
  destruct (gm_base_addr st); [|by eexists _, _].
  destruct (negb (truthy (gm_hproc st))); [by eexists _, _|].
  apply for_chains_returns.
Qed.

Lemma preserving_validate_team_base b : preserving (validate_team_base b).
Proof.
  unfold validate_team_base.
  apply preserving_bind.
  { apply preserving_bind; [apply preserving_read_wstring|].
    intros s. apply preserving_ret. }
  intros name. apply preserving_ret.
Qed.

Lemma preserving_team_chain_attempt base_addr c :
  preserving (team_chain_attempt base_addr c).
Proof.
  destruct c as [[rva_off final_off] extra_deref].
  unfold team_chain_attempt.
  apply preserving_bind; [apply preserving_read_uint64|]. intros p.
  apply preserving_bind.
  { destruct extra_deref; [apply preserving_read_uint64|apply preserving_ret]. }
  intros p'. apply preserving_bind; [apply preserving_validate_team_base|].
  intros [|]; [|apply preserving_ret].
  apply preserving_bind; [|intros ?; apply preserving_ret].
  apply preserving_modify. intros st. by repeat split.
Qed.

Lemma preserving_resolve_team : preserving _resolve_team_base_ptr.
Proof.
  unfold _resolve_team_base_ptr.
  apply preserving_bind; [apply preserving_get_state|]. intros s.
  destruct (resolved_team_base s); [apply preserving_ret|].
  destruct (gm_base_addr s) as [base_addr|]; [|apply preserving_ret].
  destruct (negb (truthy (gm_hproc s))); [apply preserving_ret|].
  apply preserving_for_chains. intros c. apply preserving_team_chain_attempt.
Qed.

Lemma team_chains_cache base_addr chains st b st' :
  for_chains (team_chain_attempt base_addr) chains st = (Val (Some b), st') ->
  resolved_team_base st' = Some b.
Proof.
  revert st. induction chains as [|c chains IH]; intros st; simpl; [done|].
  rewrite bind_run, try_catch_run.
  destruct (team_chain_attempt base_addr c st) as [[[b0|]|e] s1] eqn:E; run.
  - intros [= <- <-]. by eapply team_attempt_caches.
  - apply IH.
  - apply IH.
Qed.

Lemma resolve_team_caches st b st' :
  _resolve_team_base_ptr st = (Val (Some b), st') ->
  resolved_team_base st' = Some b.
Proof.
  unfold _resolve_team_base_ptr. run.
  destruct (resolved_team_base st) as [b0|] eqn:Hc.
  { run. by intros [= <- <-]. }
  destruct (gm_base_addr st) as [base_addr|]; [|by run].
  destruct (negb (truthy (gm_hproc st))); [by run|].
  apply team_chains_cache.
Qed.

Lemma resolve_team_cached st b :
  resolved_team_base st = Some b ->
  _resolve_team_base_ptr st = (Val (Some b), st).
Proof. intros H. unfold _resolve_team_base_ptr. run. by rewrite H. Qed.

Lemma dedupe_keeps_slots pairs : map fst (_dedupe_team_names pairs) = map fst pairs.
Proof.
  unfold _dedupe_team_names. rewrite map_map. apply map_ext.
  intros [idx name]. by case_match.
Qed.

Lemma seqZ_sorted m n : StronglySorted Z.lt (seqZ m n).
Proof.
  unfold seqZ. generalize 0%nat as s.
  induction (Z.to_nat n) as [|k IH]; intros s; cbn [seq fmap list_fmap].
  - constructor.
  - constructor; [apply IH|]. apply Forall_forall. intros x Hx.
    apply list_elem_of_fmap in Hx as (j & -> & Hj). apply elem_of_seq in Hj. lia.
Qed.

(** X13: The team scan never raises.  The slots it returns are in increasing
    order, each below [MAX_TEAMS_SCAN]; when it returns any, the list is the
    one it caches in [team_list], and the roster type it has recorded is 0
    for every scanned slot: the byte that holds the type is read through
    [read_uint8], which [GameMemory] does not have. *)
Theorem team_scan_result (st : State) :
  exists res st',
    _scan_team_names st = (Val res, st') /\
    StronglySorted Z.lt (map fst res) /\
    Forall (fun i => 0 <= i < MAX_TEAMS_SCAN) (map fst res) /\
    os_mem st' = os_mem st /\
    (res <> [] ->
       team_list st' = res /\
       forall i, team_types st' !! i
                 = if decide (0 <= i < MAX_TEAMS_SCAN) then Some 0 else None).
Proof.
  unfold _scan_team_names. run.
  destruct (negb (truthy (gm_hproc st)) || bool_decide (gm_base_addr st = None)).
  { run. exists [], st. split; [done|]. split; [constructor|]. by repeat split. }
  run. destruct (resolve_team_returns st) as (r & s1 & Hr). rewrite Hr.
  assert (Hm1 : os_mem s1 = os_mem st).
  { by destruct (preserving_resolve_team _ _ _ Hr) as (_ & _ & _ & _ & ? & _). }
  destruct r as [base|].
  2:{ run. exists [], s1. split; [done|]. split; [constructor|]. by repeat split. }
  run.
  destruct (scan_team_slots_run base (seqZ 0 MAX_TEAMS_SCAN) (set_team_types ∅ s1)
              (seqZ_sorted 0 MAX_TEAMS_SCAN))
    as (res & st' & -> & Hsorted & Hin & Ht & Hl & Hm).
  run. eexists _, _. split; [done|].
  rewrite dedupe_keeps_slots.
  split; [done|]. split.
  { apply Forall_forall. intros i Hi. apply Hin, elem_of_seqZ in Hi. lia. }
  split; [cbn [os_mem set_team_list]; by rewrite Hm|].
  intros _. split; [done|]. intros i. cbn [team_types set_team_list].
  rewrite Ht. cbn [team_types set_team_types]. rewrite lookup_empty.
  destruct (decide (0 <= i < MAX_TEAMS_SCAN)) as [Hi|Hi].
  - rewrite decide_True; [done|]. apply elem_of_seqZ. lia.
  - rewrite decide_False; [done|]. rewrite elem_of_seqZ. lia.
Qed.

(** ** Writing a player back and scanning the slot again *)

Lemma read_bytes_of_cells a n data st :
  gm_hproc st <> None -> gm_base_addr st <> None ->
  Z.of_nat (length data) = n ->
  (forall j, (j < length data)%nat ->
             os_mem st !! (c_void_p a + Z.of_nat j) = data !! j) ->
  read_bytes a n st = (Val data, log_read a n st).
Proof.
  intros Hh Hb Hn Hcells. rewrite read_bytes_run.
  destruct (gm_hproc st); [|done]. destruct (gm_base_addr st); [|done].
  destruct (Z.ltb_spec n 0) as [|_]; [lia|].
  rewrite (read_cells_complete _ _ _ data); [done|lia|].
  intros j Hj. apply Hcells. lia.
Qed.

Lemma update_player_writes player st st' table_base :
  truthy (gm_hproc st) = true -> gm_base_addr st <> None ->
  resolved_player_base st = Some table_base ->
  1 <= NAME_MAX_CHARS cfg ->
  forallb one_unit (last_name player) = true ->
  forallb one_unit (first_name player) = true ->
  update_player player st = (Val tt, st') ->
  let p_addr := table_base + index player * PLAYER_STRIDE cfg in
  os_mem st'
  = write_cells
      (write_cells
         (write_cells (os_mem st) (c_void_p (p_addr + OFF_LAST_NAME cfg))
                      (field_bytes (last_name player) (NAME_MAX_CHARS cfg)))
         (c_void_p (p_addr + OFF_FIRST_NAME cfg))
         (field_bytes (first_name player) (NAME_MAX_CHARS cfg)))
      (c_void_p (p_addr + OFF_FACE_ID cfg))
      (bytes_little (Z.land (face_id player) 0xFFFFFFFF) 4)
  /\ gm_hproc st' = gm_hproc st /\ gm_base_addr st' = gm_base_addr st.
Proof.
  intros Hh Hb Hres Hn Hlast Hfirst. unfold update_player. run.
  rewrite Hh. rewrite bool_decide_eq_false_2 by done. cbn [negb orb]. run.
  rewrite (resolve_player_cached st table_base Hres). run.
  rewrite write_wstring_fixed_bytes by done.
  destruct (write_bytes _ _ st) as [[[]|e] s1] eqn:W1; [|done].
  apply write_bytes_effect in W1 as (-> & _). cbn beta iota.
  rewrite bind_run, write_wstring_fixed_bytes by done.
  destruct (write_bytes _ _ (set_mem _ st)) as [[[]|e] s2] eqn:W2; [|done].
  apply write_bytes_effect in W2 as (-> & _). cbn beta iota.
  unfold write_uint32. intros W3.
  apply write_bytes_effect in W3 as (-> & _). done.
Qed.

(** X14: Saving a player and scanning the slot again.  On an open process with a
    resolved player table, when the two name fields and the face id lie apart
    from one another and the names are made of one-unit characters, a call of
    [update_player] that returns is followed by a scan of the same slot that
    finds the saved names, cut to [NAME_MAX_CHARS - 1] characters and at the
    first NUL and then stripped, and the face id modulo [2^32]; the slot is
    skipped when both names come out empty. *)
Theorem update_player_then_scan (player : Player) (st st' : State) (table_base : Z) :
  truthy (gm_hproc st) = true -> gm_base_addr st <> None ->
  resolved_player_base st = Some table_base ->
  1 <= NAME_MAX_CHARS cfg ->
  forallb one_unit (last_name player) = true ->
  forallb one_unit (first_name player) = true ->
  let p_addr := table_base + index player * PLAYER_STRIDE cfg in
  let n := NAME_MAX_CHARS cfg in
  let a_last := c_void_p (p_addr + OFF_LAST_NAME cfg) in
  let a_first := c_void_p (p_addr + OFF_FIRST_NAME cfg) in
  let a_face := c_void_p (p_addr + OFF_FACE_ID cfg) in
  (a_last + 2 * n <= a_first \/ a_first + 2 * n <= a_last) ->
  (a_last + 2 * n <= a_face \/ a_face + 4 <= a_last) ->
  (a_first + 2 * n <= a_face \/ a_face + 4 <= a_first) ->
  update_player player st = (Val tt, st') ->
  let saved name := strip (until_nul (take (Z.to_nat (n - 1)) name)) in
  exists team st'',
    scan_player_slot table_base (index player) st'
    = (Val (match saved (last_name player), saved (first_name player) with
            | [], [] => None
            | _, _ => Some (mkPlayer (index player) (saved (first_name player))
                                     (saved (last_name player)) team
                                     (face_id player mod 2 ^ 32))
            end), st'').
Proof.
  intros Hh Hb Hres Hn Hlast Hfirst p_addr n a_last a_first a_face D1 D2 D3 Hup saved.
  destruct (update_player_writes _ _ _ _ Hh Hb Hres Hn Hlast Hfirst Hup)
    as (Hmem & Hh' & Hb').
  fold p_addr n a_last a_first a_face in Hmem.
  pose proof (length_field_bytes (last_name player) n Hn) as L1.
  pose proof (length_field_bytes (first_name player) n Hn) as L2.
  assert (L3 : length (bytes_little (Z.land (face_id player) 0xFFFFFFFF) 4) = 4%nat)
    by apply length_bytes_little.
  assert (Hopen : forall s, gm_hproc s = gm_hproc st' -> gm_hproc s <> None).
  { intros s ->. rewrite Hh'. by destruct (gm_hproc st). }
  assert (Hbase : forall s, gm_base_addr s = gm_base_addr st' -> gm_base_addr s <> None).
  { intros s ->. by rewrite Hb'. }
  assert (R1 : forall s, os_mem s = os_mem st' -> gm_hproc s = gm_hproc st' ->
             gm_base_addr s = gm_base_addr st' ->
             read_wstring (p_addr + OFF_LAST_NAME cfg) n s
             = (Val (until_nul (take (Z.to_nat (n - 1)) (last_name player))),
                log_read (p_addr + OFF_LAST_NAME cfg) (n * 2) s)).
  { intros s Hm H1 H2. unfold read_wstring. rewrite bind_run.
    rewrite (read_bytes_of_cells _ _ (field_bytes (last_name player) n));
      [|by apply Hopen|by apply Hbase|lia|].
    - rewrite mret_run. by rewrite decode_field_bytes.
    - intros j Hj. rewrite Hm, Hmem. fold a_last.
      rewrite !write_cells_lookup, L3.
      rewrite decide_False by lia. rewrite decide_False by lia.
      rewrite decide_True by lia. f_equal. lia. }
  assert (R2 : forall s, os_mem s = os_mem st' -> gm_hproc s = gm_hproc st' ->
             gm_base_addr s = gm_base_addr st' ->
             read_wstring (p_addr + OFF_FIRST_NAME cfg) n s
             = (Val (until_nul (take (Z.to_nat (n - 1)) (first_name player))),
                log_read (p_addr + OFF_FIRST_NAME cfg) (n * 2) s)).
  { intros s Hm H1 H2. unfold read_wstring. rewrite bind_run.
    rewrite (read_bytes_of_cells _ _ (field_bytes (first_name player) n));
      [|by apply Hopen|by apply Hbase|lia|].
    - rewrite mret_run. by rewrite decode_field_bytes.
    - intros j Hj. rewrite Hm, Hmem. fold a_first.
      rewrite !write_cells_lookup, L3.
      rewrite decide_False by lia. rewrite decide_True by lia. f_equal. lia. }
  assert (R3 : forall s, os_mem s = os_mem st' -> gm_hproc s = gm_hproc st' ->
             gm_base_addr s = gm_base_addr st' ->
             read_uint32 (p_addr + OFF_FACE_ID cfg) s
             = (Val (face_id player mod 2 ^ 32),
                log_read (p_addr + OFF_FACE_ID cfg) 4 s)).
  { intros s Hm H1 H2. unfold read_uint32. rewrite bind_run.
    rewrite (read_bytes_of_cells _ _ (bytes_little (Z.land (face_id player) 0xFFFFFFFF) 4));
      [|by apply Hopen|by apply Hbase|by rewrite L3|].
    - rewrite mret_run. f_equal. f_equal. rewrite from_bytes_little_bytes.
      change 0xFFFFFFFF with (Z.ones 32). rewrite Z.land_ones by lia.
      change (256 ^ Z.of_nat 4) with (2 ^ 32). by rewrite Z.mod_mod.
    - intros j Hj. rewrite Hm, Hmem. fold a_face.
      rewrite write_cells_lookup, L3.
      rewrite decide_True by lia. f_equal. lia. }
  unfold scan_player_slot. fold p_addr n.
  rewrite bind_run, try_catch_run, !bind_run.
  rewrite R1 by done. rewrite mret_run, !bind_run.
  rewrite R2 by done. rewrite mret_run, bind_run.
  rewrite R3 by done. rewrite mret_run.
  fold (saved (last_name player)) (saved (first_name player)).
  destruct (saved (last_name player)) as [|c l] eqn:El.
  - destruct (saved (first_name player)) as [|c f] eqn:Ef.
    + rewrite mret_run. by eexists [], _.
    + rewrite bind_run.
      match goal with |- context [try_catch ?b (mret ?d) ?s] =>
        destruct (try_catch_returns b d s) as (team & s4 & ->) end.
      rewrite mret_run. by exists team, s4.
  - rewrite bind_run.
    match goal with |- context [try_catch ?b (mret ?d) ?s] =>
      destruct (try_catch_returns b d s) as (team & s4 & ->) end.
    rewrite mret_run. exists team, s4. by destruct (saved (first_name player)).
Qed.

(** ** Team fields *)

Lemma read_field_run (g : pystr -> pystr) a n st :
  exists val s1,
    try_catch (s ← read_wstring a n; mret (g s)) (mret []) st = (Val val, s1)
    /\ os_mem s1 = os_mem st /\ gm_hproc s1 = gm_hproc st
    /\ gm_base_addr s1 = gm_base_addr st
    /\ resolved_team_base s1 = resolved_team_base st.
Proof.
  rewrite try_catch_run, bind_run, read_wstring_run.
  destruct (gm_hproc st) eqn:Hh, (gm_base_addr st) eqn:Hb;
    try (eexists _, _; split; [done|]; by rewrite ?Hh, ?Hb).
  destruct (n * 2 <? 0); [eexists _, _; split; [done|]; by rewrite ?Hh, ?Hb|].
  destruct (read_cells _ _ _) as [bs|];
    (eexists _, _; split; [done|]; cbn; by rewrite ?Hh, ?Hb).
Qed.

(** What one field reads as depends on the bytes and on the handle only. *)
Lemma read_field_value (g : pystr -> pystr) a n st s :
  os_mem s = os_mem st -> gm_hproc s = gm_hproc st -> gm_base_addr s = gm_base_addr st ->
  fst (try_catch (s0 ← read_wstring a n; mret (g s0)) (mret []) s)
  = fst (try_catch (s0 ← read_wstring a n; mret (g s0)) (mret []) st).
Proof.
  intros Hm Hh Hb. rewrite !try_catch_run, !bind_run, !read_wstring_run, Hm, Hh, Hb.
  destruct (gm_hproc st), (gm_base_addr st); try done.
  destruct (n * 2 <? 0); [done|].
  by destruct (read_cells _ _ _).
Qed.

Lemma read_team_fields_get rec_addr fields label offset max_chars st :
  NoDup (map fst fields) -> (label, (offset, max_chars)) ∈ fields ->
  exists res st',
    read_team_fields rec_addr fields st = (Val res, st') /\
    values_get res label
    = match fst (try_catch (s ← read_wstring (rec_addr + offset) max_chars;
                            mret (rstrip_nul s)) (mret []) st) with
      | Val val => Some val
      | Exc _ => None
      end.
Proof.
  revert st. induction fields as [|[l [o m]] fields IH]; intros st Hnd Hin.
  - by apply elem_of_nil in Hin.
  - cbn [map fst] in Hnd. apply NoDup_cons in Hnd as [Hl Hnd].
    cbn [read_team_fields]. rewrite bind_run.
    destruct (read_field_run rstrip_nul (rec_addr + o) m st)
      as (val & s1 & Hrun & Hm1 & Hh1 & Hb1 & _).
    unfold pystr in *. rewrite Hrun. rewrite bind_run.
    apply elem_of_cons in Hin as [Heq|Hin].
    + injection Heq as -> -> ->.
      assert (Hrest : exists more s2, read_team_fields rec_addr fields s1 = (Val more, s2)).
      { clear. revert s1. induction fields as [|[l' [o' m']] fields IH]; intros s1.
        - by eexists _, _.
        - cbn [read_team_fields]. rewrite bind_run.
          destruct (read_field_run rstrip_nul (rec_addr + o') m' s1) as (v & s2 & Hr & _).
          unfold pystr in *. rewrite Hr, bind_run.
          destruct (IH s2) as (more & s3 & ->). by eexists _, _. }
      destruct Hrest as (more & s2 & ->). rewrite mret_run.
      eexists _, _. split; [done|]. cbn [values_get].
      rewrite bool_decide_eq_true_2 by done. by rewrite Hrun.
    + destruct (IH s1 Hnd Hin) as (more & s2 & -> & Hget). rewrite mret_run.
      eexists _, _. split; [done|]. cbn [values_get].
      rewrite bool_decide_eq_false_2.
      2:{ intros ->. apply Hl. apply list_elem_of_fmap. by exists (label, (offset, max_chars)). }
      rewrite Hget. by rewrite (read_field_value rstrip_nul _ _ st s1).
Qed.

Lemma write_team_fields_skip rec_addr label v fields success st :
  label ∉ map fst fields ->
  write_team_fields rec_addr [(label, v)] fields success st = (Val success, st).
Proof.
  revert success. induction fields as [|[l [o m]] fields IH]; intros success Hl; [done|].
  cbn [map fst] in Hl. apply not_elem_of_cons in Hl as [Hne Hl].
  cbn [write_team_fields values_get].
  rewrite bool_decide_eq_false_2 by done. by apply IH.
Qed.

(** With a single value to write, the loop of [set_team_fields] makes the one
    write of its label. *)
Lemma write_team_fields_single rec_addr label offset max_chars v fields success st :
  NoDup (map fst fields) -> (label, (offset, max_chars)) ∈ fields ->
  write_team_fields rec_addr [(label, v)] fields success st
  = (ok ← try_catch (write_wstring_fixed (rec_addr + offset) v max_chars;; mret true)
                    (mret false);
     mret (success && ok)) st.
Proof.
  revert success st. induction fields as [|[l [o m]] fields IH]; intros success st Hnd Hin.
  - by apply elem_of_nil in Hin.
  - cbn [map fst] in Hnd. apply NoDup_cons in Hnd as [Hl Hnd].
    cbn [write_team_fields values_get].
    apply elem_of_cons in Hin as [Heq|Hin].
    + injection Heq as -> -> ->. rewrite bool_decide_eq_true_2 by done.
      rewrite !bind_run.
      destruct (try_catch _ _ st) as [[ok|e] s1]; [|done].
      rewrite write_team_fields_skip by done. by rewrite mret_run.
    + rewrite bool_decide_eq_false_2; [by apply IH|].
      intros ->. apply Hl. apply list_elem_of_fmap. by exists (l, (offset, max_chars)).
Qed.

Lemma team_fields_labels : NoDup (map fst TEAM_FIELDS).
Proof. apply (bool_decide_unpack _). by vm_compute. Qed.

Lemma team_fields_range label offset max_chars :
  (label, (offset, max_chars)) ∈ TEAM_FIELDS ->
  1 <= max_chars /\ 0 <= offset /\ offset + 2 * max_chars <= TEAM_RECORD_SIZE.
Proof.
  unfold TEAM_FIELDS, TEAM_RECORD_SIZE, TEAM_STRIDE. intros H.
  repeat (apply elem_of_cons in H as [H|H]; [injection H as _ -> ->; lia|]).
  by apply elem_of_nil in H.
Qed.

Lemma rstrip_nul_no_nul s : 0%N ∉ s -> rstrip_nul s = s.
Proof.
  intros Hs. unfold rstrip_nul.
  assert (H : lstrip_nul (rev s) = rev s).
  { assert (Hr : 0%N ∉ rev s) by (by rewrite list_elem_of_In, <- in_rev, <- list_elem_of_In).
    destruct (rev s) as [|c r]; [done|]. cbn [lstrip_nul].
    destruct (N.eqb_spec c 0) as [->|_]; [|done].
    exfalso. apply Hr. by left. }
  by rewrite H, rev_involutive.
Qed.

(** The state after [set_team_fields] has written the single value it was
    given. *)
Lemma set_team_fields_single team_idx label offset max_chars v st st' :
  (label, (offset, max_chars)) ∈ TEAM_FIELDS ->
  forallb one_unit v = true ->
  set_team_fields team_idx [(label, v)] st = (Val true, st') ->
  exists s1 team_base,
    truthy (gm_hproc s1) = true /\ gm_base_addr s1 <> None /\
    resolved_team_base s1 = Some team_base /\ os_mem s1 = os_mem st /\
    st' = set_mem (write_cells (os_mem s1)
                     (c_void_p (team_base + team_idx * TEAM_RECORD_SIZE + offset))
                     (field_bytes v max_chars)) s1.
Proof.
  intros Hin Hv. unfold set_team_fields. run.
  destruct (truthy (gm_hproc st)) eqn:Hh; cbn [negb orb]; [|by run].
  destruct (bool_decide_reflect (gm_base_addr st = None)) as [Hb|Hb]; [by run|].
  run. destruct (resolve_team_returns st) as (r & s1 & Hr). rewrite Hr.
  pose proof (preserving_resolve_team _ _ _ Hr)
    as (_ & _ & _ & _ & Hmem & _ & _ & Hh1 & Hb1).
  destruct r as [team_base|]; [|by run].
  pose proof (resolve_team_caches _ _ _ Hr) as Hres.
  rewrite (write_team_fields_single _ label offset max_chars) by
    (done || apply team_fields_labels).
  destruct (team_fields_range _ _ _ Hin) as (Hmax & _).
  rewrite bind_run, try_catch_run, bind_run, write_wstring_fixed_bytes by done.
  destruct (write_bytes _ _ s1) as [[[]|e] s2] eqn:W; run; [|done].
  apply write_bytes_effect in W as (-> & _). intros [= <-].
  exists s1, team_base. rewrite Hh1, Hb1. by repeat split.
Qed.

Lemma get_team_fields_label team_idx label offset max_chars st team_base :
  (label, (offset, max_chars)) ∈ TEAM_FIELDS ->
  truthy (gm_hproc st) = true -> gm_base_addr st <> None ->
  resolved_team_base st = Some team_base ->
  exists fields st',
    get_team_fields team_idx st = (Val (Some fields), st') /\
    values_get fields label
    = match fst (try_catch
                   (s ← read_wstring (team_base + team_idx * TEAM_RECORD_SIZE + offset)
                                     max_chars;
                    mret (rstrip_nul s)) (mret []) st) with
      | Val val => Some val
      | Exc _ => None
      end.
Proof.
  intros Hin Hh Hb Hres. unfold get_team_fields. run.
  rewrite Hh. rewrite bool_decide_eq_false_2 by done. cbn [negb orb]. run.
  rewrite (resolve_team_cached st team_base Hres). run.
  destruct (read_team_fields_get (team_base + team_idx * TEAM_RECORD_SIZE) TEAM_FIELDS
              label offset max_chars st team_fields_labels Hin)
    as (res & s1 & -> & Hget).
  run. by eexists _, _.
Qed.

(** X15: A team field that was saved alone reads back.  After [set_team_fields]
    has been given one value, of one-unit characters, for a label of
    [TEAM_FIELDS] and has returned [True], [get_team_fields] reports under
    that label the first [max_chars - 1] characters of the value, up to its
    first NUL.  Nothing is assumed of the state before the call: the team
    table may or may not have been resolved already. *)
Theorem team_field_saved (team_idx : Z) (label : pystr) (offset max_chars : Z)
        (v : pystr) (st st' : State) :
  (label, (offset, max_chars)) ∈ TEAM_FIELDS ->
  forallb one_unit v = true ->
  set_team_fields team_idx [(label, v)] st = (Val true, st') ->
  exists fields st'',
    get_team_fields team_idx st' = (Val (Some fields), st'') /\
    values_get fields label = Some (until_nul (take (Z.to_nat (max_chars - 1)) v)).
Proof.
  intros Hin Hv Hset.
  destruct (set_team_fields_single _ _ _ _ _ _ _ Hin Hv Hset)
    as (s1 & team_base & Hh & Hb & Hres & _ & ->).
  destruct (team_fields_range _ _ _ Hin) as (Hmax & _).
  destruct (get_team_fields_label team_idx label offset max_chars
              (set_mem (write_cells (os_mem s1)
                          (c_void_p (team_base + team_idx * TEAM_RECORD_SIZE + offset))
                          (field_bytes v max_chars)) s1) team_base Hin)
    as (fields & st'' & Hget & Hval); [done..|].
  exists fields, st''. split; [done|]. rewrite Hval.
  rewrite try_catch_run, bind_run.
  unfold read_wstring. rewrite bind_run.
  rewrite (read_bytes_of_cells _ _ (field_bytes v max_chars)).
  - rewrite !mret_run. cbn [fst]. f_equal.
    rewrite decode_field_bytes by done.
    apply rstrip_nul_no_nul. apply until_nul_spec.
  - cbn [gm_hproc set_mem]. by destruct (gm_hproc s1).
  - done.
  - rewrite length_field_bytes by done. lia.
  - intros j Hj. cbn [os_mem set_mem]. rewrite write_cells_lookup.
    rewrite decide_True by lia. f_equal. lia.
Qed.





(** ** Copying between players *)

Lemma copy_block_effect src dst len st st' :
  copy_block src dst len st = (Val tt, st') ->
  exists data,
    0 <= len /\ length data = Z.to_nat len /\
    (forall j, (j < length data)%nat ->
               os_mem st !! (c_void_p src + Z.of_nat j) = data !! j) /\
    os_mem st' = write_cells (os_mem st) (c_void_p dst) data /\
    resolved_player_base st' = resolved_player_base st.
Proof.
  unfold copy_block. rewrite bind_run, read_bytes_run.
  destruct (gm_hproc st), (gm_base_addr st); try done.
  destruct (Z.ltb_spec len 0) as [|Hlen]; [done|].
  destruct (read_cells _ _ _) as [data|] eqn:Hc; [|done].
  intros Hw. apply write_bytes_effect in Hw as [-> _].
  apply read_cells_lookup in Hc as [Hl Hj].
  exists data. split; [done|]. split; [done|]. split; [|done].
  intros j Hlt. apply Hj. lia.
Qed.

Lemma copy_categories_single src_addr dst_addr cat off len st r st' :
  (lower cat, (off, len)) ∈ category_blocks ->
  copy_categories src_addr dst_addr [cat] st = (r, st') ->
  exists r0, copy_block (src_addr + off) (dst_addr + off) len st = (r0, st')
             /\ (r = Val tt -> r0 = Val tt).
Proof.
  intros Hin. cbn [copy_categories]. rewrite bind_run.
  unfold category_blocks in Hin. rewrite !elem_of_cons, elem_of_nil in Hin.
  destruct Hin as [H|[H|[H|[H|[H|[]]]]]]; injection H as -> -> ->;
    cbn [bool_decide decide_rel]; rewrite ?Z.add_0_r;
    repeat (rewrite bool_decide_eq_false_2 by (by vm_compute));
    rewrite bool_decide_eq_true_2 by done;
    destruct (copy_block _ _ _ st) as [[[]|e] s1]; rewrite ?mret_run;
    intros [= <- <-]; by eexists.
Qed.

Lemma resolve_player_returns st :
  exists r st', _resolve_player_table_base st = (Val r, st').
Proof.
  unfold _resolve_player_table_base. run.
  destruct (resolved_player_base st); [by eexists _, _|].
  destruct (gm_base_addr st) as [base_addr|]; [|by eexists _, _].
  destruct (negb (truthy (gm_hproc st))); [by eexists _, _|].
  run.
  destruct (for_chains_returns (player_chain_attempt base_addr) PLAYER_PTR_CHAINS st)
    as (r & s1 & ->).
  destruct r as [b|]; [by eexists _, _|].
  apply try_catch_returns.
Qed.

Lemma copy_categories_unknown src_addr dst_addr categories st :
  (forall cat, cat ∈ categories -> lower cat ∉ map fst category_blocks) ->
  copy_categories src_addr dst_addr categories st = (Val tt, st).
Proof.
  induction categories as [|cat rest IH]; intros Hunk; [done|].
  cbn [copy_categories]. rewrite bind_run.
  assert (Hc : lower cat ∉ map fst category_blocks).
  { apply Hunk. apply elem_of_cons. by left. }
  cbn [map fst category_blocks] in Hc. rewrite !not_elem_of_cons in Hc.
  destruct Hc as (H1 & H2 & H3 & H4 & H5 & _).
  rewrite !bool_decide_eq_false_2 by done. rewrite mret_run.
  apply IH. intros c Hc. apply Hunk. apply elem_of_cons. by right.
Qed.

(** X17: [copy_player_data] never raises.  When an index is negative or not below
    the number of known players it returns [False] and the process memory is
    as before.  Category names that are not one of the five known ones
    (compared in lower case) are skipped without notice: a call that names
    only such categories leaves the memory as it was, and still returns
    [True] when the process is open, the player table is resolved and both
    indices are in range. *)
Theorem copy_player_data_refusals (players : list Player) (src_index dst_index : Z)
        (categories : list pystr) (st : State) :
  exists b st',
    copy_player_data players src_index dst_index categories st = (Val b, st') /\
    (~ (0 <= src_index < Z.of_nat (length players) /\
        0 <= dst_index < Z.of_nat (length players)) ->
     b = false /\ os_mem st' = os_mem st) /\
    ((forall cat, cat ∈ categories -> lower cat ∉ map fst category_blocks) ->
     os_mem st' = os_mem st /\
     (truthy (gm_hproc st) = true -> gm_base_addr st <> None ->
      resolved_player_base st <> None ->
      0 <= src_index < Z.of_nat (length players) ->
      0 <= dst_index < Z.of_nat (length players) ->
      b = true)).
Proof.
  unfold copy_player_data. run.
  destruct (truthy (gm_hproc st)) eqn:Hh; cbn [negb orb];
    [|exists false, st; run; repeat split; done].
  destruct (bool_decide_reflect (gm_base_addr st = None)) as [Hb|Hb];
    [exists false, st; run; repeat split; done|].
  run.
  destruct (resolve_player_returns st) as (r & s1 & Hr). rewrite Hr.
  pose proof (preserving_resolve_player _ _ _ Hr) as (_ & _ & _ & _ & Hmem & _).
  destruct r as [table_base|].
  2:{ exists false, s1. run. split; [done|]. split; [done|].
      intros _. split; [done|]. intros _ _ Hres.
      destruct (resolved_player_base st) as [b0|] eqn:Hc; [|done].
      rewrite (resolve_player_cached _ _ Hc) in Hr. done. }
  destruct (Z.ltb_spec src_index 0) as [Hs0|Hs0]; cbn [orb].
  { exists false, s1. run. split; [done|]. split; [done|].
    intros _. split; [done|]. lia. }
  destruct (Z.ltb_spec dst_index 0) as [Hd0|Hd0]; cbn [orb].
  { exists false, s1. run. split; [done|]. split; [done|].
    intros _. split; [done|]. lia. }
  destruct (Z.leb_spec (Z.of_nat (length players)) src_index) as [Hs1|Hs1]; cbn [orb].
  { exists false, s1. run. split; [done|]. split; [done|].
    intros _. split; [done|]. lia. }
  destruct (Z.leb_spec (Z.of_nat (length players)) dst_index) as [Hd1|Hd1]; cbn [orb].
  { exists false, s1. run. split; [done|]. split; [done|].
    intros _. split; [done|]. lia. }
  match goal with |- context [try_catch ?body (mret false) s1] =>
    destruct (try_catch_returns body false s1) as (b & s2 & Hrun) end.
  exists b, s2. split; [done|]. split; [lia|].
  intros Hunk. rewrite try_catch_run, bind_run in Hrun.
  rewrite (copy_categories_unknown _ _ _ _ Hunk), mret_run in Hrun.
  injection Hrun as <- <-. done.
Qed.

(** X18: A successful copy of one known category: both indices were in
    range, the bytes of that block of the destination record are afterwards
    the bytes that the same block of the source record held before the call,
    and every byte outside the destination block is unchanged.  Nothing is
    assumed of the state before the call; [table_base] is the player table
    base that the call has resolved, as it is cached afterwards. *)
Theorem copy_player_data_copies_block (players : list Player) (src_index dst_index : Z)
        (cat : pystr) (off len : Z) (st st' : State) (table_base : Z) :
  (lower cat, (off, len)) ∈ category_blocks ->
  copy_player_data players src_index dst_index [cat] st = (Val true, st') ->
  resolved_player_base st' = Some table_base ->
  0 <= src_index < Z.of_nat (length players) /\
  0 <= dst_index < Z.of_nat (length players) /\
  (forall j, 0 <= j < len ->
     exists b,
       os_mem st !! (c_void_p (table_base + src_index * PLAYER_STRIDE cfg + off) + j) = Some b /\
       os_mem st' !! (c_void_p (table_base + dst_index * PLAYER_STRIDE cfg + off) + j) = Some b) /\
  (forall a,
     ~ (c_void_p (table_base + dst_index * PLAYER_STRIDE cfg + off) <= a
        < c_void_p (table_base + dst_index * PLAYER_STRIDE cfg + off) + len) ->
     os_mem st' !! a = os_mem st !! a).
Proof.
  intros Hin. unfold copy_player_data. run.
  destruct (negb (truthy (gm_hproc st)) || bool_decide (gm_base_addr st = None));
    [by run|].
  run. destruct (resolve_player_returns st) as (r & s1 & Hr). rewrite Hr.
  pose proof (preserving_resolve_player _ _ _ Hr) as (_ & _ & _ & _ & Hmem & _).
  destruct r as [b|]; [|by run].
  pose proof (resolve_player_caches _ _ _ Hr) as Hres.
  destruct (Z.ltb_spec src_index 0) as [Hs0|Hs0]; cbn [orb]; [by run|].
  destruct (Z.ltb_spec dst_index 0) as [Hd0|Hd0]; cbn [orb]; [by run|].
  destruct (Z.leb_spec (Z.of_nat (length players)) src_index) as [Hs1|Hs1];
    cbn [orb]; [by run|].
  destruct (Z.leb_spec (Z.of_nat (length players)) dst_index) as [Hd1|Hd1];
    cbn [orb]; [by run|].
  rewrite try_catch_run, bind_run.
  destruct (copy_categories _ _ _ s1) as [[[]|e] s2] eqn:Hcopy; rewrite ?mret_run;
    [|done].
  intros [= <-] Hres'.
  destruct (copy_categories_single _ _ _ _ _ _ _ _ Hin Hcopy) as (r0 & Hblock & Hr0).
  rewrite (Hr0 eq_refl) in Hblock.
  apply copy_block_effect in Hblock as (data & Hlen & Hdata & Hsrc & Hdst & Hkeep).
  assert (b = table_base) as -> by congruence.
  rewrite Hmem in Hsrc, Hdst.
  split; [lia|]. split; [lia|]. split.
  - intros j Hj.
    assert (Hlt : (Z.to_nat j < length data)%nat) by lia.
    destruct (lookup_lt_is_Some_2 data (Z.to_nat j) Hlt) as [x Hx].
    exists x. split.
    + rewrite <- Hx, <- Hsrc by done. f_equal. lia.
    + rewrite Hdst, write_cells_lookup, decide_True by lia.
      rewrite <- Hx. f_equal. lia.
  - intros a Ha. rewrite Hdst, write_cells_lookup, decide_False; [done|]. lia.
Qed.

End Model.

(** * The round trip of a rating that is a float

    Every operation of binary64 arithmetic returns its exact result up to a
    relative error of [2^-52] and an absolute error of [2^-1074]; the
    lemmas below establish this for the operations of the codec, from the
    definitions of [SpecFloat], and follow the errors through the encoder
    and the decoder. *)

(** ** Truncation and rounding of a mantissa *)









(** ** Powers of two as rationals *)








(** ** The operations of the codec, up to one rounding *)







#[global] Instance rounds_to_proper : Proper (Qeq ==> Qeq ==> iff) rounds_to.
Proof. intros x x' Hx v v' Hv. unfold rounds_to. by rewrite Hx, Hv. Qed.













(** ** Comparisons and [round] *)













(** ** The encoder and the decoder on a rating within 25..110 *)







(** ** Ratings outside 25..110, and the theorem *)
















(** * Concrete runs *)

(** The values of the float constants of the examples. *)
Lemma rating_constants :
  (Qval f87_25 == 349 # 4)%Q /\ (Qval f27_015625 == 1729 # 64)%Q /\
  (Qval f26_375 == 211 # 8)%Q.
Proof. by vm_compute. Qed.



(** C7, as stated: on a 47-bit field the raw value 96405179523399 gives the
    float 68.5 (4820258976169984 * 2^-46), which half-up rounding takes to 69
    and the decoder to 68.  The quotient 100 * raw / (2^47 - 1) itself lies
    above 68.5. *)
Lemma tendency_tie_rounds_down_cex :
  convert_tendency_raw_to_rating_value 96405179523399 47
    = Val (Flt (S754_finite false 4820258976169984 (-46))) /\
  2 * 4820258976169984 = (2 * 68 + 1) * 2 ^ 46 /\
  (2 * 68 + 1) * (2 ^ 47 - 1) < 2 * (100 * 96405179523399) /\
  round_half_up (4820258976169984, -46) = 69 /\
  convert_tendency_raw_to_rating 96405179523399 47 = Val 68 /\
  ~ rounds_half_up convert_tendency_raw_to_rating convert_tendency_raw_to_rating_value
      96405179523399 47.
Proof.
  assert (Hv : convert_tendency_raw_to_rating_value 96405179523399 47
                 = Val (Flt (S754_finite false 4820258976169984 (-46)))) by (by vm_compute).
  assert (Hr : convert_tendency_raw_to_rating 96405179523399 47 = Val 68) by (by vm_compute).
  split; [exact Hv|]. split; [by vm_compute|]. split; [by vm_compute|].
  split; [by vm_compute|]. split; [exact Hr|].
  intros H. unfold rounds_half_up in H.
  pose proof (H (Flt (S754_finite false 4820258976169984 (-46)))
                (4820258976169984, -46) Hv eq_refl) as H'.
  rewrite Hr in H'. vm_compute in H'. discriminate H'.
Qed.

(** Two slots named alike and one named alone. *)
Lemma dedupe_team_names_distinct_witness :
  _dedupe_team_names dedupe_sample
  = [ (5, lit "Classic Team [5]"); (12, lit "Classic Team [12]"); (30, lit "Hawks") ]
  /\ NoDup (map snd (_dedupe_team_names dedupe_sample)).
Proof.
  split; [by vm_compute|].
  apply (dedupe_team_names_distinct dedupe_sample).
  - apply (bool_decide_unpack _). vm_compute. exact I.
  - vm_compute. reflexivity.
Defined.

(** C5, as stated: two entries of the result carry the same name. *)
Lemma dedupe_team_names_clash_cex :
  NoDup (map fst dedupe_clash) /\
  _dedupe_team_names dedupe_clash
  = [ (5, lit "Classic Team [5]"); (7, lit "Classic Team [5]");
      (12, lit "Classic Team [12]") ] /\
  ~ NoDup (map snd (_dedupe_team_names dedupe_clash)).
Proof.
  split; [|split].
  - apply (bool_decide_unpack _). vm_compute. exact I.
  - by vm_compute.
  - intros H. vm_compute in H. apply NoDup_cons_1_1 in H. apply H. by left.
Qed.

(** A base section, a category of five fields and a version number. *)
Lemma restructure_groups_by_offset_witness :
  restructure ascii_lower offsets_sample
  = Val [ (lit "Base", PDict [ (PStr (lit "Player Base Address"), PStr (lit "0x7E52998")) ]);
          (lit "Attributes",
           PDict [ (PStr (lit "0x39B"), PList [ entry "Pass Accuracy" 0 8; entry "Hands" 4 4 ]);
                   (PStr (lit "0x39C"), PList [ entry "Ball Control" 0 4 ]) ]);
          (lit "Version", PInt 4) ]
  /\ exists out, restructure ascii_lower offsets_sample = Val out
                 /\ Forall2 (restructured_item ascii_lower) offsets_sample out.
Proof.
  split; [by vm_compute|].
  apply (restructure_groups_by_offset ascii_lower offsets_sample).
  - apply (bool_decide_unpack _). vm_compute. exact Logic.I.
  - vm_compute. reflexivity.
Defined.

(** C9, as stated: a category holding something that is no dictionary. *)
Lemma restructure_non_dict_field_cex :
  restructure ascii_lower [ (lit "Attributes", PList [ PInt 5 ]) ] = Exc AttributeError.
Proof. by vm_compute. Qed.

(** The scan of the three sample players. *)
Lemma scan_rejects_by_majority_of_records_witness :
  exists players st2,
    scan_player_slots ascii_isspace ascii_isprintable ascii_isalpha default_offsets
                      0x10000 (seqZ 0 3) sample_state_resolved = (Val players, st2) /\
    _scan_all_players ascii_isspace ascii_isprintable ascii_isalpha default_offsets
                      3 sample_state_resolved
    = (Val (if decide (length players < 2 * junk_records players)%nat
            then [] else players), st2).
Proof.
  apply (scan_rejects_by_majority_of_records ascii_isspace ascii_isprintable
           ascii_isalpha default_offsets 3 sample_state_resolved 0x10000
           sample_state_resolved).
  - reflexivity.
  - discriminate.
  - reflexivity.
Defined.

(** C4, as stated: two characters out of twenty-four are outside the baseline
    set, yet the scan is discarded. *)
Lemma scan_rejects_by_characters_cex :
  exists players,
    fst (scan_player_slots ascii_isspace ascii_isprintable ascii_isalpha default_offsets
                           0x10000 (seqZ 0 3) sample_state_resolved) = Val players /\
    length players = 3%nat /\
    length (name_chars players) = 24%nat /\ junk_chars players = 2%nat /\
    rejects_by_characters players = players /\
    fst (_scan_all_players ascii_isspace ascii_isprintable ascii_isalpha default_offsets
                           3 sample_state_resolved) = Val [].
Proof.
  eexists. split; [vm_compute; reflexivity|].
  repeat split; by vm_compute.
Qed.

(** The field of seven bits at bit 3 of offset [0x120] of the second sample
    player: the write of 200 succeeds, and 127 is read back. *)
Lemma set_then_get_field_witness :
  exists st',
    set_field_value ascii_isspace default_offsets 1 0x120 3 7 200 sample_state_resolved
    = (Val true, st') /\
    exists base,
      resolved_player_base st' = Some base /\
      (exists st'',
         get_field_value ascii_isspace default_offsets 1 0x120 3 7 st'
         = (Val (Some (Z.max 0 (Z.min (2 ^ 7 - 1) 200))), st'')) /\
      (forall a k, 0 <= k < 8 ->
         let first := c_void_p (base + 1 * PLAYER_STRIDE default_offsets + 0x120) in
         ~ (8 * first + 3 <= 8 * a + k < 8 * first + 3 + 7) ->
         bit_at (os_mem st') a k = bit_at (os_mem sample_state_resolved) a k).
Proof.
  destruct (set_then_get_field ascii_isspace default_offsets 1 0x120 3 7 200
              sample_state_resolved) as [Hdone Hback].
  destruct (Hdone 0x10000) as [st' Hset].
  - split; [reflexivity|]. exists 4242. repeat split; reflexivity.
  - discriminate.
  - reflexivity.
  - lia.
  - lia.
  - vm_compute. reflexivity.
  - exists st'. split; [exact Hset|]. exact (Hback st' Hset).
Defined.

(** On the sample process the first two candidates of each resolver fail and
    the third one validates. *)
Lemma resolvers_take_first_valid_candidate_witness :
  fst (_resolve_player_table_base ascii_isspace default_offsets sample_state)
  = Val (Some 0x10000) /\
  fst (_resolve_team_base_ptr ascii_isspace ascii_isprintable ascii_isalpha sample_state)
  = Val (Some 0x30000).
Proof.
  destruct (resolvers_take_first_valid_candidate ascii_isspace ascii_isprintable
              ascii_isalpha default_offsets sample_state MODULE_BASE eq_refl eq_refl)
    as [Hplayer Hteam].
  destruct (Hplayer eq_refl) as [Hp _]. destruct (Hteam eq_refl) as [Ht _].
  split.
  - pose (attempt := player_chain_attempt ascii_isspace default_offsets MODULE_BASE).
    pose (pre := [ (0x07E39430, 0x18, true); (0x06E14E48, 0x148, false) ]).
    pose (st1 := default sample_state (after_failed attempt pre sample_state)).
    destruct (Hp pre (0x07E52998, 0x0, false) [ (0x07E5DD88, 0x0, false) ] st1 0x10000
                 (snd (attempt (0x07E52998, 0x0, false) st1))) as [H _].
    + reflexivity.
    + apply some_eta. vm_compute. reflexivity.
    + apply run_eta. vm_compute. reflexivity.
    + rewrite H. reflexivity.
  - pose (attempt := team_chain_attempt ascii_isspace ascii_isprintable ascii_isalpha
                       MODULE_BASE).
    pose (pre := [ (0x07E39430, 0x88, true); (0x07E39430, 0x0, false) ]).
    pose (st1 := default sample_state (after_failed attempt pre sample_state)).
    destruct (Ht pre (0x07DFFAC0, 0x0, false) [] st1 0x30000
                 (snd (attempt (0x07DFFAC0, 0x0, false) st1))) as [H _].
    + reflexivity.
    + apply some_eta. vm_compute. reflexivity.
    + apply run_eta. vm_compute. reflexivity.
    + rewrite H. reflexivity.
Defined.

(** C3, as stated: a team record sits at the static address module base +
    [0x07DFFAC0] and passes the validator there, yet the team resolver
    reports failure after the three pointer reads of its candidates. *)
Lemma team_resolver_has_no_fallback_cex :
  fst (validate_team_base ascii_isspace ascii_isprintable ascii_isalpha
         (MODULE_BASE + 0x07DFFAC0) static_team_state) = Val true /\
  fst (_resolve_team_base_ptr ascii_isspace ascii_isprintable ascii_isalpha static_team_state)
  = Val None /\
  os_reads (snd (_resolve_team_base_ptr ascii_isspace ascii_isprintable ascii_isalpha
                   static_team_state))
  = [ (MODULE_BASE + 0x07E39430, 8); (MODULE_BASE + 0x07E39430, 8);
      (MODULE_BASE + 0x07DFFAC0, 8) ].
Proof. repeat split; by vm_compute. Qed.

(** C6 on the sample process: the team at [0x30000] carries the era value 97,
    whose year string is ["96-97"], and its label comes out as ["Bulls"]. *)
Lemma compose_drops_year_cex :
  fst (read_bytes (0x30000 + TEAM_YEAR_OFFSET) 2 sample_state)
  = Val (bytes_little (Z.shiftl 97 3) 2) /\
  _format_historic_year 97 = lit "96-97" /\
  fst (_compose_team_name_from_ptr ascii_isspace ascii_isprintable ascii_isalpha
         default_offsets 0x30000 sample_state) = Val (lit "Bulls").
Proof. repeat split; by vm_compute. Qed.

(** The raw value 5 on a three-bit field. *)
Lemma decoders_round_nearest_even_witness :
  (exists r, convert_raw_to_rating 5 3 = Val r /\
             nearest_ties_even (6031606643799772, -46) r) /\
  (exists r, convert_tendency_raw_to_rating 5 3 = Val r /\
             nearest_ties_even (5026338869833143, -46) r) /\
  rounds_half_up convert_raw_to_rating convert_raw_to_rating_value 5 3 /\
  rounds_half_up convert_tendency_raw_to_rating convert_tendency_raw_to_rating_value 5 3.
Proof.
  destruct (decoders_round_nearest_even 5 3) as (H1 & H2 & H3).
  split; [|split].
  - apply (H1 (Flt (S754_finite false 6031606643799772 (-46)))); by vm_compute.
  - apply (H2 (Flt (S754_finite false 5026338869833143 (-46)))); by vm_compute.
  - apply H3; lia.
Defined.

(** With no process to open, the read gives [None] and the write [False]. *)
Lemma field_access_never_raises_witness :
  get_field_value ascii_isspace default_offsets 1 0x120 3 7 detached_state
  = (Val None, detached_state) /\
  set_field_value ascii_isspace default_offsets 1 0x120 3 7 200 detached_state
  = (Val false, detached_state).
Proof.
  apply (field_access_never_raises ascii_isspace default_offsets 1 0x120 3 7 200
           detached_state).
  vm_compute. reflexivity.
Defined.


(** * More concrete runs *)

(** The rating 87 on an eight-bit field. *)
Lemma rating_survives_storage_witness :
  exists raw,
    convert_rating_to_raw (Int 87) 8 = Val raw /\ 0 <= raw < 2 ^ 8 /\
    convert_raw_to_rating raw 8 = Val (clamp_rating 87).
Proof. apply (rating_survives_storage 8 87); lia. Defined.

(** The tendency 55 on an eight-bit field. *)
Lemma tendency_survives_storage_witness :
  exists raw,
    convert_rating_to_tendency_raw (Int 55) 8 = Val raw /\ 0 <= raw < 2 ^ 8 /\
    convert_tendency_raw_to_rating raw 8 = Val (clamp_tendency 55).
Proof. apply (tendency_survives_storage 8 55); lia. Defined.

(** The raw value 37 of a six-bit field. *)
Lemma raw_survives_display_witness :
  (exists r, convert_raw_to_rating 37 6 = Val r /\
             convert_rating_to_raw (Int r) 6 = Val 37) /\
  (exists t, convert_tendency_raw_to_rating 37 6 = Val t /\
             convert_rating_to_tendency_raw (Int t) 6 = Val 37).
Proof. apply (raw_survives_display 6 37); lia. Defined.

(** The face id of the first sample player overwritten with [2^32 + 7]. *)
Lemma write_uint32_read_back_witness :
  (exists st'',
     read_uint32 0x10114 (snd (write_uint32 0x10114 (2 ^ 32 + 7) sample_state_resolved))
     = (Val ((2 ^ 32 + 7) mod 2 ^ 32), st'')) /\
  (forall a, ~ (c_void_p 0x10114 <= a < c_void_p 0x10114 + 4) ->
     os_mem (snd (write_uint32 0x10114 (2 ^ 32 + 7) sample_state_resolved)) !! a
     = os_mem sample_state_resolved !! a).
Proof.
  apply (write_uint32_read_back 0x10114 (2 ^ 32 + 7) sample_state_resolved).
  refine (run_eta (write_uint32 0x10114 (2 ^ 32 + 7)) sample_state_resolved (Val tt) _).
  vm_compute. reflexivity.
Defined.

(** The first name of the first sample player overwritten with ["Joseph"] in
    a field of four characters: ["Jos"] is read back. *)
Lemma write_wstring_read_back_witness :
  (exists st'',
     read_wstring 0x10028 4
       (snd (write_wstring_fixed 0x10028 (lit "Joseph") 4 sample_state_resolved))
     = (Val (until_nul (take (Z.to_nat (4 - 1)) (lit "Joseph"))), st'')) /\
  (forall a, ~ (c_void_p 0x10028 <= a < c_void_p 0x10028 + 2 * 4) ->
     os_mem (snd (write_wstring_fixed 0x10028 (lit "Joseph") 4 sample_state_resolved)) !! a
     = os_mem sample_state_resolved !! a).
Proof.
  apply (write_wstring_read_back 0x10028 (lit "Joseph") 4 sample_state_resolved).
  - lia.
  - vm_compute. reflexivity.
  - refine (run_eta (write_wstring_fixed 0x10028 (lit "Joseph") 4)
              sample_state_resolved (Val tt) _).
    vm_compute. reflexivity.
Defined.

(** One character outside the Basic Multilingual Plane written to a field of
    two characters (four bytes): six bytes are written. *)
Lemma write_wstring_fixed_extent_witness :
  exists data,
    os_mem (snd (write_wstring_fixed 0x10000 [0x1F3C0%N] 2 sample_state_resolved))
    = write_cells (os_mem sample_state_resolved) (c_void_p 0x10000) data /\
    Z.of_nat (length data) = 6.
Proof.
  apply (write_wstring_fixed_extent 0x10000 [0x1F3C0%N] 2 sample_state_resolved).
  - lia.
  - refine (run_eta (write_wstring_fixed 0x10000 [0x1F3C0%N] 2)
              sample_state_resolved (Val tt) _).
    vm_compute. reflexivity.
Defined.

(** The last name of the first sample player. *)
Lemma read_wstring_bounded_witness :
  (0%N ∉ lit "Smith") /\ Z.of_nat (length (lit "Smith")) <= 20 /\
  snd (read_wstring 0x10000 20 sample_state_resolved)
  = log_read 0x10000 (20 * 2) sample_state_resolved.
Proof.
  apply (read_wstring_bounded 0x10000 20 sample_state_resolved).
  refine (run_eta (read_wstring 0x10000 20) sample_state_resolved (Val (lit "Smith")) _).
  vm_compute. reflexivity.
Defined.

(** The sample offsets file, restructured once and once more. *)
Lemma restructure_idempotent_witness :
  exists out,
    restructure ascii_lower offsets_sample = Val out /\
    map fst out = map fst offsets_sample /\
    restructure ascii_lower out = Val out.
Proof.
  eexists. split; [vm_compute; reflexivity|].
  apply (restructure_idempotent ascii_lower offsets_sample).
  - apply (bool_decide_unpack _). vm_compute. exact Logic.I.
  - vm_compute. reflexivity.
Defined.

(** Opening the sample process again. *)
Lemma open_process_outcome_witness :
  exists b st',
    open_process sample_state = (Val b, st') /\
    gm_consistent st' /\ os_mem st' = os_mem sample_state /\
    if b
    then truthy (gm_hproc st') = true /\ _check_open st' = (Val tt, st') /\
         open_process st' = (Val true, st')
    else gm_pid st' = None /\ gm_hproc st' = None /\ gm_base_addr st' = None /\
         (forall addr n, read_bytes addr n st' = (Exc RuntimeError, st')) /\
         (forall addr data, write_bytes addr data st' = (Exc RuntimeError, st')).
Proof. apply (open_process_outcome sample_state). discriminate. Defined.

(** The second sample player renamed to Al Jonas with face id 99: the scan of
    its slot finds the new names and the new face id. *)
Lemma update_player_then_scan_witness :
  exists team st'',
    scan_player_slot ascii_isspace ascii_isprintable ascii_isalpha default_offsets
      0x10000 1
      (snd (update_player ascii_isspace default_offsets
              (mkPlayer 1 (lit "Al") (lit "Jonas") (lit "Bulls") 99)
              sample_state_resolved))
    = (Val (Some (mkPlayer 1 (lit "Al") (lit "Jonas") team 99)), st'').
Proof.
  apply (update_player_then_scan ascii_isspace ascii_isprintable ascii_isalpha
           default_offsets (mkPlayer 1 (lit "Al") (lit "Jonas") (lit "Bulls") 99)
           sample_state_resolved
           (snd (update_player ascii_isspace default_offsets
                   (mkPlayer 1 (lit "Al") (lit "Jonas") (lit "Bulls") 99)
                   sample_state_resolved))
           0x10000).
  - reflexivity.
  - discriminate.
  - reflexivity.
  - vm_compute. discriminate.
  - vm_compute. reflexivity.
  - vm_compute. reflexivity.
  - left. vm_compute. discriminate.
  - left. vm_compute. discriminate.
  - left. vm_compute. discriminate.
  - refine (run_eta (update_player ascii_isspace default_offsets
                       (mkPlayer 1 (lit "Al") (lit "Jonas") (lit "Bulls") 99))
              sample_state_resolved (Val tt) _).
    vm_compute. reflexivity.
Defined.

(** The short city name of the sample team set to ["CHI"], on a process whose
    team table the call resolves itself. *)
Lemma team_field_saved_witness :
  exists fields st'',
    get_team_fields ascii_isspace ascii_isprintable ascii_isalpha 0
      (snd (set_team_fields ascii_isspace ascii_isprintable ascii_isalpha 0
              [(lit "City Short Name", lit "CHI")] team_edit_state))
    = (Val (Some fields), st'') /\
    values_get fields (lit "City Short Name") = Some (lit "CHI").
Proof.
  apply (team_field_saved ascii_isspace ascii_isprintable ascii_isalpha 0
           (lit "City Short Name") 0x32A 8 (lit "CHI") team_edit_state
           (snd (set_team_fields ascii_isspace ascii_isprintable ascii_isalpha 0
                   [(lit "City Short Name", lit "CHI")] team_edit_state))).
  - apply (bool_decide_unpack _). vm_compute. exact Logic.I.
  - vm_compute. reflexivity.
  - refine (run_eta (set_team_fields ascii_isspace ascii_isprintable ascii_isalpha 0
                       [(lit "City Short Name", lit "CHI")])
              team_edit_state (Val true) _).
    vm_compute. reflexivity.
Defined.


(** The badges of the first sample player copied to the second, on a process
    whose player table the call resolves itself. *)
Lemma copy_player_data_copies_block_witness :
  0 <= 0 < Z.of_nat (length three_players) /\
  0 <= 1 < Z.of_nat (length three_players) /\
  (forall j, 0 <= j < LEN_BADGES ->
     exists b,
       os_mem copy_state
         !! (c_void_p (0x10000 + 0 * PLAYER_STRIDE default_offsets + OFF_BADGES) + j)
       = Some b /\
       os_mem (snd (copy_player_data ascii_isspace ascii_lower default_offsets
                      three_players 0 1 [lit "Badges"] copy_state))
         !! (c_void_p (0x10000 + 1 * PLAYER_STRIDE default_offsets + OFF_BADGES) + j)
       = Some b) /\
  (forall a,
     ~ (c_void_p (0x10000 + 1 * PLAYER_STRIDE default_offsets + OFF_BADGES) <= a
        < c_void_p (0x10000 + 1 * PLAYER_STRIDE default_offsets + OFF_BADGES) + LEN_BADGES) ->
     os_mem (snd (copy_player_data ascii_isspace ascii_lower default_offsets
                    three_players 0 1 [lit "Badges"] copy_state)) !! a
     = os_mem copy_state !! a).
Proof.
  apply (copy_player_data_copies_block ascii_isspace ascii_lower default_offsets
           three_players 0 1 (lit "Badges") OFF_BADGES LEN_BADGES copy_state
           (snd (copy_player_data ascii_isspace ascii_lower default_offsets
                   three_players 0 1 [lit "Badges"] copy_state))
           0x10000).
  - apply (bool_decide_unpack _). vm_compute. exact Logic.I.
  - refine (run_eta (copy_player_data ascii_isspace ascii_lower default_offsets
                       three_players 0 1 [lit "Badges"])
              copy_state (Val true) _).
    vm_compute. reflexivity.
  - vm_compute. reflexivity.
Defined.
